(** * AI Content Creator Tool: orchestration, slug and CSV export

    A shallow embedding of the application component [App] and of
    [services/geminiService.ts], followed by the properties established
    about them.  The component comes in two revisions: the plain one
    (module [App]) and the one with the API-key manager (module
    [AppWithKeys]), which differ in the precondition of the wrapper and in
    the arguments handed to the service.

    - JavaScript strings are sequences of UTF-16 code units: [jsstring] is
      [list Z], and [s.length] is the length of that list.
    - The generation functions reach the network; the component sees them
      as an environment that answers requests ([Service]).
    - Asynchronous code is a state-and-exception monad over the state of
      the component and a log of what happened ([Async]).  A handler runs
      to its end once clicked; two operations in flight at the same time
      are not modelled.
    - The numbers of the component (the duration, the chapter count, the
      character targets) are integers, [NaN] or an infinity ([number]):
      the number fields store [NaN] for a text that [parseInt] cannot
      read. *)

From Stdlib Require Import ZArith List Bool Lia String Ascii.
Import ListNotations.
Local Open Scope Z_scope.

(* ================================================================= *)
(** ** JavaScript strings *)

Module JS.

Definition jsstring := list Z.

(** [s.length] *)
Definition lengthOf (s : jsstring) : Z := Z.of_nat (List.length s).

(** Code units of interest. *)
Definition hyphen : Z := 45.
Definition comma : Z := 44.
Definition dquote : Z := 34.
Definition CR : Z := 13.
Definition LF : Z := 10.
Definition BOM : Z := 65279.

Definition inRange (lo hi c : Z) : bool := (lo <=? c) && (c <=? hi).

Definition isAscii (c : Z) : bool := inRange 0 127 c.
Definition isUpperAZ (c : Z) : bool := inRange 65 90 c.
Definition isHighSurrogate (c : Z) : bool := inRange 55296 56319 c.
Definition isLowSurrogate (c : Z) : bool := inRange 56320 57343 c.

(** Code point of a surrogate pair. *)
Definition codePoint (hi lo : Z) : Z :=
  65536 + (hi - 55296) * 1024 + (lo - 56320).

(** UTF-16 code units of a code point. *)
Definition unitsOf (cp : Z) : jsstring :=
  if cp <? 65536 then [cp]
  else [55296 + Z.shiftr (cp - 65536) 10; 56320 + Z.land (cp - 65536) 1023].

(** *** Literals

    String constants of the source are written here as Rocq strings, whose
    bytes are the UTF-8 encoding found in the source file; [lit] decodes
    them into UTF-16 code units. *)

Fixpoint utf8_points (bs : list Z) : list Z :=
  match bs with
  | [] => []
  | b0 :: r0 =>
      if b0 <? 128 then b0 :: utf8_points r0
      else match r0 with
      | [] => [65533]
      | b1 :: r1 =>
          if b0 <? 224 then
            ((b0 - 192) * 64 + (b1 - 128)) :: utf8_points r1
          else match r1 with
          | [] => [65533]
          | b2 :: r2 =>
              if b0 <? 240 then
                ((b0 - 224) * 4096 + (b1 - 128) * 64 + (b2 - 128))
                  :: utf8_points r2
              else match r2 with
              | [] => [65533]
              | b3 :: r3 =>
                  ((b0 - 240) * 262144 + (b1 - 128) * 4096
                   + (b2 - 128) * 64 + (b3 - 128)) :: utf8_points r3
              end
          end
      end
  end.

Definition bytesOf (s : string) : list Z :=
  List.map (fun a => Z.of_N (N_of_ascii a)) (list_ascii_of_string s).

Definition lit (s : string) : jsstring :=
  List.flat_map unitsOf (utf8_points (bytesOf s)).

(** [a.join(sep)] on an array of strings. *)
Fixpoint join (sep : jsstring) (parts : list jsstring) : jsstring :=
  match parts with
  | [] => []
  | [p] => p
  | p :: rest => p ++ sep ++ join sep rest
  end.

(** [String(n)] for an integer [n]: decimal digits, with a minus sign. *)
Fixpoint digitsOf (fuel : nat) (n : Z) (acc : jsstring) : jsstring :=
  match fuel with
  | O => acc
  | S fuel' =>
      let acc' := (48 + n mod 10) :: acc in
      if n <? 10 then acc' else digitsOf fuel' (n / 10) acc'
  end.

Definition ofInt (n : Z) : jsstring :=
  if n <? 0 then hyphen :: digitsOf (Z.to_nat (Z.log2 (- n) + 1)) (- n) []
  else digitsOf (Z.to_nat (Z.log2 n + 1)) n [].

(** *** Numbers

    The numbers that the component computes with: integers, [NaN] (what
    [parseInt] makes of a text that starts with no digit, and what the
    arithmetic makes of [NaN]) and the two infinities (a division by
    zero).  [Int z] is the double of value [z]; the arithmetic below is
    exact on integers, and so is the arithmetic of JavaScript as long as
    products and dividends stay below [2^52] in magnitude.  The properties
    that depend on a value say so. *)
Inductive number :=
| Int (z : Z)
| NaN
| Infinity (negative : bool).

Coercion Int : Z >-> number.

(** [a * b] for an integer constant [b]. *)
Definition times (a : number) (b : Z) : number :=
  match a with
  | Int z => Int (z * b)
  | NaN => NaN
  | Infinity negative =>
      if b =? 0 then NaN else Infinity (xorb negative (b <? 0))
  end.

(** [Math.round (n / d)] for a number [n] and an integer [d], here always
    the length of an array: the quotient rounded to the nearest integer,
    halves going up.  [NaN] stays [NaN], an infinity stays infinite, and a
    division by zero gives an infinity, or [NaN] for [0 / 0]. *)
Definition roundDiv (n : number) (d : Z) : number :=
  match n with
  | Int z =>
      if d =? 0 then (if z =? 0 then NaN else Infinity (z <? 0))
      else Int ((2 * z + d) / (2 * d))
  | NaN => NaN
  | Infinity negative => Infinity (xorb negative (d <? 0))
  end.

End JS.

Import JS.

(* ================================================================= *)
(** ** The Unicode built-ins used by [slugify]

    [toLowerCase], [normalize('NFD')] and the property class
    [\p{Diacritic}] belong to the JavaScript runtime, not to the
    repository.  They are taken as data, with three facts about the ASCII
    range: lower-casing only touches [A-Z] there, ASCII text is already
    in normal form, and of the ASCII characters only the circumflex and
    the grave accent have the property [Diacritic]. *)

Definition asciiLower (c : Z) : Z := if isUpperAZ c then c + 32 else c.

(** The characters kept by [/[^a-z0-9]+/]: one code unit in [a-z0-9]. *)
Definition isSlugChar (c : Z) : bool := inRange 97 122 c || inRange 48 57 c.

Record UnicodeData := {
  toLowerCase : jsstring -> jsstring;
  normalizeNFD : jsstring -> jsstring;
  isDiacritic : Z -> bool;
  toLowerCase_ascii :
    forall s, forallb isAscii s = true -> toLowerCase s = List.map asciiLower s;
  normalizeNFD_ascii :
    forall s, forallb isAscii s = true -> normalizeNFD s = s;
  isDiacritic_ascii :
    forall c, isAscii c = true -> isDiacritic c = (c =? 94) || (c =? 96)
}.

(* ================================================================= *)
(** ** services/geminiService.ts: [slugify] *)

Module geminiService.

Section Slugify.

Variable U : UnicodeData.

(** [.replace(/\p{Diacritic}/gu, '')]: with the [u] flag the pattern is
    matched against code points, so a surrogate pair is one character. *)
Fixpoint stripDiacritics (s : jsstring) : jsstring :=
  match s with
  | [] => []
  | c :: rest =>
      match rest with
      | d :: rest' =>
          if isHighSurrogate c && isLowSurrogate d then
            if isDiacritic U (codePoint c d) then stripDiacritics rest'
            else c :: d :: stripDiacritics rest'
          else if isDiacritic U c then stripDiacritics rest
          else c :: stripDiacritics rest
      | [] => if isDiacritic U c then [] else [c]
      end
  end.

(** [.replace(/[^a-z0-9]+/g, '-')]: every maximal run of code units
    outside [a-z0-9] becomes one hyphen.  [inRun] tells that the run the
    scan is in has already been replaced. *)
Fixpoint replaceRuns (inRun : bool) (s : jsstring) : jsstring :=
  match s with
  | [] => []
  | c :: rest =>
      if isSlugChar c then c :: replaceRuns false rest
      else if inRun then replaceRuns true rest
      else hyphen :: replaceRuns true rest
  end.

(** [.replace(/(^-|-$)/g, '')]: a hyphen at the very start and a hyphen
    at the very end are removed. *)
Definition dropLeadingHyphen (s : jsstring) : jsstring :=
  match s with
  | c :: rest => if c =? hyphen then rest else s
  | [] => []
  end.

Fixpoint dropTrailingHyphen (s : jsstring) : jsstring :=
  match s with
  | [] => []
  | [c] => if c =? hyphen then [] else [c]
  | c :: rest => c :: dropTrailingHyphen rest
  end.

Definition trimHyphens (s : jsstring) : jsstring :=
  dropTrailingHyphen (dropLeadingHyphen s).

(** [s || "ndgroup"]: the empty string is the only falsy string. *)
Definition orDefault (s : jsstring) : jsstring :=
  match s with
  | [] => lit "ndgroup"
  | _ => s
  end.

(** The string on which the two last replacements work. *)
Definition prepared (s : jsstring) : jsstring :=
  stripDiacritics (normalizeNFD U (toLowerCase U (orDefault s))).

Definition slugify (s : jsstring) : jsstring :=
  trimHyphens (replaceRuns false (prepared s)).

End Slugify.

End geminiService.

(* ================================================================= *)
(** ** types.ts

    The type declarations are imported by the component from [./types];
    the records below have the fields that the component reads and writes. *)

Module RawOutlineItem.
(** [Omit<OutlineItem, 'index'>], what the outline service returns. *)
Record t := make { title : jsstring; focus : jsstring; actions : list jsstring }.
End RawOutlineItem.

Module OutlineItem.
Record t := make {
  index : Z; title : jsstring; focus : jsstring; actions : list jsstring }.
End OutlineItem.

Module ScriptBlock.
Record t := make { index : Z; chapter : jsstring; text : jsstring; chars : Z }.
End ScriptBlock.

Module SEOResult.
Record t := make {
  titles : list jsstring; hashtags : list jsstring;
  keywords : list jsstring; description : jsstring }.
End SEOResult.

Module Key.
(** [keyof LoadingStates] *)
Inductive t := outline | seo | script | prompts.

Definition eqb (a b : t) : bool :=
  match a, b with
  | outline, outline | seo, seo | script, script | prompts, prompts => true
  | _, _ => false
  end.

(** The key as it appears in a template string. *)
Definition name (k : t) : jsstring :=
  match k with
  | outline => lit "outline" | seo => lit "seo"
  | script => lit "script" | prompts => lit "prompts"
  end.
End Key.

Module LoadingStates.
Record t := make { outline : bool; seo : bool; script : bool; prompts : bool }.

Definition get (k : Key.t) (l : t) : bool :=
  match k with
  | Key.outline => outline l | Key.seo => seo l
  | Key.script => script l | Key.prompts => prompts l
  end.

(** [{ ...prev, [key]: v }] *)
Definition set (k : Key.t) (v : bool) (prev : t) : t :=
  match k with
  | Key.outline => make v (seo prev) (script prev) (prompts prev)
  | Key.seo => make (outline prev) v (script prev) (prompts prev)
  | Key.script => make (outline prev) (seo prev) v (prompts prev)
  | Key.prompts => make (outline prev) (seo prev) (script prev) v
  end.
End LoadingStates.

Definition INITIAL_LOADING_STATES : LoadingStates.t :=
  LoadingStates.make false false false false.

(** A thrown value, as far as the [catch] clause looks at it:
    [err instanceof Error ? err.message : String(err)]. *)
Inductive Exn :=
| ErrorObject (message : jsstring)
| Thrown (asString : jsstring).

Definition errText (e : Exn) : jsstring :=
  match e with ErrorObject m => m | Thrown s => s end.

(* ================================================================= *)
(** ** The state of the component

    One field per [useState] cell.  The three API-management cells exist
    in the revision with the key manager only; the plain revision never
    reads them. *)

Module State.
Record t := make {
  bookTitle : jsstring;
  frameRatio : jsstring;
  durationMin : number;
  chaptersCount : number;
  selectedModel : jsstring;
  apiKeyGemini : jsstring;
  apiKeyOpenAI : jsstring;
  outline : list OutlineItem.t;
  seo : option SEOResult.t;
  scriptBlocks : list ScriptBlock.t;
  videoPrompts : list jsstring;
  thumbTextIdeas : list jsstring;
  loading : LoadingStates.t;
  error : option jsstring
}.

Definition initial : t :=
  make [] (lit "9:16") 240 12 (lit "gemini-3-pro-preview") [] []
       [] None [] [] [] INITIAL_LOADING_STATES None.

(** The setters returned by [useState], as functional updates. *)
Definition setOutline (f : list OutlineItem.t -> list OutlineItem.t) (s : t) : t :=
  make (bookTitle s) (frameRatio s) (durationMin s) (chaptersCount s)
       (selectedModel s) (apiKeyGemini s) (apiKeyOpenAI s)
       (f (outline s)) (seo s) (scriptBlocks s) (videoPrompts s)
       (thumbTextIdeas s) (loading s) (error s).
Definition setSeo (f : option SEOResult.t -> option SEOResult.t) (s : t) : t :=
  make (bookTitle s) (frameRatio s) (durationMin s) (chaptersCount s)
       (selectedModel s) (apiKeyGemini s) (apiKeyOpenAI s)
       (outline s) (f (seo s)) (scriptBlocks s) (videoPrompts s)
       (thumbTextIdeas s) (loading s) (error s).
Definition setScriptBlocks (f : list ScriptBlock.t -> list ScriptBlock.t) (s : t) : t :=
  make (bookTitle s) (frameRatio s) (durationMin s) (chaptersCount s)
       (selectedModel s) (apiKeyGemini s) (apiKeyOpenAI s)
       (outline s) (seo s) (f (scriptBlocks s)) (videoPrompts s)
       (thumbTextIdeas s) (loading s) (error s).
Definition setVideoPrompts (f : list jsstring -> list jsstring) (s : t) : t :=
  make (bookTitle s) (frameRatio s) (durationMin s) (chaptersCount s)
       (selectedModel s) (apiKeyGemini s) (apiKeyOpenAI s)
       (outline s) (seo s) (scriptBlocks s) (f (videoPrompts s))
       (thumbTextIdeas s) (loading s) (error s).
Definition setThumbTextIdeas (f : list jsstring -> list jsstring) (s : t) : t :=
  make (bookTitle s) (frameRatio s) (durationMin s) (chaptersCount s)
       (selectedModel s) (apiKeyGemini s) (apiKeyOpenAI s)
       (outline s) (seo s) (scriptBlocks s) (videoPrompts s)
       (f (thumbTextIdeas s)) (loading s) (error s).
Definition setLoading (f : LoadingStates.t -> LoadingStates.t) (s : t) : t :=
  make (bookTitle s) (frameRatio s) (durationMin s) (chaptersCount s)
       (selectedModel s) (apiKeyGemini s) (apiKeyOpenAI s)
       (outline s) (seo s) (scriptBlocks s) (videoPrompts s)
       (thumbTextIdeas s) (f (loading s)) (error s).
Definition setError (f : option jsstring -> option jsstring) (s : t) : t :=
  make (bookTitle s) (frameRatio s) (durationMin s) (chaptersCount s)
       (selectedModel s) (apiKeyGemini s) (apiKeyOpenAI s)
       (outline s) (seo s) (scriptBlocks s) (videoPrompts s)
       (thumbTextIdeas s) (loading s) (f (error s)).
End State.

(* ================================================================= *)
(** ** The generation service, seen from the component

    Every exported generation function of [geminiService] sends a prompt
    over the network and parses the answer, so for the component it is an
    environment: a call is an argument list, and what comes back is a
    promise that fulfils with a value of the declared type or rejects.
    [extra] holds the trailing arguments: none in the plain revision, the
    selected model and the Gemini key in the revision with the key manager. *)

Inductive Request :=
| generateOutline (bookTitle : jsstring) (chaptersCount durationMin : number)
                  (extra : list jsstring)
| generateSEO (bookTitle : jsstring) (durationMin : number)
              (extra : list jsstring)
| generateScriptBlock (item : OutlineItem.t) (bookTitle : jsstring)
                      (targetChars : number) (extra : list jsstring)
| generateVideoPrompts (bookTitle frameRatio : jsstring) (extra : list jsstring)
| generateThumbIdeas (bookTitle : jsstring) (durationMin : number)
                     (extra : list jsstring).

(** A settled promise: [inl] is a rejection. *)
Definition Promise (A : Type) : Type := (Exn + A)%type.

(** The environment answers a request knowing the requests made before
    it, so that it need not answer the same request twice alike.
    [thumbsRejectFirst] settles which rejection [Promise.all] sees first
    when both of its promises reject. *)
Record Service := {
  replyOutline : list Request -> Request -> Promise (list RawOutlineItem.t);
  replySEO : list Request -> Request -> Promise SEOResult.t;
  replyScriptBlock : list Request -> Request -> Promise jsstring;
  replyVideoPrompts : list Request -> Request -> Promise (list jsstring);
  replyThumbIdeas : list Request -> Request -> Promise (list jsstring);
  thumbsRejectFirst : list Request -> bool
}.

(* ================================================================= *)
(** ** Asynchronous code as a state-and-exception monad over a log *)

Module Cell.
(** The [useState] cells that the handlers write. *)
Inductive t :=
  outline | seo | scriptBlocks | videoPrompts | thumbTextIdeas | loading | error.
End Cell.

Inductive Event :=
| Called (r : Request)                 (* a service function is invoked *)
| Wrote (cell : Cell.t) (s : State.t)  (* a setter ran; [s] is the state after it *)
| ConsoleError (k : Key.t) (e : Exn).  (* [console.error] in the [catch] clause *)

Record World := mkWorld { store : State.t; log : list Event }.

Definition Async (A : Type) : Type := World -> (Exn + A) * World.

Definition ret {A} (a : A) : Async A := fun w => (inr a, w).

Definition bind {A B} (m : Async A) (k : A -> Async B) : Async B :=
  fun w => match m w with
           | (inr a, w') => k a w'
           | (inl e, w') => (inl e, w')
           end.

Notation "x <- m ;; k" := (bind m (fun x => k))
  (at level 61, m at next level, right associativity).
Notation "m ;; k" := (bind m (fun _ => k))
  (at level 61, right associativity).

Definition emit (e : Event) : Async unit :=
  fun w => (inr tt, mkWorld (store w) (log w ++ [e])).

(** A setter call: the state changes and the change is observable. *)
Definition update (cell : Cell.t) (f : State.t -> State.t) : Async unit :=
  fun w => let s := f (store w) in (inr tt, mkWorld s (log w ++ [Wrote cell s])).

Definition setOutline f := update Cell.outline (State.setOutline f).
Definition setSeo f := update Cell.seo (State.setSeo f).
Definition setScriptBlocks f := update Cell.scriptBlocks (State.setScriptBlocks f).
Definition setVideoPrompts f := update Cell.videoPrompts (State.setVideoPrompts f).
Definition setThumbTextIdeas f := update Cell.thumbTextIdeas (State.setThumbTextIdeas f).
Definition setLoading f := update Cell.loading (State.setLoading f).
Definition setError f := update Cell.error (State.setError f).

(** The requests made so far, oldest first. *)
Fixpoint calls (l : list Event) : list Request :=
  match l with
  | [] => []
  | Called r :: rest => r :: calls rest
  | _ :: rest => calls rest
  end.

(** Calling a service function issues the request at once and hands back
    its promise. *)
Definition invoke {A} (reply : list Request -> Request -> Promise A)
    (r : Request) : Async (Promise A) :=
  fun w => (inr (reply (calls (log w)) r), mkWorld (store w) (log w ++ [Called r])).

(** [await p] *)
Definition await {A} (p : Promise A) : Async A := fun w => (p, w).

(** [Promise.all([pa, pb])] *)
Definition promiseAll {A B} (bFirst : bool) (pa : Promise A) (pb : Promise B)
  : Promise (A * B) :=
  match pa, pb with
  | inr a, inr b => inr (a, b)
  | inl e, inr _ => inl e
  | inr _, inl e => inl e
  | inl ea, inl eb => inl (if bFirst then eb else ea)
  end.

(** [try { return await body } catch (err) { handler } finally { final }];
    the value is [None] when the [catch] clause ran. *)
Definition tryCatchFinally {A} (body : Async A) (handler : Exn -> Async unit)
    (final : Async unit) : Async (option A) :=
  fun w =>
    match body w with
    | (inr a, w1) => (final ;; ret (Some a)) w1
    | (inl e, w1) =>
        match handler e w1 with
        | (inr _, w2) => (final ;; ret None) w2
        | (inl e', w2) => (final ;; (fun w3 => (inl e', w3))) w2
        end
    end.

(** [for (const x of l) { body x }] *)
Fixpoint forOf {A} (l : list A) (body : A -> Async unit) : Async unit :=
  match l with
  | [] => ret tt
  | x :: rest => body x ;; forOf rest body
  end.

(** [result.map((item, index) => ({ ...item, index }))] *)
Fixpoint indexFrom (i : Z) (l : list RawOutlineItem.t) : list OutlineItem.t :=
  match l with
  | [] => []
  | r :: rest =>
      OutlineItem.make i (RawOutlineItem.title r) (RawOutlineItem.focus r)
                       (RawOutlineItem.actions r)
        :: indexFrom (i + 1) rest
  end.

Definition isEmpty (s : jsstring) : bool :=
  match s with [] => true | _ => false end.

(** [s.startsWith(p)] *)
Fixpoint startsWith (s p : jsstring) : bool :=
  match p, s with
  | [], _ => true
  | _ :: _, [] => false
  | a :: p', b :: s' => (a =? b) && startsWith s' p'
  end.

(** [Blob([csvContent])]: the string is encoded as UTF-8, a surrogate
    pair giving one code point and a lone surrogate U+FFFD. *)
Definition utf8_of_point (cp : Z) : list Z :=
  if cp <? 128 then [cp]
  else if cp <? 2048 then [192 + cp / 64; 128 + cp mod 64]
  else if cp <? 65536 then
    [224 + cp / 4096; 128 + (cp / 64) mod 64; 128 + cp mod 64]
  else [240 + cp / 262144; 128 + (cp / 4096) mod 64;
        128 + (cp / 64) mod 64; 128 + cp mod 64].

Definition scalarOf (c : Z) : Z :=
  if isHighSurrogate c || isLowSurrogate c then 65533 else c.

Fixpoint utf8_encode (s : jsstring) : list Z :=
  match s with
  | [] => []
  | c :: rest =>
      match rest with
      | d :: rest' =>
          if isHighSurrogate c && isLowSurrogate d
          then utf8_of_point (codePoint c d) ++ utf8_encode rest'
          else utf8_of_point (scalarOf c) ++ utf8_encode rest
      | [] => utf8_of_point (scalarOf c)
      end
  end.

(** What [link.click()] hands to the browser: a file name and the bytes
    of the blob. *)
Record Download := mkDownload { filename : jsstring; content : list Z }.

(** The messages shown to the user: the two precondition messages and the
    template string of the [catch] clause. *)
Definition titleMissing : jsstring := lit "Vui lòng nhập tên sách trước.".

Definition openAIKeyMissing : jsstring :=
  lit "Vui lòng nhập OpenAI API Key để sử dụng các model ChatGPT.".

Definition failureMessage (key : Key.t) (err : Exn) : jsstring :=
  lit "Đã xảy ra lỗi khi tạo " ++ Key.name key
  ++ lit ". Vui lòng thử lại. Lỗi: " ++ errText err.

(* ================================================================= *)
(** ** The component, plain revision

    Everything below [function App()] closes over the values of the
    render in which it was created: [c] is that render's state.  The
    setters act on the live state of the component. *)

Module App.

Section Render.

Variable U : UnicodeData.
Variable svc : Service.
Variable c : State.t.

Definition totalCharsTarget : number := times (State.durationMin c) 1000.

Definition withErrorHandling (fn : Async unit) (key : Key.t)
  : Async (option unit) :=
  if isEmpty (State.bookTitle c) then
    setError (fun _ => Some titleMissing) ;;
    ret None
  else
    setError (fun _ => None) ;;
    setLoading (LoadingStates.set key true) ;;
    tryCatchFinally fn
      (fun err =>
         emit (ConsoleError key err) ;;
         setError (fun _ => Some (failureMessage key err)))
      (setLoading (LoadingStates.set key false)).

Definition outlineBody : Async unit :=
  p <- invoke (replyOutline svc)
         (generateOutline (State.bookTitle c) (State.chaptersCount c)
                          (State.durationMin c) []) ;;
  result <- await p ;;
  let indexedResult := indexFrom 0 result in
  setOutline (fun _ => indexedResult).

Definition seoBody : Async unit :=
  p <- invoke (replySEO svc)
         (generateSEO (State.bookTitle c) (State.durationMin c) []) ;;
  result <- await p ;;
  setSeo (fun _ => Some result).

Definition promptsBody : Async unit :=
  pa <- invoke (replyVideoPrompts svc)
          (generateVideoPrompts (State.bookTitle c) (State.frameRatio c) []) ;;
  pb <- invoke (replyThumbIdeas svc)
          (generateThumbIdeas (State.bookTitle c) (State.durationMin c) []) ;;
  both <- (fun w => await (promiseAll (thumbsRejectFirst svc (calls (log w)))
                                      pa pb) w) ;;
  let '(prompts, thumbs) := both in
  setVideoPrompts (fun _ => prompts) ;;
  setThumbTextIdeas (fun _ => thumbs).

(** The body of the [for] loop of [handleGenerateScript]. *)
Definition writeBlock (charsPerBlock : number) (item : OutlineItem.t)
  : Async unit :=
  p <- invoke (replyScriptBlock svc)
         (generateScriptBlock item (State.bookTitle c) charsPerBlock []) ;;
  text <- await p ;;
  let newBlock :=
    ScriptBlock.make (OutlineItem.index item + 1) (OutlineItem.title item)
                     text (lengthOf text) in
  setScriptBlocks (fun prev => prev ++ [newBlock]).

Definition scriptBody : Async unit :=
  setScriptBlocks (fun _ => []) ;;
  currentOutline <-
    (if (List.length (State.outline c) =? 0)%nat then
       p <- invoke (replyOutline svc)
              (generateOutline (State.bookTitle c) (State.chaptersCount c)
                               (State.durationMin c) []) ;;
       generatedOutline <- await p ;;
       let currentOutline := indexFrom 0 generatedOutline in
       setOutline (fun _ => currentOutline) ;;
       ret currentOutline
     else ret (State.outline c)) ;;
  let totalWeight := Z.of_nat (List.length currentOutline) in
  let charsPerBlock := roundDiv totalCharsTarget totalWeight in
  forOf currentOutline (writeBlock charsPerBlock).

(** The four handlers: each is its body wrapped by [withErrorHandling]. *)
Definition body (k : Key.t) : Async unit :=
  match k with
  | Key.outline => outlineBody
  | Key.seo => seoBody
  | Key.script => scriptBody
  | Key.prompts => promptsBody
  end.

Definition handleGenerateOutline := withErrorHandling outlineBody Key.outline.
Definition handleGenerateSEO := withErrorHandling seoBody Key.seo.
Definition handleGeneratePrompts := withErrorHandling promptsBody Key.prompts.
Definition handleGenerateScript := withErrorHandling scriptBody Key.script.

(** The handler behind each of the four buttons. *)
Definition handler (k : Key.t) : Async (option unit) :=
  match k with
  | Key.outline => handleGenerateOutline
  | Key.seo => handleGenerateSEO
  | Key.script => handleGenerateScript
  | Key.prompts => handleGeneratePrompts
  end.

(** *** Export *)

(** The arrow function mapped over a row: every double quote of the field
    is replaced by two, and the outcome is put between double quotes.  The
    fields are strings, never [null], so the [??] default is not taken. *)
Fixpoint doubleQuotes (v : jsstring) : jsstring :=
  match v with
  | [] => []
  | ch :: rest =>
      if ch =? dquote then dquote :: dquote :: doubleQuotes rest
      else ch :: doubleQuotes rest
  end.

Definition quoteField (v : jsstring) : jsstring :=
  [dquote] ++ doubleQuotes v ++ [dquote].

Definition processRow (row : list jsstring) : jsstring :=
  join [comma] (List.map quoteField row).

Definition csvContent (rows : list (list jsstring)) : jsstring :=
  [BOM] ++ join [CR; LF] (List.map processRow rows).

Definition downloadCSV (filename : jsstring) (rows : list (list jsstring))
  : Download :=
  mkDownload filename (utf8_encode (csvContent rows)).

Definition exportScriptCSV : option Download :=
  if (List.length (State.scriptBlocks c) =? 0)%nat then None
  else
    let rows :=
      [lit "STT"; lit "Chương"; lit "Kịch bản"]
        :: List.map (fun b => [ofInt (ScriptBlock.index b);
                               ScriptBlock.chapter b; ScriptBlock.text b])
                    (State.scriptBlocks c) in
    Some (downloadCSV
            (lit "kichban_" ++ geminiService.slugify U (State.bookTitle c)
             ++ lit ".csv") rows).

(** [videoPrompts.map((p, i) => [String(i + 1), p])] *)
Fixpoint numberFrom (i : Z) (l : list jsstring) : list (list jsstring) :=
  match l with
  | [] => []
  | p :: rest => [ofInt (i + 1); p] :: numberFrom (i + 1) rest
  end.

Definition exportPromptCSV : option Download :=
  if (List.length (State.videoPrompts c) =? 0)%nat then None
  else
    let rows := [lit "STT"; lit "Prompt"] :: numberFrom 0 (State.videoPrompts c) in
    Some (downloadCSV
            (lit "prompts_" ++ geminiService.slugify U (State.bookTitle c)
             ++ lit ".csv") rows).

End Render.

(** A click runs the handler of the current render. *)
Definition click (svc : Service) (k : Key.t) (w : World) : World :=
  snd (handler svc (store w) k w).

End App.

(* ================================================================= *)
(** ** The component, revision with the API-key manager

    The handlers pass the selected model and the Gemini key on to the
    service, and the wrapper has one more check. *)

Module AppWithKeys.

Section Render.

Variable svc : Service.
Variable c : State.t.

Definition totalCharsTarget : number := times (State.durationMin c) 1000.

Definition extra : list jsstring := [State.selectedModel c; State.apiKeyGemini c].

Definition withErrorHandling (fn : Async unit) (key : Key.t)
  : Async (option unit) :=
  if isEmpty (State.bookTitle c) then
    setError (fun _ => Some titleMissing) ;;
    ret None
  else if startsWith (State.selectedModel c) (lit "gpt")
          && isEmpty (State.apiKeyOpenAI c) then
    setError (fun _ => Some openAIKeyMissing) ;;
    ret None
  else
    setError (fun _ => None) ;;
    setLoading (LoadingStates.set key true) ;;
    tryCatchFinally fn
      (fun err =>
         emit (ConsoleError key err) ;;
         setError (fun _ => Some (failureMessage key err)))
      (setLoading (LoadingStates.set key false)).

Definition outlineBody : Async unit :=
  p <- invoke (replyOutline svc)
         (generateOutline (State.bookTitle c) (State.chaptersCount c)
                          (State.durationMin c) extra) ;;
  result <- await p ;;
  let indexedResult := indexFrom 0 result in
  setOutline (fun _ => indexedResult).

Definition seoBody : Async unit :=
  p <- invoke (replySEO svc)
         (generateSEO (State.bookTitle c) (State.durationMin c) extra) ;;
  result <- await p ;;
  setSeo (fun _ => Some result).

Definition promptsBody : Async unit :=
  pa <- invoke (replyVideoPrompts svc)
          (generateVideoPrompts (State.bookTitle c) (State.frameRatio c) extra) ;;
  pb <- invoke (replyThumbIdeas svc)
          (generateThumbIdeas (State.bookTitle c) (State.durationMin c) extra) ;;
  both <- (fun w => await (promiseAll (thumbsRejectFirst svc (calls (log w)))
                                      pa pb) w) ;;
  let '(prompts, thumbs) := both in
  setVideoPrompts (fun _ => prompts) ;;
  setThumbTextIdeas (fun _ => thumbs).

Definition writeBlock (charsPerBlock : number) (item : OutlineItem.t)
  : Async unit :=
  p <- invoke (replyScriptBlock svc)
         (generateScriptBlock item (State.bookTitle c) charsPerBlock extra) ;;
  text <- await p ;;
  let newBlock :=
    ScriptBlock.make (OutlineItem.index item + 1) (OutlineItem.title item)
                     text (lengthOf text) in
  setScriptBlocks (fun prev => prev ++ [newBlock]).

Definition scriptBody : Async unit :=
  setScriptBlocks (fun _ => []) ;;
  currentOutline <-
    (if (List.length (State.outline c) =? 0)%nat then
       p <- invoke (replyOutline svc)
              (generateOutline (State.bookTitle c) (State.chaptersCount c)
                               (State.durationMin c) extra) ;;
       generatedOutline <- await p ;;
       let currentOutline := indexFrom 0 generatedOutline in
       setOutline (fun _ => currentOutline) ;;
       ret currentOutline
     else ret (State.outline c)) ;;
  let totalWeight := Z.of_nat (List.length currentOutline) in
  let charsPerBlock := roundDiv totalCharsTarget totalWeight in
  forOf currentOutline (writeBlock charsPerBlock).

Definition body (k : Key.t) : Async unit :=
  match k with
  | Key.outline => outlineBody
  | Key.seo => seoBody
  | Key.script => scriptBody
  | Key.prompts => promptsBody
  end.

Definition handleGenerateOutline := withErrorHandling outlineBody Key.outline.
Definition handleGenerateSEO := withErrorHandling seoBody Key.seo.
Definition handleGeneratePrompts := withErrorHandling promptsBody Key.prompts.
Definition handleGenerateScript := withErrorHandling scriptBody Key.script.

Definition handler (k : Key.t) : Async (option unit) :=
  match k with
  | Key.outline => handleGenerateOutline
  | Key.seo => handleGenerateSEO
  | Key.script => handleGenerateScript
  | Key.prompts => handleGeneratePrompts
  end.

End Render.

Definition click (svc : Service) (k : Key.t) (w : World) : World :=
  snd (handler svc (store w) k w).

End AppWithKeys.

(* ================================================================= *)
(** ** A fragment of the Unicode data, to run examples

    ASCII and the precomposed letters of the Vietnamese alphabet with
    their lower-case mappings and canonical decompositions; the combining
    diacritical marks and the spacing diacritics of ASCII and Latin-1 as
    [\p{Diacritic}].  Code points outside the tables are left alone. *)

Module Vietnamese.

Definition lowerTable : list (Z * Z) :=
  [ (192, 224); (193, 225); (194, 226); (195, 227); (200, 232); (201, 233); (202, 234);
    (204, 236); (205, 237); (210, 242); (211, 243); (212, 244); (213, 245); (217, 249);
    (218, 250); (221, 253); (258, 259); (272, 273); (296, 297); (360, 361); (416, 417);
    (431, 432);
    (7840, 7841); (7842, 7843); (7844, 7845); (7846, 7847); (7848, 7849); (7850, 7851);
    (7852, 7853); (7854, 7855); (7856, 7857); (7858, 7859); (7860, 7861); (7862, 7863);
    (7864, 7865); (7866, 7867); (7868, 7869); (7870, 7871); (7872, 7873); (7874, 7875);
    (7876, 7877); (7878, 7879); (7880, 7881); (7882, 7883); (7884, 7885); (7886, 7887);
    (7888, 7889); (7890, 7891); (7892, 7893); (7894, 7895); (7896, 7897); (7898, 7899);
    (7900, 7901); (7902, 7903); (7904, 7905); (7906, 7907); (7908, 7909); (7910, 7911);
    (7912, 7913); (7914, 7915); (7916, 7917); (7918, 7919); (7920, 7921); (7922, 7923);
    (7924, 7925); (7926, 7927); (7928, 7929) ].

Definition decompositionTable : list (Z * list Z) :=
  [ (192, [65; 768]); (193, [65; 769]); (194, [65; 770]); (195, [65; 771]); (200, [69; 768]);
    (201, [69; 769]); (202, [69; 770]); (204, [73; 768]); (205, [73; 769]); (210, [79; 768]);
    (211, [79; 769]); (212, [79; 770]); (213, [79; 771]); (217, [85; 768]); (218, [85; 769]);
    (221, [89; 769]); (224, [97; 768]); (225, [97; 769]); (226, [97; 770]); (227, [97; 771]);
    (232, [101; 768]); (233, [101; 769]); (234, [101; 770]); (236, [105; 768]);
    (237, [105; 769]); (242, [111; 768]); (243, [111; 769]); (244, [111; 770]);
    (245, [111; 771]); (249, [117; 768]); (250, [117; 769]); (253, [121; 769]);
    (258, [65; 774]); (259, [97; 774]); (296, [73; 771]); (297, [105; 771]); (360, [85; 771]);
    (361, [117; 771]); (416, [79; 795]); (417, [111; 795]); (431, [85; 795]);
    (432, [117; 795]); (7840, [65; 803]); (7841, [97; 803]); (7842, [65; 777]);
    (7843, [97; 777]); (7844, [65; 770; 769]); (7845, [97; 770; 769]); (7846, [65; 770; 768]);
    (7847, [97; 770; 768]); (7848, [65; 770; 777]); (7849, [97; 770; 777]);
    (7850, [65; 770; 771]); (7851, [97; 770; 771]); (7852, [65; 803; 770]);
    (7853, [97; 803; 770]); (7854, [65; 774; 769]); (7855, [97; 774; 769]);
    (7856, [65; 774; 768]); (7857, [97; 774; 768]); (7858, [65; 774; 777]);
    (7859, [97; 774; 777]); (7860, [65; 774; 771]); (7861, [97; 774; 771]);
    (7862, [65; 803; 774]); (7863, [97; 803; 774]); (7864, [69; 803]); (7865, [101; 803]);
    (7866, [69; 777]); (7867, [101; 777]); (7868, [69; 771]); (7869, [101; 771]);
    (7870, [69; 770; 769]); (7871, [101; 770; 769]); (7872, [69; 770; 768]);
    (7873, [101; 770; 768]); (7874, [69; 770; 777]); (7875, [101; 770; 777]);
    (7876, [69; 770; 771]); (7877, [101; 770; 771]); (7878, [69; 803; 770]);
    (7879, [101; 803; 770]); (7880, [73; 777]); (7881, [105; 777]); (7882, [73; 803]);
    (7883, [105; 803]); (7884, [79; 803]); (7885, [111; 803]); (7886, [79; 777]);
    (7887, [111; 777]); (7888, [79; 770; 769]); (7889, [111; 770; 769]);
    (7890, [79; 770; 768]); (7891, [111; 770; 768]); (7892, [79; 770; 777]);
    (7893, [111; 770; 777]); (7894, [79; 770; 771]); (7895, [111; 770; 771]);
    (7896, [79; 803; 770]); (7897, [111; 803; 770]); (7898, [79; 795; 769]);
    (7899, [111; 795; 769]); (7900, [79; 795; 768]); (7901, [111; 795; 768]);
    (7902, [79; 795; 777]); (7903, [111; 795; 777]); (7904, [79; 795; 771]);
    (7905, [111; 795; 771]); (7906, [79; 795; 803]); (7907, [111; 795; 803]);
    (7908, [85; 803]); (7909, [117; 803]); (7910, [85; 777]); (7911, [117; 777]);
    (7912, [85; 795; 769]); (7913, [117; 795; 769]); (7914, [85; 795; 768]);
    (7915, [117; 795; 768]); (7916, [85; 795; 777]); (7917, [117; 795; 777]);
    (7918, [85; 795; 771]); (7919, [117; 795; 771]); (7920, [85; 795; 803]);
    (7921, [117; 795; 803]); (7922, [89; 768]); (7923, [121; 768]); (7924, [89; 803]);
    (7925, [121; 803]); (7926, [89; 777]); (7927, [121; 777]); (7928, [89; 771]);
    (7929, [121; 771]) ].

Fixpoint assoc {A} (k : Z) (l : list (Z * A)) : option A :=
  match l with
  | [] => None
  | (k', v) :: rest => if k =? k' then Some v else assoc k rest
  end.

Definition lower1 (c : Z) : Z :=
  if isUpperAZ c then c + 32
  else match assoc c lowerTable with Some v => v | None => c end.

Definition decompose (c : Z) : jsstring :=
  match assoc c decompositionTable with Some v => v | None => [c] end.

Definition diacritic (c : Z) : bool :=
  inRange 768 879 c
  || (c =? 94) || (c =? 96) || (c =? 168) || (c =? 175) || (c =? 180)
  || (c =? 183) || (c =? 184).

End Vietnamese.

(** ** Vocabulary of the properties *)

Definition startsWithHyphen (s : jsstring) : bool :=
  match s with
  | c :: _ => c =? hyphen
  | [] => false
  end.

Definition endsWithHyphen (s : jsstring) : bool := startsWithHyphen (rev s).

(** The maximal runs of characters of [a-z0-9] of a string, in order. *)
Fixpoint wordsOf (s : jsstring) : list jsstring :=
  match s with
  | [] => []
  | c :: rest =>
      if isSlugChar c then
        match rest with
        | d :: _ =>
            if isSlugChar d then
              match wordsOf rest with
              | w :: ws => (c :: w) :: ws
              | [] => [[c]]
              end
            else [c] :: wordsOf rest
        | [] => [[c]]
        end
      else wordsOf rest
  end.

(** An ASCII character that is neither a letter nor a digit. *)
Definition isAsciiSymbol (c : Z) : bool :=
  isAscii c && negb (isSlugChar (asciiLower c)).

(** A word: one character of [a-z0-9] at least, and no other character. *)
Definition wordOk (w : jsstring) : Prop :=
  w <> [] /\ forallb isSlugChar w = true.

(** The characters of a string as a regular expression with the [u] flag
    reads them: a high surrogate followed by a low surrogate is one
    character, any other code unit is a character by itself. *)
Fixpoint characters (s : jsstring) : list jsstring :=
  match s with
  | [] => []
  | c :: rest =>
      match rest with
      | d :: rest' =>
          if isHighSurrogate c && isLowSurrogate d then
            [c; d] :: characters rest'
          else [c] :: characters rest
      | [] => [[c]]
      end
  end.

(** The code point of a character. *)
Definition pointOf (ch : jsstring) : Z :=
  match ch with
  | [hi; lo] => codePoint hi lo
  | c :: _ => c
  | [] => 0
  end.

(** A string without its characters of the class [\p{Diacritic}]: what
    stripping the diacritics means, said without the code. *)
Definition withoutDiacritics (U : UnicodeData) (s : jsstring) : jsstring :=
  List.concat
    (filter (fun ch => negb (isDiacritic U (pointOf ch))) (characters s)).

(** *** Runs of the handlers *)

(** The events that a click adds to the log. *)
Definition eventsSince (w w' : World) : list Event :=
  skipn (List.length (log w)) (log w').

(** The five result cells of a state. *)
Definition results (s : State.t) :=
  (State.outline s, State.seo s, State.scriptBlocks s,
   State.videoPrompts s, State.thumbTextIdeas s).

(** The block that the script loop makes of an outline item and the text
    returned for it. *)
Definition blockOf (item : OutlineItem.t) (b : ScriptBlock.t) : Prop :=
  ScriptBlock.index b = OutlineItem.index item + 1
  /\ ScriptBlock.chapter b = OutlineItem.title item
  /\ ScriptBlock.chars b = lengthOf (ScriptBlock.text b).

(** Every block of the state counts the characters of its own text. *)
Definition blocksOk (s : State.t) : Prop :=
  Forall (fun b => ScriptBlock.chars b = lengthOf (ScriptBlock.text b))
         (State.scriptBlocks s).






(** The precondition of the wrapper with the key manager. *)
Definition gateFails (s : State.t) : bool :=
  isEmpty (State.bookTitle s)
  || (startsWith (State.selectedModel s) (lit "gpt") && isEmpty (State.apiKeyOpenAI s)).


(** The events of the bodies of the outline, SEO and prompt handlers:
    requests and writes to their own result cells. *)
Definition plainEvent (e : Event) : Prop :=
  match e with
  | Called _ => True
  | Wrote Cell.outline _ | Wrote Cell.seo _
  | Wrote Cell.videoPrompts _ | Wrote Cell.thumbTextIdeas _ => True
  | _ => False
  end.

(** A write to the script-block cell leaves a list whose blocks all count
    the characters of their own text. *)
Definition blocksWritten (e : Event) : Prop :=
  match e with
  | Wrote Cell.scriptBlocks s => blocksOk s
  | _ => True
  end.

(** The states that a session can reach: clicks on the four buttons,
    whatever the service answers, and edits of the input fields, which
    leave the results, the busy flags and the message alone. *)
Inductive reachable : World -> Prop :=
| reach_initial : reachable (mkWorld State.initial [])
| reach_click svc k w : reachable w -> reachable (App.click svc k w)
| reach_edit w s :
    reachable w ->
    results s = results (store w) ->
    State.loading s = State.loading (store w) ->
    State.error s = State.error (store w) ->
    reachable (mkWorld s (log w)).


(** *** World transformers

    What the wrapper and the bodies do to the world, step by step. *)

(** The world after a setter call, and after an event that changes no
    state. *)
Definition wrote (cell : Cell.t) (f : State.t -> State.t) (w : World) : World :=
  mkWorld (f (store w)) (log w ++ [Wrote cell (f (store w))]).

Definition logged (e : Event) (w : World) : World :=
  mkWorld (store w) (log w ++ [e]).

(** The world in which the body of an operation starts, the world in
    which the operation ends, and the effect of the [catch] clause. *)
Definition begin (k : Key.t) (w : World) : World :=
  wrote Cell.loading (State.setLoading (LoadingStates.set k true))
    (wrote Cell.error (State.setError (fun _ => None)) w).

Definition finish (k : Key.t) (w : World) : World :=
  wrote Cell.loading (State.setLoading (LoadingStates.set k false)) w.

Definition caught (k : Key.t) (e : Exn) (w : World) : World :=
  wrote Cell.error (State.setError (fun _ => Some (failureMessage k e)))
    (logged (ConsoleError k e) w).

(** The events of the script loop over [items] when the texts received
    make [blocks]. *)
Fixpoint growthEvents (title : jsstring) (target : number) (extra : list jsstring)
    (s : State.t) (items : list OutlineItem.t) (blocks : list ScriptBlock.t)
  : list Event :=
  match items, blocks with
  | item :: items', b :: blocks' =>
      let s' := State.setScriptBlocks (fun prev => prev ++ [b]) s in
      Called (generateScriptBlock item title target extra)
        :: Wrote Cell.scriptBlocks s'
        :: growthEvents title target extra s' items' blocks'
  | _, _ => []
  end.

Definition cleared (w : World) : World :=
  wrote Cell.scriptBlocks (State.setScriptBlocks (fun _ => [])) w.

Definition outlineRequest (c : State.t) : Request :=
  generateOutline (State.bookTitle c) (State.chaptersCount c)
                  (State.durationMin c) [].

Definition targetFor (c : State.t) (cur : list OutlineItem.t) : number :=
  roundDiv (App.totalCharsTarget c) (Z.of_nat (List.length cur)).

(** *** Reading the CSV text *)

(** Reading a quoted field back from the front of a text: the field and
    the text that follows its closing quote.  [readQuoted] starts after
    the opening quote; a pair of quotes stands for one quote of the
    field. *)
Fixpoint readQuoted (s : jsstring) : option (jsstring * jsstring) :=
  match s with
  | [] => None
  | ch :: rest =>
      if ch =? dquote then
        match rest with
        | d :: rest' =>
            if d =? dquote then
              match readQuoted rest' with
              | Some (field, after) => Some (dquote :: field, after)
              | None => None
              end
            else Some ([], rest)
        | [] => Some ([], [])
        end
      else
        match readQuoted rest with
        | Some (field, after) => Some (ch :: field, after)
        | None => None
        end
  end.

Definition readField (s : jsstring) : option (jsstring * jsstring) :=
  match s with
  | ch :: rest => if ch =? dquote then readQuoted rest else None
  | [] => None
  end.

(** The rendering in the words of the specification: every field between
    double quotes with its own double quotes doubled, the fields of a row
    separated by commas, the rows separated by CR LF, after the byte-order
    mark. *)
Definition separatedBy (sep : jsstring) (parts : list jsstring) : jsstring :=
  match parts with
  | [] => []
  | p :: rest =>
      p ++ List.flat_map (fun q => sep ++ q) rest
  end.

Definition quotedSpec (v : jsstring) : jsstring :=
  [dquote]
  ++ List.flat_map (fun ch => if ch =? dquote then [dquote; dquote] else [ch]) v
  ++ [dquote].

Definition csvSpec (rows : list (list jsstring)) : jsstring :=
  BOM :: separatedBy [CR; LF]
           (List.map (fun row => separatedBy [comma] (List.map quotedSpec row)) rows).

(** *** Fixtures for the examples *)

Definition demoRaw : list RawOutlineItem.t :=
  [ RawOutlineItem.make (lit "Hook") (lit "Open") [lit "a"; lit "b"; lit "c"];
    RawOutlineItem.make (lit "Intro") (lit "Point of view") [lit "d"; lit "e"; lit "f"] ].

Definition demoSEO : SEOResult.t :=
  SEOResult.make [lit "T1"] [lit "#h"] [lit "k"] (lit "D").

(** A service that fulfils every request. *)
Definition demoService : Service :=
  {| replyOutline := fun _ _ => inr demoRaw;
     replySEO := fun _ _ => inr demoSEO;
     replyScriptBlock := fun _ _ => inr (lit "Xin chào");
     replyVideoPrompts := fun _ _ => inr [lit "p1"; lit "p2"];
     replyThumbIdeas := fun _ _ => inr [lit "t1"];
     thumbsRejectFirst := fun _ => false |}.

(** A service whose script-block and thumbnail functions reject. *)
Definition flakyService : Service :=
  {| replyOutline := fun _ _ => inr demoRaw;
     replySEO := fun _ _ => inr demoSEO;
     replyScriptBlock := fun _ _ => inl (ErrorObject (lit "503"));
     replyVideoPrompts := fun _ _ => inr [lit "p1"; lit "p2"];
     replyThumbIdeas := fun _ _ => inl (ErrorObject (lit "503"));
     thumbsRejectFirst := fun _ => false |}.

(** The initial state with a title typed in. *)
Definition titled : State.t :=
  State.make (lit "Sapiens") (lit "9:16") 240 12 (lit "gemini-3-pro-preview")
             [] [] [] None [] [] [] INITIAL_LOADING_STATES None.

(** The same, with results of earlier runs. *)
Definition worked : State.t :=
  State.make (lit "Sapiens") (lit "9:16") 240 12 (lit "gemini-3-pro-preview")
             [] []
             (indexFrom 0 demoRaw) (Some demoSEO)
             [ScriptBlock.make 1 (lit "Hook") (lit "old") 3]
             [lit "p0"] [lit "t0"] INITIAL_LOADING_STATES None.

(** The state [worked] after a text that does not parse, such as [.5], was
    typed into the duration field: [parseInt] gives [NaN], which [clamp]
    lets through, and the field stores it. *)
Definition unparsed : State.t :=
  State.make (lit "Sapiens") (lit "9:16") NaN 12 (lit "gemini-3-pro-preview")
             [] []
             (indexFrom 0 demoRaw) (Some demoSEO)
             [ScriptBlock.make 1 (lit "Hook") (lit "old") 3]
             [lit "p0"] [lit "t0"] INITIAL_LOADING_STATES None.

(** A state in which a ChatGPT model is selected and both keys are set. *)
Definition withOpenAI : State.t :=
  State.make (lit "Sapiens") (lit "9:16") 240 12 (lit "gpt-5.2-pro")
             (lit "gemini-key") (lit "openai-key")
             [] None [] [] [] INITIAL_LOADING_STATES None.

(** The state [worked] with the message of an earlier failure showing. *)
Definition afterFailure : State.t :=
  State.setError (fun _ => Some (failureMessage Key.seo (Thrown (lit "offline"))))
    worked.

(** *** What a computation leaves alone, and what it logs *)

(** [m] leaves the view [f] of the state as it was. *)
Definition keeps {A X} (f : State.t -> X) (m : Async A) : Prop :=
  forall w, f (store (snd (m w))) = f (store w).

(** [m] only adds to the log, and only events that satisfy [P]. *)
Definition emits {A} (P : Event -> Prop) (m : Async A) : Prop :=
  forall w, exists evs, log (snd (m w)) = log w ++ evs /\ Forall P evs.

(** The cells that the user edits: the inputs of the generation and the
    settings of the key manager. *)
Definition inputs (s : State.t) :=
  (State.bookTitle s, State.frameRatio s, State.durationMin s,
   State.chaptersCount s, State.selectedModel s, State.apiKeyGemini s,
   State.apiKeyOpenAI s).

(** The title and the trailing arguments of a request. *)
Definition titleOf (r : Request) : jsstring :=
  match r with
  | generateOutline t _ _ _ | generateSEO t _ _ | generateScriptBlock _ t _ _
  | generateVideoPrompts t _ _ | generateThumbIdeas t _ _ => t
  end.

Definition extraOf (r : Request) : list jsstring :=
  match r with
  | generateOutline _ _ _ x | generateSEO _ _ x | generateScriptBlock _ _ _ x
  | generateVideoPrompts _ _ x | generateThumbIdeas _ _ x => x
  end.

(** A request made on behalf of the title [t] with the trailing arguments
    [x]; the bodies log nothing but requests and writes. *)
Definition requestFor (t : jsstring) (x : list jsstring) (e : Event) : Prop :=
  match e with
  | Called r => titleOf r = t /\ extraOf r = x
  | Wrote _ _ => True
  | ConsoleError _ _ => False
  end.

(* ================================================================= *)
(** ** More of the component and of the service *)

(** *** The duration in the thumbnail prompt ([generateThumbIdeas]) *)

(** [s.padStart(n, fill)] for a fill of one character. *)
Definition padStart (n : nat) (fill : Z) (s : jsstring) : jsstring :=
  repeat fill (n - List.length s) ++ s.

(** [String(n)], also what a template string makes of a number.  The
    integers are written in plain decimal digits, as JavaScript writes
    them below [10^21]. *)
Definition toString (n : number) : jsstring :=
  match n with
  | Int z => ofInt z
  | NaN => lit "NaN"
  | Infinity false => lit "Infinity"
  | Infinity true => lit "-Infinity"
  end.

(** [Math.floor(n / d)] and [n % d] for a positive integer constant [d]:
    [/] followed by [Math.floor] rounds down, [%] has the sign of the
    dividend; [NaN] stays [NaN], an infinity stays infinite under the
    division and has no remainder. *)
Definition floorDiv (n : number) (d : Z) : number :=
  match n with
  | Int z => Int (z / d)
  | NaN => NaN
  | Infinity negative => Infinity negative
  end.

Definition remainder (n : number) (d : Z) : number :=
  match n with
  | Int z => Int (Z.rem z d)
  | _ => NaN
  end.

(** The template string
    [Math.floor(durationMin / 60)] H [(durationMin % 60).toString().padStart(2, 0)] M *)
Definition durationStr (durationMin : number) : jsstring :=
  toString (floorDiv durationMin 60) ++ lit "H"
  ++ padStart 2 48 (toString (remainder durationMin 60)) ++ lit "M".

(** *** The data URL of an uploaded file ([fileToBase64]) *)

(** [s.split(sep)] for a separator of one character: the pieces between
    the separators, at least one piece. *)
Fixpoint split (sep : Z) (s : jsstring) : list jsstring :=
  match s with
  | [] => [[]]
  | c :: rest =>
      if c =? sep then [] :: split sep rest
      else match split sep rest with
           | piece :: pieces => (c :: piece) :: pieces
           | [] => [[c]]
           end
  end.

(** What the promise of [fileToBase64] resolves with when the reader has
    read [result]: [result.split(',')[1]], [None] standing for
    [undefined]. *)
Definition fileToBase64 (result : jsstring) : option jsstring :=
  nth_error (split comma result) 1.

(** *** The number fields *)

(** A JavaScript number that is an integer or [NaN] ([None]): what a
    number field can store.  The state holds it as a [number], [Some z]
    as [Int z] and [None] as [NaN]. *)
Definition jsnum := option Z.

(** [Math.min] and [Math.max]: [NaN] as soon as an argument is [NaN]. *)
Definition mathMin (a b : jsnum) : jsnum :=
  match a, b with
  | Some x, Some y => Some (Z.min x y)
  | _, _ => None
  end.

Definition mathMax (a b : jsnum) : jsnum :=
  match a, b with
  | Some x, Some y => Some (Z.max x y)
  | _, _ => None
  end.

Definition clamp (n : jsnum) (lo hi : Z) : jsnum :=
  mathMax (Some lo) (mathMin (Some hi) n).

Section NumberFields.

(** [parseInt] belongs to the runtime: it gives an integer or [NaN]. *)
Variable parseInt : jsstring -> jsnum.

(** What the [onChange] handlers of the two number fields hand to
    [setDurationMin] and to [setChaptersCount] for the text [value] of
    the field ([e.target.value || '0']). *)
Definition onDurationChange (value : jsstring) : jsnum :=
  clamp (parseInt (if isEmpty value then lit "0" else value)) 5 240.

Definition onChaptersChange (value : jsstring) : jsnum :=
  clamp (parseInt (if isEmpty value then lit "0" else value)) 6 24.

End NumberFields.

(** *** The keys in the storage of the browser *)

Fixpoint eqbString (a b : jsstring) : bool :=
  match a, b with
  | [], [] => true
  | x :: a', y :: b' => (x =? y) && eqbString a' b'
  | _, _ => false
  end.

(** [localStorage]: keys with their values. *)
Definition Storage := list (jsstring * jsstring).

(** [localStorage.getItem(key)], [None] standing for [null]. *)
Fixpoint getItem (key : jsstring) (st : Storage) : option jsstring :=
  match st with
  | [] => None
  | (k, v) :: rest => if eqbString key k then Some v else getItem key rest
  end.

(** [localStorage.setItem(key, value)] *)
Fixpoint setItem (key value : jsstring) (st : Storage) : Storage :=
  match st with
  | [] => [(key, value)]
  | (k, v) :: rest =>
      if eqbString key k then (k, value) :: rest
      else (k, v) :: setItem key value rest
  end.

Definition geminiKeyName : jsstring := lit "nd_gemini_api_key".
Definition openAIKeyName : jsstring := lit "nd_openai_api_key".

Definition setApiKeyGemini (v : jsstring) (s : State.t) : State.t :=
  State.make (State.bookTitle s) (State.frameRatio s) (State.durationMin s)
    (State.chaptersCount s) (State.selectedModel s) v (State.apiKeyOpenAI s)
    (State.outline s) (State.seo s) (State.scriptBlocks s)
    (State.videoPrompts s) (State.thumbTextIdeas s) (State.loading s)
    (State.error s).

Definition setApiKeyOpenAI (v : jsstring) (s : State.t) : State.t :=
  State.make (State.bookTitle s) (State.frameRatio s) (State.durationMin s)
    (State.chaptersCount s) (State.selectedModel s) (State.apiKeyGemini s) v
    (State.outline s) (State.seo s) (State.scriptBlocks s)
    (State.videoPrompts s) (State.thumbTextIdeas s) (State.loading s)
    (State.error s).

(** The effect that runs when the component is mounted: a stored key that
    is not empty replaces the key of the state. *)
Definition loadKeys (st : Storage) (s : State.t) : State.t :=
  let storedGeminiKey := getItem geminiKeyName st in
  let storedOpenAIKey := getItem openAIKeyName st in
  let s1 := match storedGeminiKey with
            | Some (c :: k) => setApiKeyGemini (c :: k) s
            | _ => s
            end in
  match storedOpenAIKey with
  | Some (c :: k) => setApiKeyOpenAI (c :: k) s1
  | _ => s1
  end.

(** [handleSaveKeys]: both keys go to the storage, an alert is shown and
    the key manager is closed. *)
Record Saved := mkSaved {
  storage : Storage; alerted : jsstring; showApiManager : bool }.

Definition handleSaveKeys (c : State.t) (st : Storage) : Saved :=
  mkSaved
    (setItem openAIKeyName (State.apiKeyOpenAI c)
       (setItem geminiKeyName (State.apiKeyGemini c) st))
    (lit "Đã lưu API Key thành công vào trình duyệt!")
    false.

(** *** The total under the script blocks *)

(** [scriptBlocks.reduce((s, x) => s + x.chars, 0)] *)
Definition totalChars (blocks : list ScriptBlock.t) : Z :=
  fold_left (fun s x => s + ScriptBlock.chars x) blocks 0.

(** *** Reading numbers and CSV text back *)

Definition isDigit (c : Z) : bool := inRange 48 57 c.

(** The number written by a string of decimal digits, and by such a string
    after a minus sign. *)
Definition decimalValue (s : jsstring) : Z :=
  fold_left (fun a c => 10 * a + (c - 48)) s 0.

Definition readInt (s : jsstring) : Z :=
  match s with
  | c :: rest => if c =? hyphen then - decimalValue rest else decimalValue s
  | [] => 0
  end.

(** A reader of CSV text with every field between double quotes, the rows
    separated by CR LF: where the reader is, the rows read so far, the
    fields read so far in the current row and the characters read so far
    in the current field, all three latest first. *)
Inductive CsvMode := AtField | InQuotes | AfterQuote | AfterCR.

Fixpoint parseFrom (mode : CsvMode) (rowsRev : list (list jsstring))
    (rowRev : list jsstring) (fieldRev : jsstring) (s : jsstring)
  : option (list (list jsstring)) :=
  match s with
  | [] =>
      match mode with
      | AfterQuote => Some (rev (rev (rev fieldRev :: rowRev) :: rowsRev))
      | AtField =>
          match rowRev, rowsRev with
          | [], [] => Some []
          | _, _ => None
          end
      | _ => None
      end
  | c :: rest =>
      match mode with
      | AtField =>
          if c =? dquote then parseFrom InQuotes rowsRev rowRev [] rest else None
      | InQuotes =>
          if c =? dquote then parseFrom AfterQuote rowsRev rowRev fieldRev rest
          else parseFrom InQuotes rowsRev rowRev (c :: fieldRev) rest
      | AfterQuote =>
          if c =? dquote then
            parseFrom InQuotes rowsRev rowRev (dquote :: fieldRev) rest
          else if c =? comma then
            parseFrom AtField rowsRev (rev fieldRev :: rowRev) [] rest
          else if c =? CR then
            parseFrom AfterCR (rev (rev fieldRev :: rowRev) :: rowsRev) [] [] rest
          else None
      | AfterCR =>
          if c =? LF then parseFrom AtField rowsRev rowRev [] rest else None
      end
  end.

(** The rows of a text that starts with the byte-order mark. *)
Definition parseCSV (text : jsstring) : option (list (list jsstring)) :=
  match text with
  | c :: rest => if c =? BOM then parseFrom AtField [] [] [] rest else None
  | [] => None
  end.

(** A [parseInt] for the examples: decimal digits only. *)
Definition digitsOnly (s : jsstring) : jsnum :=
  if forallb isDigit s && negb (isEmpty s) then Some (decimalValue s) else None.

(** *** The two revisions side by side *)

(** A request with its trailing arguments replaced. *)
Definition withExtra (x : list jsstring) (r : Request) : Request :=
  match r with
  | generateOutline t c d _ => generateOutline t c d x
  | generateSEO t d _ => generateSEO t d x
  | generateScriptBlock i t n _ => generateScriptBlock i t n x
  | generateVideoPrompts t f _ => generateVideoPrompts t f x
  | generateThumbIdeas t d _ => generateThumbIdeas t d x
  end.

(** The service [svc] as the plain revision would meet it, if the
    trailing arguments [x] were added to each of its requests, after the
    requests [h0]. *)
Definition seenWith (x : list jsstring) (h0 : list Request) (svc : Service)
  : Service :=
  {| replyOutline := fun h r =>
       replyOutline svc (h0 ++ List.map (withExtra x) h) (withExtra x r);
     replySEO := fun h r =>
       replySEO svc (h0 ++ List.map (withExtra x) h) (withExtra x r);
     replyScriptBlock := fun h r =>
       replyScriptBlock svc (h0 ++ List.map (withExtra x) h) (withExtra x r);
     replyVideoPrompts := fun h r =>
       replyVideoPrompts svc (h0 ++ List.map (withExtra x) h) (withExtra x r);
     replyThumbIdeas := fun h r =>
       replyThumbIdeas svc (h0 ++ List.map (withExtra x) h) (withExtra x r);
     thumbsRejectFirst := fun h =>
       thumbsRejectFirst svc (h0 ++ List.map (withExtra x) h) |}.

(** A world of the plain revision and a world of the revision with the
    key manager that go together: the same state, and the same requests
    up to the trailing arguments. *)
Definition together (x : list jsstring) (h0 : list Request) (wp wk : World)
  : Prop :=
  store wp = store wk
  /\ calls (log wk) = h0 ++ List.map (withExtra x) (calls (log wp)).

(** Two computations that go together: from worlds that go together they
    give the same outcome and worlds that go together. *)
Definition sim {A} (x : list jsstring) (h0 : list Request)
    (mp mk : Async A) : Prop :=
  forall wp wk, together x h0 wp wk ->
    fst (mp wp) = fst (mk wk) /\ together x h0 (snd (mp wp)) (snd (mk wk)).

(** The stored outline is numbered from 0, and the script blocks from 1. *)
Definition outlineNumbered (s : State.t) : Prop :=
  List.map OutlineItem.index (State.outline s)
  = List.map Z.of_nat (seq 0 (List.length (State.outline s))).

Definition blocksNumbered (s : State.t) : Prop :=
  List.map ScriptBlock.index (State.scriptBlocks s)
  = List.map Z.of_nat (seq 1 (List.length (State.scriptBlocks s))).

(** *** The names of the exported files *)

(** A character of a portable file name: a lowercase ASCII letter, a digit,
    a hyphen, an underscore or a dot. *)
Definition isFileNameChar (c : Z) : bool :=
  isSlugChar c || (c =? hyphen) || (c =? 95) || (c =? 46).

(* ================================================================= *)
(** * Properties *)

(** ** The slug *)

Section SlugFacts.

Variable U : UnicodeData.

Import geminiService.

Lemma slugChar_not_hyphen c : isSlugChar c = true -> (c =? hyphen) = false.
Proof.
  unfold isSlugChar, inRange, hyphen; intro H.
  apply Z.eqb_neq; intro E; subst c; discriminate H.
Qed.

Lemma replaceRuns_slug b c rest :
  isSlugChar c = true -> replaceRuns b (c :: rest) = c :: replaceRuns false rest.
Proof. intro H; simpl; now rewrite H. Qed.

Lemma replaceRuns_other c rest :
  isSlugChar c = false -> replaceRuns true (c :: rest) = replaceRuns true rest.
Proof. intro H; simpl; now rewrite H. Qed.

Lemma replaceRuns_false_true s :
  replaceRuns false s
  = match s with
    | c :: _ => if isSlugChar c then replaceRuns true s
                else hyphen :: replaceRuns true s
    | [] => []
    end.
Proof.
  destruct s as [|c rest]; [reflexivity|].
  simpl; destruct (isSlugChar c); reflexivity.
Qed.

Lemma wordsOf_slug_head c rest :
  isSlugChar c = true -> wordsOf (c :: rest) <> [].
Proof.
  intro H; simpl; rewrite H.
  destruct rest as [|d rest']; [discriminate|].
  destruct (isSlugChar d); [destruct (wordsOf (d :: rest'))|]; discriminate.
Qed.

Lemma replaceRuns_nil_iff s : replaceRuns true s = [] <-> wordsOf s = [].
Proof.
  induction s as [|c rest IH]; [tauto|].
  destruct (isSlugChar c) eqn:Hc.
  - rewrite replaceRuns_slug by assumption.
    split; [discriminate|]. intro H; now apply wordsOf_slug_head in H.
  - rewrite replaceRuns_other by assumption.
    cbn [wordsOf]; rewrite Hc; exact IH.
Qed.

Lemma join_cons_word c w ws :
  join [hyphen] ((c :: w) :: ws) = c :: join [hyphen] (w :: ws).
Proof. destruct ws; reflexivity. Qed.

Lemma dropTrailingHyphen_cons c s :
  s <> [] -> dropTrailingHyphen (c :: s) = c :: dropTrailingHyphen s.
Proof. destruct s; [congruence | reflexivity]. Qed.

(** Replacing the runs and trimming the end leaves the words of the
    string joined by hyphens. *)
Lemma dropTrailing_replaceRuns s :
  dropTrailingHyphen (replaceRuns true s) = join [hyphen] (wordsOf s).
Proof.
  induction s as [|c rest IH]; [reflexivity|].
  destruct (isSlugChar c) eqn:Hc.
  2:{ rewrite replaceRuns_other by assumption.
      cbn [wordsOf]; rewrite Hc; exact IH. }
  rewrite replaceRuns_slug by assumption.
  cbn [wordsOf]; rewrite Hc.
  destruct rest as [|d rest'].
  { simpl. now rewrite (slugChar_not_hyphen _ Hc). }
  rewrite replaceRuns_false_true.
  destruct (isSlugChar d) eqn:Hd.
  - rewrite dropTrailingHyphen_cons
      by (rewrite replaceRuns_slug by assumption; discriminate).
    rewrite IH.
    destruct (wordsOf (d :: rest')) as [|w ws] eqn:Hw.
    + now apply wordsOf_slug_head in Hw.
    + now rewrite join_cons_word.
  - destruct (wordsOf (d :: rest')) as [|w ws] eqn:Hw.
    + apply replaceRuns_nil_iff in Hw. rewrite Hw. reflexivity.
    + assert (Hne : replaceRuns true (d :: rest') <> []).
      { intro E. apply replaceRuns_nil_iff in E. congruence. }
      rewrite dropTrailingHyphen_cons by discriminate.
      rewrite dropTrailingHyphen_cons by assumption.
      rewrite IH. reflexivity.
Qed.

Lemma trim_replaceRuns s :
  trimHyphens (replaceRuns false s) = join [hyphen] (wordsOf s).
Proof.
  unfold trimHyphens. rewrite replaceRuns_false_true.
  destruct s as [|c rest]; [reflexivity|].
  destruct (isSlugChar c) eqn:Hc.
  - rewrite replaceRuns_slug by assumption.
    cbn [dropLeadingHyphen]. rewrite (slugChar_not_hyphen _ Hc).
    rewrite <- (replaceRuns_slug true _ rest Hc).
    apply dropTrailing_replaceRuns.
  - cbn [dropLeadingHyphen]. rewrite Z.eqb_refl.
    apply dropTrailing_replaceRuns.
Qed.

Lemma wordsOf_ok s : Forall wordOk (wordsOf s).
Proof.
  induction s as [|c rest IH]; [constructor|].
  cbn [wordsOf]. destruct (isSlugChar c) eqn:Hc; [|exact IH].
  assert (Hone : wordOk [c]) by (split; [discriminate | simpl; now rewrite Hc]).
  destruct rest as [|d rest']; [now constructor|].
  destruct (isSlugChar d) eqn:Hd.
  - destruct (wordsOf (d :: rest')) as [|w ws]; [now constructor|].
    inversion IH as [|? ? [Hw1 Hw2] Hws]; subst.
    constructor; [|assumption].
    split; [discriminate | simpl; now rewrite Hc, Hw2].
  - now constructor.
Qed.

(** The words hold the characters of [a-z0-9] of the string, in order. *)
Lemma wordsOf_concat s : List.concat (wordsOf s) = filter isSlugChar s.
Proof.
  induction s as [|c rest IH]; [reflexivity|].
  cbn [wordsOf filter]. destruct (isSlugChar c) eqn:Hc; [|exact IH].
  destruct rest as [|d rest']; [reflexivity|].
  destruct (isSlugChar d) eqn:Hd.
  - destruct (wordsOf (d :: rest')) as [|w ws] eqn:Hw.
    + now apply wordsOf_slug_head in Hw.
    + cbn [List.concat app] in *. now rewrite IH.
  - cbn [List.concat app]. now rewrite IH.
Qed.

Lemma join_words_head ws :
  Forall wordOk ws -> startsWithHyphen (join [hyphen] ws) = false.
Proof.
  intro H. destruct ws as [|w ws]; [reflexivity|].
  inversion H as [|? ? [Hne Hall] _]; subst.
  destruct w as [|c w]; [congruence|].
  rewrite join_cons_word. simpl in Hall |- *.
  apply andb_prop in Hall as [Hc _]. now apply slugChar_not_hyphen.
Qed.

Lemma join_words_last ws :
  Forall wordOk ws ->
  ws = [] \/ exists pre c, join [hyphen] ws = pre ++ [c] /\ isSlugChar c = true.
Proof.
  induction ws as [|w ws IH]; intro H; [now left|right].
  inversion H as [|? ? [Hne Hall] Hws]; subst.
  destruct ws as [|w' ws'].
  - destruct (exists_last Hne) as (pre & c & ->).
    exists pre, c; split; [reflexivity|].
    rewrite forallb_app in Hall. apply andb_prop in Hall as [_ Hc].
    simpl in Hc. now rewrite andb_true_r in Hc.
  - destruct (IH Hws) as [E | (pre & c & E & Hc)]; [discriminate|].
    exists (w ++ [hyphen] ++ pre), c; split; [|assumption].
    change (join [hyphen] (w :: w' :: ws'))
      with (w ++ [hyphen] ++ join [hyphen] (w' :: ws')).
    rewrite E. now rewrite <- !app_assoc.
Qed.

Lemma join_words_tail ws :
  Forall wordOk ws -> endsWithHyphen (join [hyphen] ws) = false.
Proof.
  intro H. destruct (join_words_last _ H) as [-> | (pre & c & E & Hc)];
    [reflexivity|].
  unfold endsWithHyphen. rewrite E, rev_app_distr. simpl.
  now apply slugChar_not_hyphen.
Qed.

Lemma join_words_chars ws :
  Forall wordOk ws ->
  forallb (fun c => isSlugChar c || (c =? hyphen)) (join [hyphen] ws) = true.
Proof.
  induction ws as [|w ws IH]; intro H; [reflexivity|].
  inversion H as [|? ? [_ Hall] Hws]; subst.
  assert (Hw : forallb (fun c => isSlugChar c || (c =? hyphen)) w = true).
  { rewrite forallb_forall in *. intros x Hx. now rewrite (Hall x Hx). }
  destruct ws as [|w' ws']; [exact Hw|].
  change (join [hyphen] (w :: w' :: ws'))
    with (w ++ [hyphen] ++ join [hyphen] (w' :: ws')).
  rewrite !forallb_app, Hw, (IH Hws). reflexivity.
Qed.

Lemma orDefault_nonempty s : s <> [] -> orDefault s = s.
Proof. destruct s; [congruence | reflexivity]. Qed.

Lemma stripDiacritics_ascii s :
  forallb isAscii s = true ->
  stripDiacritics U s = filter (fun c => negb (isDiacritic U c)) s.
Proof.
  induction s as [|c rest IH]; [reflexivity|].
  intro H. simpl in H. apply andb_prop in H as [Hc Hrest].
  assert (Hs : isHighSurrogate c = false).
  { unfold isAscii, isHighSurrogate, inRange in *. lia. }
  cbn [stripDiacritics filter]. rewrite Hs. cbn [andb].
  destruct rest as [|d rest'].
  - destruct (isDiacritic U c); reflexivity.
  - rewrite (IH Hrest). destruct (isDiacritic U c); reflexivity.
Qed.

Lemma wordsOf_no_slugChar s :
  forallb (fun c => negb (isSlugChar c)) s = true -> wordsOf s = [].
Proof.
  induction s as [|c rest IH]; [reflexivity|].
  simpl. intro H. apply andb_prop in H as [Hc Hrest].
  apply negb_true_iff in Hc. rewrite Hc. auto.
Qed.

Lemma slugify_words s :
  slugify U s = join [hyphen] (wordsOf (prepared U s)).
Proof. unfold slugify. apply trim_replaceRuns. Qed.

Lemma asciiLower_ascii c : isAscii c = true -> isAscii (asciiLower c) = true.
Proof.
  unfold asciiLower, isAscii, isUpperAZ, inRange.
  destruct ((65 <=? c) && (c <=? 90)) eqn:E; lia.
Qed.

(** What [prepared] is on a non-empty ASCII string. *)
Lemma prepared_ascii s :
  s <> [] -> forallb isAscii s = true ->
  prepared U s = filter (fun c => negb (isDiacritic U c)) (List.map asciiLower s).
Proof.
  intros Hne Hascii. unfold prepared.
  assert (Hlow : forallb isAscii (List.map asciiLower s) = true).
  { rewrite forallb_forall in *. intros x Hx.
    apply in_map_iff in Hx as (y & <- & Hy). apply asciiLower_ascii; auto. }
  rewrite orDefault_nonempty, toLowerCase_ascii, normalizeNFD_ascii by assumption.
  now apply stripDiacritics_ascii.
Qed.

Lemma slugify_symbols s :
  s <> [] -> forallb isAsciiSymbol s = true -> slugify U s = [].
Proof.
  intros Hne Hsym.
  assert (Hascii : forallb isAscii s = true).
  { rewrite forallb_forall in *. intros x Hx.
    specialize (Hsym x Hx). unfold isAsciiSymbol in Hsym.
    now apply andb_prop in Hsym as [? _]. }
  rewrite slugify_words, prepared_ascii by assumption.
  rewrite wordsOf_no_slugChar; [reflexivity|].
  rewrite forallb_forall in *. intros x Hx.
  apply filter_In in Hx as [Hx _].
  apply in_map_iff in Hx as (y & <- & Hy).
  specialize (Hsym y Hy). unfold isAsciiSymbol in Hsym.
  now apply andb_prop in Hsym as [_ ?].
Qed.

Lemma isDiacritic_slugChar c : isSlugChar c = true -> isDiacritic U c = false.
Proof.
  intro H. rewrite isDiacritic_ascii.
  - unfold isSlugChar, inRange in H. lia.
  - unfold isSlugChar, isAscii, inRange in *. lia.
Qed.

Lemma filter_slugChars s :
  forallb isSlugChar s = true ->
  filter (fun c => negb (isDiacritic U c)) s = s.
Proof.
  induction s as [|c rest IH]; [reflexivity|].
  simpl. intro H. apply andb_prop in H as [Hc Hrest].
  rewrite (isDiacritic_slugChar c Hc). simpl. now rewrite IH.
Qed.

Lemma slugify_default : slugify U [] = lit "ndgroup".
Proof.
  rewrite slugify_words. unfold prepared. cbn [orDefault].
  assert (Ha : forallb isAscii (lit "ndgroup") = true) by reflexivity.
  rewrite toLowerCase_ascii by exact Ha.
  change (List.map asciiLower (lit "ndgroup")) with (lit "ndgroup").
  rewrite normalizeNFD_ascii, stripDiacritics_ascii by exact Ha.
  rewrite filter_slugChars by reflexivity.
  reflexivity.
Qed.

End SlugFacts.

(** *** The Vietnamese fragment is Unicode data *)

Lemma assoc_below {A} (k lo : Z) (l : list (Z * A)) :
  k < lo -> forallb (fun p => lo <=? fst p) l = true -> Vietnamese.assoc k l = None.
Proof.
  intro Hk. induction l as [|[k' v] rest IH]; [reflexivity|].
  simpl. intro H. apply andb_prop in H as [Hk' Hrest].
  destruct (k =? k') eqn:E; [lia | auto].
Qed.

Lemma vietnamese_lower_ascii s :
  forallb isAscii s = true ->
  List.map Vietnamese.lower1 s = List.map asciiLower s.
Proof.
  intro H. apply map_ext_in. intros c Hc.
  rewrite forallb_forall in H. specialize (H c Hc).
  unfold Vietnamese.lower1, asciiLower.
  destruct (isUpperAZ c); [reflexivity|].
  rewrite (assoc_below c 128); [reflexivity | | reflexivity].
  unfold isAscii, inRange in H. lia.
Qed.

Lemma vietnamese_nfd_ascii s :
  forallb isAscii s = true -> List.flat_map Vietnamese.decompose s = s.
Proof.
  induction s as [|c rest IH]; [reflexivity|].
  simpl. intro H. apply andb_prop in H as [Hc Hrest].
  unfold Vietnamese.decompose at 1.
  rewrite (assoc_below c 128); [simpl; now rewrite IH | | reflexivity].
  unfold isAscii, inRange in Hc. lia.
Qed.

Lemma vietnamese_diacritic_ascii c :
  isAscii c = true -> Vietnamese.diacritic c = (c =? 94) || (c =? 96).
Proof. unfold isAscii, Vietnamese.diacritic, inRange. lia. Qed.

Definition vietnameseData : UnicodeData :=
  {| toLowerCase := List.map Vietnamese.lower1;
     normalizeNFD := List.flat_map Vietnamese.decompose;
     isDiacritic := Vietnamese.diacritic;
     toLowerCase_ascii := vietnamese_lower_ascii;
     normalizeNFD_ascii := vietnamese_nfd_ascii;
     isDiacritic_ascii := vietnamese_diacritic_ascii |}.

(** The code units of the title of the example, written out. *)
Lemma NhaGiaKim_units :
  lit "Nhà Giả Kim" = [78; 104; 224; 32; 71; 105; 7843; 32; 75; 105; 109].
Proof. reflexivity. Qed.

(** The recursion of [stripDiacritics] and of [characters], one step. *)
Lemma stripDiacritics_step (U : UnicodeData) c d rest :
  geminiService.stripDiacritics U (c :: d :: rest)
  = if isHighSurrogate c && isLowSurrogate d then
      if isDiacritic U (codePoint c d) then geminiService.stripDiacritics U rest
      else c :: d :: geminiService.stripDiacritics U rest
    else if isDiacritic U c then geminiService.stripDiacritics U (d :: rest)
    else c :: geminiService.stripDiacritics U (d :: rest).
Proof. reflexivity. Qed.

Lemma characters_step c d rest :
  characters (c :: d :: rest)
  = if isHighSurrogate c && isLowSurrogate d then [c; d] :: characters rest
    else [c] :: characters (d :: rest).
Proof. reflexivity. Qed.

(** [stripDiacritics] removes the characters of the class, and nothing
    else. *)
Lemma stripDiacritics_characters (U : UnicodeData) s :
  geminiService.stripDiacritics U s = withoutDiacritics U s.
Proof.
  unfold withoutDiacritics.
  assert (H : forall n s, (List.length s <= n)%nat ->
            geminiService.stripDiacritics U s
            = List.concat (filter (fun ch => negb (isDiacritic U (pointOf ch)))
                             (characters s))).
  { clear s. induction n as [|n IH]; intros [|c rest] Hlen; try reflexivity;
      [cbn [List.length] in Hlen; lia|].
    destruct rest as [|d rest].
    - cbn. destruct (isDiacritic U c); reflexivity.
    - rewrite stripDiacritics_step, characters_step.
      cbn [List.length] in Hlen.
      destruct (isHighSurrogate c && isLowSurrogate d).
      + cbn [filter pointOf].
        rewrite (IH rest) by lia.
        destruct (isDiacritic U (codePoint c d)); reflexivity.
      + cbn [filter pointOf].
        rewrite (IH (d :: rest)) by (cbn [List.length]; lia).
        destruct (isDiacritic U c); reflexivity. }
  now apply (H (List.length s)).
Qed.

Lemma characters_concat s : List.concat (characters s) = s.
Proof.
  assert (H : forall n s, (List.length s <= n)%nat ->
            List.concat (characters s) = s).
  { clear s. induction n as [|n IH]; intros [|c rest] Hlen; try reflexivity;
      [cbn [List.length] in Hlen; lia|].
    destruct rest as [|d rest]; [reflexivity|].
    rewrite characters_step. cbn [List.length] in Hlen.
    destruct (isHighSurrogate c && isLowSurrogate d); cbn [List.concat app].
    - now rewrite (IH rest) by lia.
    - now rewrite (IH (d :: rest)) by (cbn [List.length]; lia). }
  now apply (H (List.length s)).
Qed.

Lemma withoutDiacritics_units (U : UnicodeData) s :
  forallb (fun c => negb (isHighSurrogate c)) s = true ->
  withoutDiacritics U s = filter (fun c => negb (isDiacritic U c)) s.
Proof.
  unfold withoutDiacritics.
  induction s as [|c rest IH]; [reflexivity|].
  cbn [forallb]. intro H. apply andb_prop in H as [Hc Hrest].
  apply negb_true_iff in Hc.
  destruct rest as [|d rest].
  - cbn. destruct (isDiacritic U c); reflexivity.
  - rewrite characters_step, Hc. cbn [andb filter pointOf].
    specialize (IH Hrest).
    destruct (isDiacritic U c); cbn [negb List.concat app]; now rewrite IH.
Qed.

(** C9.  [slugify] works on the lower-cased, decomposed input (the default
    ["ndgroup"] standing in for the empty input) without its diacritics:
    without the characters of the class Diacritic, a surrogate pair being
    one character, and with every other character in place.  Its result
    is the maximal runs of [a-z0-9] of that string (non-empty, and holding
    all its characters of [a-z0-9] in order) joined by single hyphens.
    Hence it is made of [a-z0-9] and hyphens only and never begins or ends
    with a hyphen.  The empty string gives ["ndgroup"].  ["Nhà Giả Kim"]
    gives ["nha-gia-kim"], and ["Tiếng Việt"], whose marks stand inside
    the words, gives ["tieng-viet"], as soon as the runtime lower-cases
    and decomposes these titles as Unicode prescribes. *)
Theorem slugify_spec (U : UnicodeData) :
  (forall s,
     geminiService.slugify U s
     = join [hyphen]
         (wordsOf (withoutDiacritics U
            (normalizeNFD U (toLowerCase U (if isEmpty s then lit "ndgroup" else s))))))
  /\ (forall s,
        List.concat (characters s) = s
        /\ (forallb (fun c => negb (isHighSurrogate c)) s = true ->
            withoutDiacritics U s = filter (fun c => negb (isDiacritic U c)) s))
  /\ (forall s,
        Forall (fun w => w <> [] /\ forallb isSlugChar w = true) (wordsOf s)
        /\ List.concat (wordsOf s) = filter isSlugChar s)
  /\ (forall s,
        startsWithHyphen (geminiService.slugify U s) = false
        /\ endsWithHyphen (geminiService.slugify U s) = false
        /\ forallb (fun c => isSlugChar c || (c =? hyphen))
                   (geminiService.slugify U s) = true)
  /\ geminiService.slugify U [] = lit "ndgroup"
  /\ (toLowerCase U (lit "Nhà Giả Kim") = lit "nhà giả kim" ->
      normalizeNFD U (lit "nhà giả kim")
        = [110; 104; 97; 768; 32; 103; 105; 97; 777; 32; 107; 105; 109] ->
      isDiacritic U 768 = true -> isDiacritic U 777 = true ->
      geminiService.slugify U (lit "Nhà Giả Kim") = lit "nha-gia-kim")
  /\ (toLowerCase U (lit "Tiếng Việt") = lit "tiếng việt" ->
      normalizeNFD U (lit "tiếng việt")
        = [116; 105; 101; 770; 769; 110; 103; 32;
           118; 105; 101; 803; 770; 116] ->
      isDiacritic U 769 = true -> isDiacritic U 770 = true ->
      isDiacritic U 803 = true ->
      geminiService.slugify U (lit "Tiếng Việt") = lit "tieng-viet").
Proof.
  assert (H32 : isDiacritic U 32 = false)
    by (now rewrite isDiacritic_ascii).
  assert (Hs : forall c, isSlugChar c = true -> isDiacritic U c = false)
    by apply isDiacritic_slugChar.
  split; [|split; [|split; [|split; [|split; [|split]]]]].
  - intro s. rewrite slugify_words. unfold geminiService.prepared.
    rewrite stripDiacritics_characters.
    destruct s; reflexivity.
  - intro s. split; [apply characters_concat | apply withoutDiacritics_units].
  - intro s. split; [apply wordsOf_ok | apply wordsOf_concat].
  - intro s. rewrite slugify_words.
    pose proof (wordsOf_ok (geminiService.prepared U s)) as H.
    repeat split.
    + now apply join_words_head.
    + now apply join_words_tail.
    + now apply join_words_chars.
  - apply slugify_default.
  - intros Hlow Hnfd H768 H777.
    rewrite slugify_words. unfold geminiService.prepared.
    change (geminiService.orDefault (lit "Nhà Giả Kim")) with (lit "Nhà Giả Kim").
    rewrite Hlow, Hnfd.
    cbn [geminiService.stripDiacritics isHighSurrogate isLowSurrogate inRange
         Z.leb Z.compare Pos.compare Pos.compare_cont andb].
    rewrite H768, H777, H32, !Hs by reflexivity.
    reflexivity.
  - intros Hlow Hnfd H769 H770 H803.
    rewrite slugify_words. unfold geminiService.prepared.
    change (geminiService.orDefault (lit "Tiếng Việt")) with (lit "Tiếng Việt").
    rewrite Hlow, Hnfd.
    cbn [geminiService.stripDiacritics isHighSurrogate isLowSurrogate inRange
         Z.leb Z.compare Pos.compare Pos.compare_cont andb].
    rewrite H769, H770, H803, H32, !Hs by reflexivity.
    reflexivity.
Qed.

Lemma slugify_spec_witness :
  geminiService.slugify vietnameseData (lit "Nhà Giả Kim") = lit "nha-gia-kim"
  /\ geminiService.slugify vietnameseData (lit "Tiếng Việt") = lit "tieng-viet".
Proof.
  split.
  - apply (proj1 (proj2 (proj2 (proj2 (proj2 (proj2
             (slugify_spec vietnameseData)))))));
      reflexivity.
  - apply (proj2 (proj2 (proj2 (proj2 (proj2 (proj2
             (slugify_spec vietnameseData)))))));
      reflexivity.
Defined.

(** C10.  The default only replaces the empty input.  A non-empty input
    that leaves no character of [a-z0-9] once lower-cased, decomposed and
    stripped of its diacritics gives the empty slug; so does in particular
    every non-empty input made of ASCII characters other than letters and
    digits, such as ["!!!"].  The script export is then named
    ["kichban_.csv"]. *)
Theorem slugify_symbols_only (U : UnicodeData) :
  (forall s, s <> [] ->
     forallb (fun c => negb (isSlugChar c))
       (geminiService.stripDiacritics U (normalizeNFD U (toLowerCase U s))) = true ->
     geminiService.slugify U s = [])
  /\ (forall s, s <> [] -> forallb isAsciiSymbol s = true ->
        geminiService.slugify U s = []
        /\ geminiService.slugify U s <> geminiService.slugify U [])
  /\ geminiService.slugify U (lit "!!!") = []
  /\ (forall c, State.bookTitle c <> [] ->
        forallb isAsciiSymbol (State.bookTitle c) = true ->
        State.scriptBlocks c <> [] ->
        exists d, App.exportScriptCSV U c = Some d
                  /\ filename d = lit "kichban_.csv").
Proof.
  split; [|split; [|split]].
  - intros s Hne H. rewrite slugify_words. unfold geminiService.prepared.
    rewrite orDefault_nonempty by assumption.
    now rewrite wordsOf_no_slugChar.
  - intros s Hne H. rewrite slugify_symbols by assumption.
    split; [reflexivity|]. rewrite slugify_default. discriminate.
  - apply slugify_symbols; [discriminate | reflexivity].
  - intros c Hne Hsym Hblocks. unfold App.exportScriptCSV.
    destruct (State.scriptBlocks c) as [|b bs]; [congruence|].
    cbn [List.length Nat.eqb]. eexists; split; [reflexivity|].
    cbn [filename App.downloadCSV]. rewrite slugify_symbols by assumption.
    reflexivity.
Qed.

Lemma slugify_symbols_only_witness :
  geminiService.slugify vietnameseData (lit "!!!") = []
  /\ geminiService.slugify vietnameseData (lit "!!!")
     <> geminiService.slugify vietnameseData [].
Proof.
  apply (proj1 (proj2 (slugify_symbols_only vietnameseData)) (lit "!!!"));
    [discriminate | reflexivity].
Defined.

(* ================================================================= *)
(** ** Runs of the handlers *)

(** *** The wrapper *)

Lemma eventsSince_app w w' evs : log w' = log w ++ evs -> eventsSince w w' = evs.
Proof.
  unfold eventsSince. intros ->.
  rewrite skipn_app, skipn_all, Nat.sub_diag. reflexivity.
Qed.

Lemma wrapper_passes c fn k w :
  isEmpty (State.bookTitle c) = false ->
  App.withErrorHandling c fn k w
  = match fn (begin k w) with
    | (inr _, w2) => (inr (Some tt), finish k w2)
    | (inl e, w2) => (inr None, finish k (caught k e w2))
    end.
Proof.
  intro H. unfold App.withErrorHandling. rewrite H.
  unfold bind, setError, setLoading, update, tryCatchFinally, emit, ret.
  cbn [fst snd store log].
  fold (wrote Cell.error (State.setError (fun _ => None)) w).
  change (fn _) with (fn (begin k w)).
  destruct (fn (begin k w)) as [[e|[]] w2]; reflexivity.
Qed.

Lemma wrapper_blocked c fn k w :
  isEmpty (State.bookTitle c) = true ->
  App.withErrorHandling c fn k w
  = (inr None,
     wrote Cell.error (State.setError (fun _ => Some titleMissing)) w).
Proof. intro H. unfold App.withErrorHandling. rewrite H. reflexivity. Qed.

(** *** The bodies of the outline, SEO and prompt handlers *)

Lemma outlineBody_run svc c w :
  App.outlineBody svc c w
  = let r := generateOutline (State.bookTitle c) (State.chaptersCount c)
                             (State.durationMin c) [] in
    match replyOutline svc (calls (log w)) r with
    | inr raw =>
        (inr tt, wrote Cell.outline (State.setOutline (fun _ => indexFrom 0 raw))
                       (logged (Called r) w))
    | inl e => (inl e, logged (Called r) w)
    end.
Proof.
  unfold App.outlineBody, bind, invoke, await, setOutline, update.
  cbn [fst snd store log].
  destruct (replyOutline svc _ _); reflexivity.
Qed.

Lemma seoBody_run svc c w :
  App.seoBody svc c w
  = let r := generateSEO (State.bookTitle c) (State.durationMin c) [] in
    match replySEO svc (calls (log w)) r with
    | inr result =>
        (inr tt, wrote Cell.seo (State.setSeo (fun _ => Some result))
                       (logged (Called r) w))
    | inl e => (inl e, logged (Called r) w)
    end.
Proof.
  unfold App.seoBody, bind, invoke, await, setSeo, update.
  cbn [fst snd store log].
  destruct (replySEO svc _ _); reflexivity.
Qed.

Lemma promptsBody_run svc c w :
  App.promptsBody svc c w
  = let ra := generateVideoPrompts (State.bookTitle c) (State.frameRatio c) [] in
    let rb := generateThumbIdeas (State.bookTitle c) (State.durationMin c) [] in
    let w2 := logged (Called rb) (logged (Called ra) w) in
    match promiseAll (thumbsRejectFirst svc (calls (log w2)))
                     (replyVideoPrompts svc (calls (log w)) ra)
                     (replyThumbIdeas svc (calls (log (logged (Called ra) w))) rb) with
    | inr (prompts, thumbs) =>
        (inr tt,
         wrote Cell.thumbTextIdeas (State.setThumbTextIdeas (fun _ => thumbs))
           (wrote Cell.videoPrompts (State.setVideoPrompts (fun _ => prompts)) w2))
    | inl e => (inl e, w2)
    end.
Proof.
  unfold App.promptsBody, bind, invoke, await, setVideoPrompts,
    setThumbTextIdeas, update.
  cbn [fst snd store log].
  destruct (promiseAll _ _ _) as [e|[prompts thumbs]]; reflexivity.
Qed.

Lemma calls_app l1 l2 : calls (l1 ++ l2) = calls l1 ++ calls l2.
Proof.
  induction l1 as [|[r|cell s|k e] l1 IH]; simpl; now rewrite ?IH.
Qed.

(** *** The script loop *)

Lemma setScriptBlocks_app blocks b s :
  State.setScriptBlocks (fun prev => prev ++ [b])
    (State.setScriptBlocks (fun prev => prev ++ blocks) s)
  = State.setScriptBlocks (fun prev => prev ++ blocks ++ [b]) s.
Proof. unfold State.setScriptBlocks. simpl. now rewrite app_assoc. Qed.

Lemma setScriptBlocks_nil s :
  State.setScriptBlocks (fun prev => prev ++ []) s = s.
Proof. destruct s. unfold State.setScriptBlocks. simpl. now rewrite app_nil_r. Qed.

Lemma writeBlock_run svc c t item w :
  App.writeBlock svc c t item w
  = let r := generateScriptBlock item (State.bookTitle c) t [] in
    match replyScriptBlock svc (calls (log w)) r with
    | inr text =>
        (inr tt,
         wrote Cell.scriptBlocks
           (State.setScriptBlocks (fun prev => prev ++
              [ScriptBlock.make (OutlineItem.index item + 1)
                 (OutlineItem.title item) text (lengthOf text)]))
           (logged (Called r) w))
    | inl e => (inl e, logged (Called r) w)
    end.
Proof.
  unfold App.writeBlock, bind, invoke, await, setScriptBlocks, update.
  cbn [fst snd store log].
  destruct (replyScriptBlock svc _ _); reflexivity.
Qed.

Lemma forOf_cons_ok {A} (body : A -> Async unit) x l w w1 :
  body x w = (inr tt, w1) -> forOf (x :: l) body w = forOf l body w1.
Proof. intro H. cbn [forOf]. unfold bind. now rewrite H. Qed.

Lemma forOf_cons_err {A} (body : A -> Async unit) x l w w1 e :
  body x w = (inl e, w1) -> forOf (x :: l) body w = (inl e, w1).
Proof. intro H. cbn [forOf]. unfold bind. now rewrite H. Qed.

(** The loop stops at the first rejected request; the blocks of the items
    before it have been appended one by one. *)
Lemma scriptLoop_run svc c t items : forall w,
  exists blocks,
    Forall2 blockOf (firstn (List.length blocks) items) blocks
    /\ store (snd (forOf items (App.writeBlock svc c t) w))
       = State.setScriptBlocks (fun prev => prev ++ blocks) (store w)
    /\ match fst (forOf items (App.writeBlock svc c t) w) with
       | inr _ =>
           List.length blocks = List.length items
           /\ log (snd (forOf items (App.writeBlock svc c t) w))
              = log w ++ growthEvents (State.bookTitle c) t [] (store w) items blocks
       | inl e =>
           exists item,
             nth_error items (List.length blocks) = Some item
             /\ replyScriptBlock svc
                  (calls (log w ++ growthEvents (State.bookTitle c) t []
                                     (store w) items blocks))
                  (generateScriptBlock item (State.bookTitle c) t []) = inl e
             /\ log (snd (forOf items (App.writeBlock svc c t) w))
                = log w ++ growthEvents (State.bookTitle c) t [] (store w)
                             (firstn (List.length blocks) items) blocks
                  ++ [Called (generateScriptBlock item (State.bookTitle c) t [])]
       end.
Proof.
  induction items as [|item items IH]; intro w.
  - exists []. cbn. rewrite setScriptBlocks_nil, app_nil_r. auto.
  - pose proof (writeBlock_run svc c t item w) as Hstep. cbv zeta in Hstep.
    destruct (replyScriptBlock svc (calls (log w)) _) as [e|text] eqn:Hr.
    + rewrite (forOf_cons_err _ _ _ _ _ _ Hstep).
      exists []. cbn. rewrite setScriptBlocks_nil.
      split; [constructor|]. split; [reflexivity|].
      exists item. rewrite !app_nil_r. auto.
    + rewrite (forOf_cons_ok _ _ _ _ _ Hstep).
      match type of Hstep with
        context [ScriptBlock.make ?i ?ch ?tx ?n] =>
          set (b := ScriptBlock.make i ch tx n) in *
      end.
      match type of Hstep with _ = (_, ?w') => set (w1 := w') in * end.
      assert (Hstore1 : store w1
                = State.setScriptBlocks (fun prev => prev ++ [b]) (store w))
        by reflexivity.
      assert (Hlog1 : log w1 = log w ++
                [Called (generateScriptBlock item (State.bookTitle c) t []);
                 Wrote Cell.scriptBlocks (store w1)]).
      { subst w1. unfold wrote, logged. cbn [store log].
        now rewrite <- app_assoc. }
      destruct (IH w1) as (blocks & Hrel & Hstore & Hres).
      exists (b :: blocks). cbn [List.length firstn].
      split; [constructor; [repeat split | exact Hrel]|].
      split.
      { rewrite Hstore, Hstore1. unfold State.setScriptBlocks. cbn.
        now rewrite <- app_assoc. }
      destruct (fst (forOf items (App.writeBlock svc c t) w1)) as [e|[]].
      * destruct Hres as (item' & Hnth & Hrej & Hlog).
        exists item'. cbn [nth_error growthEvents]. rewrite <- Hstore1.
        split; [exact Hnth|]. split.
        { rewrite Hlog1 in Hrej. rewrite <- app_assoc in Hrej. exact Hrej. }
        rewrite Hlog, Hlog1. now rewrite <- !app_assoc.
      * destruct Hres as (Hlen & Hlog). split; [now rewrite Hlen|].
        cbn [growthEvents]. rewrite <- Hstore1.
        rewrite Hlog, Hlog1. now rewrite <- !app_assoc.
Qed.

(** *** The script body, by cases on the stored outline and on the answer
    to the outline request *)

Lemma bind_run {A B} (m : Async A) (k : A -> Async B) w :
  bind m k w = match m w with
               | (inr a, w') => k a w'
               | (inl e, w') => (inl e, w')
               end.
Proof. reflexivity. Qed.

Lemma update_run cell f w : update cell f w = (inr tt, wrote cell f w).
Proof. reflexivity. Qed.

Lemma invoke_run {A} (reply : list Request -> Request -> Promise A) r w :
  invoke reply r w = (inr (reply (calls (log w)) r), logged (Called r) w).
Proof. reflexivity. Qed.

Lemma await_run {A} (p : Promise A) w : await p w = (p, w).
Proof. reflexivity. Qed.

Ltac step :=
  repeat (rewrite bind_run || rewrite update_run || rewrite invoke_run
          || rewrite await_run).

Lemma scriptBody_stored svc c w :
  State.outline c <> [] ->
  App.scriptBody svc c w
  = forOf (State.outline c) (App.writeBlock svc c (targetFor c (State.outline c)))
          (cleared w).
Proof.
  intro H. unfold App.scriptBody.
  destruct (State.outline c) as [|i l] eqn:E; [congruence|].
  reflexivity.
Qed.

Lemma scriptBody_rejected svc c w e :
  State.outline c = [] ->
  replyOutline svc (calls (log (cleared w))) (outlineRequest c) = inl e ->
  App.scriptBody svc c w = (inl e, logged (Called (outlineRequest c)) (cleared w)).
Proof.
  intros H Hr. unfold App.scriptBody. rewrite H. cbn [List.length Nat.eqb].
  unfold setScriptBlocks, setOutline. step. fold (cleared w).
  fold (outlineRequest c). rewrite Hr. reflexivity.
Qed.

Lemma scriptBody_generated svc c w raw :
  State.outline c = [] ->
  replyOutline svc (calls (log (cleared w))) (outlineRequest c) = inr raw ->
  App.scriptBody svc c w
  = forOf (indexFrom 0 raw) (App.writeBlock svc c (targetFor c (indexFrom 0 raw)))
      (wrote Cell.outline (State.setOutline (fun _ => indexFrom 0 raw))
         (logged (Called (outlineRequest c)) (cleared w))).
Proof.
  intros H Hr. unfold App.scriptBody. rewrite H. cbn [List.length Nat.eqb].
  unfold setScriptBlocks, setOutline. step. fold (cleared w).
  fold (outlineRequest c). rewrite Hr. step. reflexivity.
Qed.

(** *** Facts about [indexFrom] and [growthEvents] *)

Lemma indexFrom_length i raw : List.length (indexFrom i raw) = List.length raw.
Proof. revert i; induction raw as [|r raw IH]; intro i; simpl; auto. Qed.

Lemma indexFrom_index i raw :
  List.map OutlineItem.index (indexFrom i raw)
  = List.map (fun n => i + Z.of_nat n) (seq 0 (List.length raw)).
Proof.
  revert i; induction raw as [|r raw IH]; intro i; [reflexivity|].
  cbn [indexFrom List.length seq List.map OutlineItem.index].
  rewrite IH, <- seq_shift, map_map. f_equal; [lia|].
  apply map_ext. intro n. lia.
Qed.

Lemma indexFrom_fields i raw :
  List.map OutlineItem.title (indexFrom i raw) = List.map RawOutlineItem.title raw
  /\ List.map OutlineItem.focus (indexFrom i raw) = List.map RawOutlineItem.focus raw
  /\ List.map OutlineItem.actions (indexFrom i raw)
     = List.map RawOutlineItem.actions raw.
Proof.
  revert i; induction raw as [|r raw IH]; intro i; [auto|].
  destruct (IH (i + 1)) as (H1 & H2 & H3).
  cbn. now rewrite H1, H2, H3.
Qed.



Lemma Forall2_blockOf_index items blocks :
  Forall2 blockOf items blocks ->
  List.map ScriptBlock.index blocks
  = List.map (fun item => OutlineItem.index item + 1) items
  /\ List.map ScriptBlock.chapter blocks = List.map OutlineItem.title items
  /\ Forall (fun b => ScriptBlock.chars b = lengthOf (ScriptBlock.text b)) blocks.
Proof.
  induction 1 as [|item b items blocks (Hi & Hc & Hn) _ (IH1 & IH2 & IH3)];
    [auto|].
  cbn. rewrite Hi, Hc, IH1, IH2. auto.
Qed.

(** The two ways in which the script loop ends. *)
Lemma scriptLoop_cases svc c t items w :
  (exists w2 blocks,
     forOf items (App.writeBlock svc c t) w = (inr tt, w2)
     /\ Forall2 blockOf items blocks
     /\ store w2 = State.setScriptBlocks (fun prev => prev ++ blocks) (store w)
     /\ log w2 = log w ++ growthEvents (State.bookTitle c) t [] (store w) items blocks)
  \/ (exists e w2 blocks item,
        forOf items (App.writeBlock svc c t) w = (inl e, w2)
        /\ Forall2 blockOf (firstn (List.length blocks) items) blocks
        /\ nth_error items (List.length blocks) = Some item
        /\ replyScriptBlock svc
             (calls (log w ++ growthEvents (State.bookTitle c) t [] (store w)
                                items blocks))
             (generateScriptBlock item (State.bookTitle c) t []) = inl e
        /\ store w2 = State.setScriptBlocks (fun prev => prev ++ blocks) (store w)
        /\ log w2 = log w ++ growthEvents (State.bookTitle c) t [] (store w)
                              (firstn (List.length blocks) items) blocks
                    ++ [Called (generateScriptBlock item (State.bookTitle c) t [])]).
Proof.
  destruct (scriptLoop_run svc c t items w) as (blocks & Hrel & Hstore & Hres).
  destruct (forOf items (App.writeBlock svc c t) w) as [[e|[]] w2];
    cbn [fst snd] in *.
  - right. destruct Hres as (item & Hnth & Hrej & Hlog).
    exists e, w2, blocks, item. repeat split; assumption.
  - left. destruct Hres as (Hlen & Hlog).
    exists w2, blocks. rewrite Hlen, firstn_all in Hrel.
    repeat split; assumption.
Qed.

(** *** Clicks *)

Lemma handler_body svc c k :
  App.handler svc c k = App.withErrorHandling c (App.body svc c k) k.
Proof. destruct k; reflexivity. Qed.

Lemma click_passes svc k w :
  isEmpty (State.bookTitle (store w)) = false ->
  App.click svc k w
  = match App.body svc (store w) k (begin k w) with
    | (inr _, w2) => finish k w2
    | (inl e, w2) => finish k (caught k e w2)
    end.
Proof.
  intro H. unfold App.click. rewrite handler_body, wrapper_passes by assumption.
  destruct (App.body svc (store w) k (begin k w)) as [[e|u] w2]; reflexivity.
Qed.

Lemma click_blocked svc k w :
  isEmpty (State.bookTitle (store w)) = true ->
  App.click svc k w
  = wrote Cell.error (State.setError (fun _ => Some titleMissing)) w.
Proof.
  intro H. unfold App.click. now rewrite handler_body, wrapper_blocked.
Qed.

Lemma calls_begin k w : calls (log (begin k w)) = calls (log w).
Proof.
  unfold begin, wrote. cbn [log store]. rewrite !calls_app. cbn.
  now rewrite !app_nil_r.
Qed.

Lemma calls_cleared w : calls (log (cleared w)) = calls (log w).
Proof.
  unfold cleared, wrote. cbn [log]. rewrite calls_app. cbn.
  now rewrite app_nil_r.
Qed.

(** C6.  When the outline service answers the request of the outline
    handler with a list of [N] items, the stored outline has the items in
    the order of the answer, numbered [0 .. N-1], with their titles,
    focuses and actions as answered. *)
Theorem outline_indexed svc w raw :
  isEmpty (State.bookTitle (store w)) = false ->
  replyOutline svc (calls (log w)) (outlineRequest (store w)) = inr raw ->
  let o := State.outline (store (App.click svc Key.outline w)) in
  List.length o = List.length raw
  /\ List.map OutlineItem.index o = List.map Z.of_nat (seq 0 (List.length raw))
  /\ List.map OutlineItem.title o = List.map RawOutlineItem.title raw
  /\ List.map OutlineItem.focus o = List.map RawOutlineItem.focus raw
  /\ List.map OutlineItem.actions o = List.map RawOutlineItem.actions raw.
Proof.
  intros Htitle Hreply o. subst o.
  rewrite click_passes by assumption.
  cbn [App.body]. rewrite outlineBody_run. cbv zeta.
  rewrite calls_begin. fold (outlineRequest (store w)). rewrite Hreply.
  cbn [finish wrote store State.setLoading State.setOutline State.outline].
  split; [apply indexFrom_length|].
  split; [apply indexFrom_index|].
  apply indexFrom_fields.
Qed.

Lemma outline_indexed_witness :
  let o := State.outline (store (App.click demoService Key.outline (mkWorld titled []))) in
  List.length o = 2%nat
  /\ List.map OutlineItem.index o = [0; 1]
  /\ List.map OutlineItem.title o = [lit "Hook"; lit "Intro"]
  /\ List.map OutlineItem.focus o = List.map RawOutlineItem.focus demoRaw
  /\ List.map OutlineItem.actions o = List.map RawOutlineItem.actions demoRaw.
Proof.
  apply (outline_indexed demoService (mkWorld titled []) demoRaw); reflexivity.
Defined.

Lemma firstn_seq n a len : firstn n (seq a len) = seq a (Nat.min n len).
Proof.
  revert a len; induction n as [|n IH]; intros a [|len]; cbn; auto.
  now rewrite IH.
Qed.




(** *** The shape of every run of the script handler *)

Lemma firstn_length_Forall2 {A B} (R : A -> B -> Prop) l l' :
  Forall2 R l l' -> firstn (List.length l') l = l.
Proof. intro H. rewrite <- (Forall2_length H). apply firstn_all. Qed.

Lemma script_click svc w :
  isEmpty (State.bookTitle (store w)) = false ->
  let s := store w in
  let w' := App.click svc Key.script w in
  exists cur blocks pre sPre tail,
    eventsSince w w'
    = [Wrote Cell.error (State.setError (fun _ => None) s);
       Wrote Cell.loading (store (begin Key.script w));
       Wrote Cell.scriptBlocks (store (cleared (begin Key.script w)))]
      ++ pre
      ++ growthEvents (State.bookTitle s) (targetFor s cur) [] sPre
           (firstn (List.length blocks) cur) blocks
      ++ tail
    /\ (pre = [] \/ pre = [Called (outlineRequest s)]
        \/ pre = [Called (outlineRequest s); Wrote Cell.outline sPre])
    /\ State.scriptBlocks sPre = []
    /\ Forall2 blockOf (firstn (List.length blocks) cur) blocks
    /\ State.outline (store w') = cur
    /\ (State.outline s <> [] -> cur = State.outline s)
    /\ State.scriptBlocks (store w') = blocks
    /\ State.seo (store w') = State.seo s
    /\ State.videoPrompts (store w') = State.videoPrompts s
    /\ State.thumbTextIdeas (store w') = State.thumbTextIdeas s
    /\ LoadingStates.get Key.script (State.loading (store w')) = false
    /\ ((tail = [Wrote Cell.loading (store w')]
         /\ List.length blocks = List.length cur)
        \/ exists e sE,
             State.error (store w') = Some (failureMessage Key.script e)
             /\ State.scriptBlocks sE = blocks
             /\ (tail = [ConsoleError Key.script e; Wrote Cell.error sE;
                         Wrote Cell.loading (store w')]
                 \/ exists item,
                      In item cur
                      /\ tail = [Called (generateScriptBlock item
                                           (State.bookTitle s) (targetFor s cur) []);
                                 ConsoleError Key.script e; Wrote Cell.error sE;
                                 Wrote Cell.loading (store w')])).
Proof.
  intros Htitle s w'. subst w'.
  rewrite click_passes by assumption. cbn [App.body]. fold s.
  set (w0 := cleared (begin Key.script w)).
  set (wF := match App.scriptBody svc s (begin Key.script w) with
             | (inl e, w2) => finish Key.script (caught Key.script e w2)
             | (inr _, w2) => finish Key.script w2
             end).
  assert (Hlog0 : log w0 = log w ++
            [Wrote Cell.error (State.setError (fun _ => None) s);
             Wrote Cell.loading (store (begin Key.script w));
             Wrote Cell.scriptBlocks (store w0)]).
  { unfold w0, cleared, begin, wrote. cbn [log store].
    now rewrite <- !app_assoc. }
  assert (Hget : forall l, LoadingStates.get Key.script
                   (LoadingStates.set Key.script false l) = false)
    by reflexivity.
  (* the loop, from a world [w1] reached after the events [pre] *)
  assert (Hloop : forall cur pre w1,
    App.scriptBody svc s (begin Key.script w)
      = forOf cur (App.writeBlock svc s (targetFor s cur)) w1 ->
    log w1 = log w0 ++ pre ->
    (pre = [] \/ pre = [Called (outlineRequest s)]
     \/ pre = [Called (outlineRequest s); Wrote Cell.outline (store w1)]) ->
    State.scriptBlocks (store w1) = [] ->
    State.outline (store w1) = cur ->
    (State.outline s <> [] -> cur = State.outline s) ->
    State.seo (store w1) = State.seo s ->
    State.videoPrompts (store w1) = State.videoPrompts s ->
    State.thumbTextIdeas (store w1) = State.thumbTextIdeas s ->
    exists cur blocks pre sPre tail,
      eventsSince w wF
      = [Wrote Cell.error (State.setError (fun _ => None) s);
         Wrote Cell.loading (store (begin Key.script w));
         Wrote Cell.scriptBlocks (store w0)]
        ++ pre
        ++ growthEvents (State.bookTitle s) (targetFor s cur) [] sPre
             (firstn (List.length blocks) cur) blocks
        ++ tail
      /\ (pre = [] \/ pre = [Called (outlineRequest s)]
          \/ pre = [Called (outlineRequest s); Wrote Cell.outline sPre])
      /\ State.scriptBlocks sPre = []
      /\ Forall2 blockOf (firstn (List.length blocks) cur) blocks
      /\ State.outline (store wF) = cur
      /\ (State.outline s <> [] -> cur = State.outline s)
      /\ State.scriptBlocks (store wF) = blocks
      /\ State.seo (store wF) = State.seo s
      /\ State.videoPrompts (store wF) = State.videoPrompts s
      /\ State.thumbTextIdeas (store wF) = State.thumbTextIdeas s
      /\ LoadingStates.get Key.script (State.loading (store wF)) = false
      /\ ((tail = [Wrote Cell.loading (store wF)]
           /\ List.length blocks = List.length cur)
          \/ exists e sE,
               State.error (store wF) = Some (failureMessage Key.script e)
               /\ State.scriptBlocks sE = blocks
               /\ (tail = [ConsoleError Key.script e; Wrote Cell.error sE;
                           Wrote Cell.loading (store wF)]
                   \/ exists item,
                        In item cur
                        /\ tail = [Called (generateScriptBlock item
                                     (State.bookTitle s) (targetFor s cur) []);
                                   ConsoleError Key.script e; Wrote Cell.error sE;
                                   Wrote Cell.loading (store wF)]))).
  { intros cur pre w1 Hbody Hlog1 Hpre Hnil Hcur Hstored Hseo Hvp Hth.
    unfold wF. rewrite Hbody.
    destruct (scriptLoop_cases svc s (targetFor s cur) cur w1)
      as [(w2 & blocks & Hrun & Hrel & Hstore & Hlog)
         |(e & w2 & blocks & item & Hrun & Hrel & Hnth & _ & Hstore & Hlog)];
      rewrite Hrun.
    - exists cur, blocks, pre, (store w1),
        [Wrote Cell.loading (store (finish Key.script w2))].
      rewrite (firstn_length_Forall2 _ _ _ Hrel).
      split.
      { apply eventsSince_app. cbn [finish wrote log]. rewrite Hlog, Hlog1, Hlog0.
        now rewrite <- !app_assoc. }
      cbn [finish wrote store State.setLoading State.outline State.scriptBlocks
           State.seo State.videoPrompts State.thumbTextIdeas State.loading].
      rewrite Hstore.
      cbn [State.setScriptBlocks State.outline State.scriptBlocks
           State.seo State.videoPrompts State.thumbTextIdeas State.loading].
      rewrite Hnil. cbn [app].
      repeat (split; [first [assumption | reflexivity | apply Hget]|]).
      left. split; [reflexivity|]. symmetry. exact (Forall2_length Hrel).
    - set (wE := finish Key.script (caught Key.script e w2)).
      exists cur, blocks, pre, (store w1),
        [Called (generateScriptBlock item (State.bookTitle s) (targetFor s cur) []);
         ConsoleError Key.script e;
         Wrote Cell.error (store (caught Key.script e w2));
         Wrote Cell.loading (store wE)].
      split.
      { apply eventsSince_app. unfold wE.
        cbn [finish caught logged wrote log store]. rewrite Hlog, Hlog1, Hlog0.
        now rewrite <- !app_assoc. }
      unfold wE.
      cbn [finish caught logged wrote store State.setLoading State.setError
           State.outline State.scriptBlocks State.error
           State.seo State.videoPrompts State.thumbTextIdeas State.loading].
      rewrite Hstore.
      cbn [State.setScriptBlocks State.outline State.scriptBlocks
           State.seo State.videoPrompts State.thumbTextIdeas State.loading].
      rewrite Hnil. cbn [app].
      repeat (split; [first [assumption | reflexivity | apply Hget]|]).
      right. exists e, (store (caught Key.script e w2)).
      split; [reflexivity|]. split.
      { cbn [caught logged wrote store State.setError State.scriptBlocks].
        rewrite Hstore. cbn [State.setScriptBlocks State.scriptBlocks].
        now rewrite Hnil. }
      right. exists item. split; [now apply nth_error_In in Hnth|].
      cbn [caught logged wrote store]. rewrite Hstore. reflexivity. }
  destruct (State.outline s) as [|i l] eqn:Hout.
  - destruct (replyOutline svc (calls (log w0)) (outlineRequest s))
      as [e|raw] eqn:Hreply.
    + (* the outline request is rejected *)
      unfold wF.
      rewrite (scriptBody_rejected svc s (begin Key.script w) e Hout Hreply).
      fold w0.
      set (wE := finish Key.script
                   (caught Key.script e (logged (Called (outlineRequest s)) w0))).
      exists [], [], [Called (outlineRequest s)], (store w0),
        [ConsoleError Key.script e;
         Wrote Cell.error (store (caught Key.script e
                                    (logged (Called (outlineRequest s)) w0)));
         Wrote Cell.loading (store wE)].
      split.
      { apply eventsSince_app. unfold wE.
        cbn [finish caught logged wrote log store firstn growthEvents app
             List.length]. rewrite Hlog0. now rewrite <- !app_assoc. }
      unfold wE, w0.
      cbn [finish caught logged wrote cleared begin store State.setLoading
           State.setError State.setScriptBlocks
           State.outline State.scriptBlocks State.error
           State.seo State.videoPrompts State.thumbTextIdeas State.loading
           firstn List.length].
      fold s. rewrite Hout.
      split; [right; left; reflexivity|].
      repeat (split; [first [assumption | reflexivity | apply Hget
                            | constructor | congruence]|]).
      right. exists e, (store (caught Key.script e
                                 (logged (Called (outlineRequest s)) w0))).
      split; [reflexivity|]. split; [reflexivity|].
      left. reflexivity.
    + (* the outline is generated *)
      eapply Hloop.
      * apply (scriptBody_generated svc s (begin Key.script w) raw Hout Hreply).
      * fold w0. cbn [wrote logged log store]. now rewrite <- app_assoc.
      * right; right. reflexivity.
      * reflexivity.
      * reflexivity.
      * congruence.
      * reflexivity.
      * reflexivity.
      * reflexivity.
  - (* a stored outline *)
    eapply (Hloop (i :: l) [] w0).
    + rewrite <- Hout. apply scriptBody_stored. congruence.
    + now rewrite app_nil_r.
    + now left.
    + reflexivity.
    + unfold w0. cbn. exact Hout.
    + intros _. reflexivity.
    + reflexivity.
    + reflexivity.
    + reflexivity.
Qed.

Lemma growthEvents_called title t extra s items blocks r :
  In (Called r) (growthEvents title t extra s items blocks) ->
  exists item, In item items /\ r = generateScriptBlock item title t extra.
Proof.
  revert s blocks; induction items as [|item items IH]; intros s blocks H;
    [contradiction|].
  destruct blocks as [|b blocks]; [contradiction|].
  cbn [growthEvents In] in H. destruct H as [H|[H|H]].
  - injection H as <-. exists item. split; [now left | reflexivity].
  - discriminate.
  - destruct (IH _ _ H) as (item' & Hin & ->).
    exists item'. split; [now right | reflexivity].
Qed.

Lemma roundDiv_nearest n d :
  0 < d ->
  exists q, roundDiv (Int n) d = Int q /\ 2 * n - d < 2 * d * q <= 2 * n + d.
Proof.
  intro Hd. unfold roundDiv.
  destruct (d =? 0) eqn:E; [lia|].
  eexists. split; [reflexivity|].
  pose proof (Z.div_mod (2 * n + d) (2 * d)) as H.
  pose proof (Z.mod_pos_bound (2 * n + d) (2 * d)) as Hm.
  lia.
Qed.

(** C7.  In a script generation every script-block request carries the
    same character target: [Math.round] of the total target,
    [durationMin * 1000], over the length [L] of the outline in use (which
    is then not empty).  When the duration is an integer [d], small enough
    for the arithmetic of JavaScript to be exact, the target is the integer
    nearest to [d * 1000 / L], halves up.  When the duration is [NaN],
    which the duration field stores for a text that does not parse, the
    target is [NaN].  With a stored outline the request for its first item
    does go out with that target.  For 240 minutes and 12 items the target
    is 20000. *)
Theorem script_block_target svc w :
  isEmpty (State.bookTitle (store w)) = false ->
  let s := store w in
  let w' := App.click svc Key.script w in
  let L := Z.of_nat (List.length (State.outline (store w'))) in
  let total := times (State.durationMin s) 1000 in
  (forall item title t extra,
     In (Called (generateScriptBlock item title t extra)) (eventsSince w w') ->
     0 < L
     /\ t = roundDiv total L
     /\ (forall d, State.durationMin s = Int d -> Z.abs (d * 1000) < 2 ^ 52 ->
         exists q,
           t = Int q
           /\ 2 * (d * 1000) - L < 2 * L * q <= 2 * (d * 1000) + L)
     /\ (State.durationMin s = NaN -> t = NaN)
     /\ (forall negative,
           State.durationMin s = Infinity negative -> t = Infinity negative))
  /\ (forall first rest,
        State.outline s = first :: rest ->
        In (Called (generateScriptBlock first (State.bookTitle s)
                      (roundDiv total L) []))
           (eventsSince w w'))
  /\ roundDiv (times 240 1000) 12 = 20000.
Proof.
  intros Htitle s w' L total.
  destruct (script_click svc w Htitle)
    as (cur & blocks & pre & sPre & tail & Hev & Hpre & Hnil & Hrel & Hcur
        & Hstored & Hblocks & _ & _ & _ & _ & Htail).
  fold s w' in Hev, Hcur, Hstored, Hblocks, Htail.
  assert (HL : L = Z.of_nat (List.length cur)) by (unfold L; now rewrite Hcur).
  assert (Htarget : targetFor s cur = roundDiv total L)
    by (unfold targetFor, App.totalCharsTarget; now rewrite HL).
  split; [|split; [|reflexivity]].
  - intros item title t extra Hin.
    assert (Hcase : (exists it, In it cur) /\ t = targetFor s cur).
    { rewrite Hev in Hin. cbn [app] in Hin.
      destruct Hin as [Hin|[Hin|[Hin|Hin]]]; try discriminate.
      apply in_app_or in Hin as [Hin|Hin].
      { destruct Hpre as [->|[->| ->]]; cbn [In] in Hin;
          unfold outlineRequest in Hin; intuition discriminate. }
      apply in_app_or in Hin as [Hin|Hin].
      { apply growthEvents_called in Hin as (it & Hit & Heq).
        injection Heq as _ _ Ht _.
        split; [|exact Ht]. exists it.
        revert Hit. generalize (List.length blocks). intros n Hit.
        rewrite <- (firstn_skipn n cur). apply in_or_app. now left. }
      destruct Htail as [[-> _]|(e & sE & _ & _ & [->|(it & Hit & ->)])];
        cbn [In] in Hin.
      - intuition discriminate.
      - intuition discriminate.
      - destruct Hin as [Hin|Hin]; [|intuition discriminate].
        injection Hin as _ _ Ht _. split; [now exists it | now symmetry]. }
    destruct Hcase as ((it & Hit) & ->).
    assert (0 < L).
    { rewrite HL. destruct cur; [contradiction | cbn; lia]. }
    split; [assumption|]. split; [assumption|].
    rewrite Htarget. unfold total.
    split; [|split].
    + intros d -> _. cbn [times]. now apply roundDiv_nearest.
    + intros ->. reflexivity.
    + intros negative ->. cbn [times roundDiv Z.eqb].
      replace (L <? 0) with false by lia.
      replace (1000 <? 0) with false by reflexivity.
      now destruct negative.
  - intros first rest Hout.
    assert (Hne : State.outline s <> []) by congruence.
    specialize (Hstored Hne). rewrite <- Htarget, Hstored.
    unfold w'. rewrite click_passes by assumption. cbn [App.body]. fold s.
    rewrite scriptBody_stored by assumption. rewrite Hout.
    set (w0 := cleared (begin Key.script w)).
    set (t := targetFor s (first :: rest)).
    assert (Hlog0 : exists evs0, log w0 = log w ++ evs0).
    { unfold w0, cleared, begin, wrote. cbn [log store].
      eexists. now rewrite <- !app_assoc. }
    destruct Hlog0 as [evs0 Hlog0].
    assert (Hhead : forall bs n, exists more,
              growthEvents (State.bookTitle s) t [] (store w0)
                (firstn n (first :: rest)) bs
              ++ match nth_error (first :: rest) (List.length bs) with
                 | Some it => [Called (generateScriptBlock it (State.bookTitle s) t [])]
                 | None => []
                 end
              = Called (generateScriptBlock first (State.bookTitle s) t []) :: more
              \/ (n = O /\ bs <> [])).
    { intros [|b bs] n.
      - eexists. left. destruct n; reflexivity.
      - destruct n; [exists []; right; split; [reflexivity | discriminate]|].
        eexists. left. reflexivity. }
    destruct (scriptLoop_cases svc s t (first :: rest) w0)
      as [(w2 & bs & Hrun & Hrel' & _ & Hlog)
         |(e & w2 & bs & item & Hrun & _ & Hnth & _ & _ & Hlog)];
      rewrite Hrun.
    + rewrite (eventsSince_app w _
        (evs0 ++ growthEvents (State.bookTitle s) t [] (store w0) (first :: rest) bs
         ++ [Wrote Cell.loading (store (finish Key.script w2))])).
      * apply in_or_app; right. apply in_or_app; left.
        inversion Hrel'; subst. now left.
      * cbn [finish wrote log]. rewrite Hlog, Hlog0. now rewrite <- !app_assoc.
    + rewrite (eventsSince_app w _
        (evs0 ++ (growthEvents (State.bookTitle s) t [] (store w0)
                    (firstn (List.length bs) (first :: rest)) bs
                  ++ [Called (generateScriptBlock item (State.bookTitle s) t [])])
         ++ [ConsoleError Key.script e;
             Wrote Cell.error (store (caught Key.script e w2));
             Wrote Cell.loading (store (finish Key.script (caught Key.script e w2)))])).
      * apply in_or_app; right. apply in_or_app; left.
        destruct (Hhead bs (List.length bs)) as [more [Hm|[Hn Hbs]]].
        { rewrite Hnth in Hm. rewrite Hm. now left. }
        { destruct bs; [congruence | discriminate]. }
      * cbn [finish caught logged wrote log store]. rewrite Hlog, Hlog0.
        now rewrite <- !app_assoc.
Qed.


Lemma script_block_target_witness :
  (let s := worked in
   let w' := App.click demoService Key.script (mkWorld worked []) in
   let L := Z.of_nat (List.length (State.outline (store w'))) in
   let total := times (State.durationMin s) 1000 in
   (forall item title t extra,
      In (Called (generateScriptBlock item title t extra))
         (eventsSince (mkWorld worked []) w') ->
      0 < L
      /\ t = roundDiv total L
      /\ (forall d, State.durationMin s = Int d -> Z.abs (d * 1000) < 2 ^ 52 ->
          exists q,
            t = Int q
            /\ 2 * (d * 1000) - L < 2 * L * q <= 2 * (d * 1000) + L)
      /\ (State.durationMin s = NaN -> t = NaN)
      /\ (forall negative,
            State.durationMin s = Infinity negative -> t = Infinity negative))
   /\ (forall first rest,
         State.outline s = first :: rest ->
         In (Called (generateScriptBlock first (State.bookTitle s)
                       (roundDiv total L) []))
            (eventsSince (mkWorld worked []) w'))
   /\ roundDiv (times 240 1000) 12 = 20000)
  /\ In (Called (generateScriptBlock
                   (OutlineItem.make 0 (lit "Hook") (lit "Open")
                      [lit "a"; lit "b"; lit "c"])
                   (lit "Sapiens") NaN []))
        (eventsSince (mkWorld unparsed [])
           (App.click demoService Key.script (mkWorld unparsed []))).
Proof.
  split.
  - apply (script_block_target demoService (mkWorld worked [])). reflexivity.
  - apply (proj1 (proj2 (script_block_target demoService (mkWorld unparsed [])
                           eq_refl))
             (OutlineItem.make 0 (lit "Hook") (lit "Open")
                [lit "a"; lit "b"; lit "c"])
             [OutlineItem.make 1 (lit "Intro") (lit "Point of view")
                [lit "d"; lit "e"; lit "f"]]).
    reflexivity.
Defined.

(** *** The shape of every run of the three other handlers *)

Lemma other_click svc k w :
  k <> Key.script ->
  isEmpty (State.bookTitle (store w)) = false ->
  let s := store w in
  let w' := App.click svc k w in
  exists body tail,
    eventsSince w w'
    = [Wrote Cell.error (State.setError (fun _ => None) s);
       Wrote Cell.loading (store (begin k w))] ++ body ++ tail
    /\ Forall plainEvent body
    /\ State.scriptBlocks (store w') = State.scriptBlocks s
    /\ LoadingStates.get k (State.loading (store w')) = false
    /\ ((tail = [Wrote Cell.loading (store w')] /\ State.error (store w') = None)
        \/ exists e sE,
             tail = [ConsoleError k e; Wrote Cell.error sE;
                     Wrote Cell.loading (store w')]
             /\ State.error (store w') = Some (failureMessage k e)
             /\ results (store w') = results s).
Proof.
  intros Hk Htitle s w'. subst w'.
  rewrite click_passes by assumption.
  assert (Hlogb : log (begin k w) = log w ++
            [Wrote Cell.error (State.setError (fun _ => None) s);
             Wrote Cell.loading (store (begin k w))]).
  { unfold begin, wrote. cbn [log store]. now rewrite <- !app_assoc. }
  assert (Hget : forall l, LoadingStates.get k (LoadingStates.set k false l) = false)
    by (intro l; destruct k; reflexivity).
  destruct k; [| |congruence|]; cbn [App.body].
  - (* outline *)
    rewrite outlineBody_run. cbv zeta.
    set (r := generateOutline _ _ _ _).
    destruct (replyOutline svc _ r) as [e|raw].
    + exists [Called r]. eexists. split.
      { apply eventsSince_app. cbn [finish caught logged wrote log store].
        rewrite Hlogb. rewrite <- !app_assoc. reflexivity. }
      split; [repeat constructor|]. split; [reflexivity|].
      split; [apply Hget|]. right. do 2 eexists.
      split; [reflexivity|]. split; reflexivity.
    + exists [Called r; Wrote Cell.outline
                (State.setOutline (fun _ => indexFrom 0 raw) (store (begin Key.outline w)))].
      eexists. split.
      { apply eventsSince_app. cbn [finish caught logged wrote log store].
        rewrite Hlogb. rewrite <- !app_assoc. reflexivity. }
      split; [repeat constructor|]. split; [reflexivity|].
      split; [apply Hget|]. left. split; reflexivity.
  - (* seo *)
    rewrite seoBody_run. cbv zeta.
    set (r := generateSEO _ _ _).
    destruct (replySEO svc _ r) as [e|result].
    + exists [Called r]. eexists. split.
      { apply eventsSince_app. cbn [finish caught logged wrote log store].
        rewrite Hlogb. rewrite <- !app_assoc. reflexivity. }
      split; [repeat constructor|]. split; [reflexivity|].
      split; [apply Hget|]. right. do 2 eexists.
      split; [reflexivity|]. split; reflexivity.
    + exists [Called r; Wrote Cell.seo
                (State.setSeo (fun _ => Some result) (store (begin Key.seo w)))].
      eexists. split.
      { apply eventsSince_app. cbn [finish caught logged wrote log store].
        rewrite Hlogb. rewrite <- !app_assoc. reflexivity. }
      split; [repeat constructor|]. split; [reflexivity|].
      split; [apply Hget|]. left. split; reflexivity.
  - (* prompts *)
    rewrite promptsBody_run. cbv zeta.
    set (ra := generateVideoPrompts _ _ _).
    set (rb := generateThumbIdeas _ _ _).
    destruct (promiseAll _ _ _) as [e|[prompts thumbs]].
    + exists [Called ra; Called rb]. eexists. split.
      { apply eventsSince_app. cbn [finish caught logged wrote log store].
        rewrite Hlogb. rewrite <- !app_assoc. reflexivity. }
      split; [repeat constructor|]. split; [reflexivity|].
      split; [apply Hget|]. right. do 2 eexists.
      split; [reflexivity|]. split; reflexivity.
    + eexists [Called ra; Called rb; Wrote Cell.videoPrompts _;
               Wrote Cell.thumbTextIdeas _].
      eexists. split.
      { apply eventsSince_app. cbn [finish caught logged wrote log store].
        rewrite Hlogb. rewrite <- !app_assoc. reflexivity. }
      split; [repeat constructor|]. split; [reflexivity|].
      split; [apply Hget|]. left. split; reflexivity.
Qed.

Lemma growthEvents_no_console title t extra s items blocks k e :
  ~ In (ConsoleError k e) (growthEvents title t extra s items blocks).
Proof.
  revert s blocks; induction items as [|item items IH]; intros s blocks H;
    [contradiction|].
  destruct blocks as [|b blocks]; [contradiction|].
  cbn [growthEvents In] in H. destruct H as [H|[H|H]]; try discriminate.
  now apply IH in H.
Qed.

Lemma plainEvent_no_console body k e :
  Forall plainEvent body -> ~ In (ConsoleError k e) body.
Proof.
  intros H Hin. rewrite Forall_forall in H. exact (H _ Hin).
Qed.

Lemma growthEvents_blocksWritten title t extra items : forall s blocks,
  blocksOk s -> Forall2 blockOf items blocks ->
  Forall blocksWritten (growthEvents title t extra s items blocks).
Proof.
  induction items as [|item items IH]; intros s blocks Hs Hrel; [constructor|].
  inversion Hrel as [|? b ? blocks' (_ & _ & Hb) Hrel']; subst.
  cbn [growthEvents].
  assert (Hs' : blocksOk (State.setScriptBlocks (fun prev => prev ++ [b]) s)).
  { unfold blocksOk in *. cbn. apply Forall_app. split; [assumption|].
    now constructor. }
  constructor; [exact I|]. constructor; [exact Hs'|]. now apply IH.
Qed.

Lemma plainEvent_blocksWritten body :
  Forall plainEvent body -> Forall blocksWritten body.
Proof.
  apply Forall_impl. intros [r|[] s|k e]; cbn; tauto.
Qed.

Lemma click_blocksWritten svc k w :
  Forall blocksWritten (eventsSince w (App.click svc k w)).
Proof.
  destruct (isEmpty (State.bookTitle (store w))) eqn:Htitle.
  { rewrite click_blocked by assumption.
    rewrite (eventsSince_app w _ [Wrote Cell.error
               (State.setError (fun _ => Some titleMissing) (store w))])
      by reflexivity.
    repeat constructor. }
  destruct (Key.eqb k Key.script) eqn:Hk.
  - assert (k = Key.script) as -> by (destruct k; (reflexivity || discriminate)).
    destruct (script_click svc w Htitle)
      as (cur & blocks & pre & sPre & tail & Hev & Hpre & Hnil & Hrel & _ & _
          & _ & _ & _ & _ & _ & Htail).
    rewrite Hev. repeat (apply Forall_app; split).
    + repeat constructor.
    + destruct Hpre as [->|[->| ->]]; repeat constructor.
    + apply growthEvents_blocksWritten; [|assumption].
      unfold blocksOk. rewrite Hnil. constructor.
    + destruct Htail as [[-> _]|(e & sE & _ & _ & [->|(it & _ & ->)])];
        repeat constructor.
  - assert (Hne : k <> Key.script) by (intros ->; discriminate).
    destruct (other_click svc k w Hne Htitle)
      as (body & tail & Hev & Hbody & _ & _ & Htail).
    rewrite Hev. repeat (apply Forall_app; split).
    + repeat constructor.
    + now apply plainEvent_blocksWritten.
    + destruct Htail as [[-> _]|(e & sE & -> & _)]; repeat constructor.
Qed.

Lemma click_blocksOk svc k w :
  blocksOk (store w) -> blocksOk (store (App.click svc k w)).
Proof.
  intro Hok.
  destruct (isEmpty (State.bookTitle (store w))) eqn:Htitle.
  { rewrite click_blocked by assumption. exact Hok. }
  destruct (Key.eqb k Key.script) eqn:Hk.
  - assert (k = Key.script) as -> by (destruct k; (reflexivity || discriminate)).
    destruct (script_click svc w Htitle)
      as (cur & blocks & pre & sPre & tail & _ & _ & _ & Hrel & _ & _
          & Hblocks & _).
    unfold blocksOk. rewrite Hblocks.
    now destruct (Forall2_blockOf_index _ _ Hrel) as (_ & _ & H).
  - assert (Hne : k <> Key.script) by (intros ->; discriminate).
    destruct (other_click svc k w Hne Htitle) as (body & tail & _ & _ & Hsame & _).
    unfold blocksOk. now rewrite Hsame.
Qed.

(** C5.  The block appended for an item has [chars] equal to the length
    of the text received for it, whatever the target was.  Hence every
    list written to the script-block cell, in any run of any handler, and
    every state of any session has [chars = text.length] in all blocks. *)
Theorem chars_is_text_length :
  (forall svc c target item w text,
     replyScriptBlock svc (calls (log w))
       (generateScriptBlock item (State.bookTitle c) target []) = inr text ->
     State.scriptBlocks (store (snd (App.writeBlock svc c target item w)))
     = State.scriptBlocks (store w)
       ++ [ScriptBlock.make (OutlineItem.index item + 1) (OutlineItem.title item)
             text (lengthOf text)])
  /\ (forall svc k w,
        Forall (fun e => match e with
                         | Wrote Cell.scriptBlocks s =>
                             Forall (fun b => ScriptBlock.chars b
                                              = lengthOf (ScriptBlock.text b))
                                    (State.scriptBlocks s)
                         | _ => True
                         end)
               (eventsSince w (App.click svc k w)))
  /\ (forall w, reachable w ->
        Forall (fun b => ScriptBlock.chars b = lengthOf (ScriptBlock.text b))
               (State.scriptBlocks (store w))).
Proof.
  split; [|split].
  - intros svc c target item w text Hreply.
    rewrite writeBlock_run. cbv zeta. rewrite Hreply. reflexivity.
  - intros svc k w. exact (click_blocksWritten svc k w).
  - intros w Hw. induction Hw as [|svc k w _ IH|w s _ IH Hres _ _].
    + constructor.
    + now apply click_blocksOk.
    + unfold results in Hres. injection Hres as _ _ Hb _ _.
      cbn [store]. now rewrite Hb.
Qed.

Lemma chars_is_text_length_witness :
  State.scriptBlocks
    (store (snd (App.writeBlock demoService titled 20000
                   (OutlineItem.make 0 (lit "Hook") (lit "Open") [])
                   (mkWorld titled []))))
  = [ScriptBlock.make 1 (lit "Hook") (lit "Xin chào") 8].
Proof.
  apply (proj1 chars_is_text_length demoService titled 20000
           (OutlineItem.make 0 (lit "Hook") (lit "Open") [])
           (mkWorld titled []) (lit "Xin chào")).
  reflexivity.
Defined.

(** The script handler empties the list of blocks before anything can
    fail: a failed run does not leave the earlier blocks in place. *)
Lemma failure_frame_counterexample :
  let w := mkWorld worked [] in
  let w' := App.click flakyService Key.script w in
  In (ConsoleError Key.script (ErrorObject (lit "503"))) (eventsSince w w')
  /\ LoadingStates.get Key.script (State.loading (store w')) = false
  /\ State.scriptBlocks (store w) = [ScriptBlock.make 1 (lit "Hook") (lit "old") 3]
  /\ State.scriptBlocks (store w') = []
  /\ results (store w') <> results (store w).
Proof.
  cbv zeta. split; [|split; [|split; [|split]]].
  - vm_compute. auto 10.
  - reflexivity.
  - reflexivity.
  - reflexivity.
  - vm_compute. discriminate.
Qed.

(** C4, as the code has it.  A failure raised inside the body of an
    operation clears the busy flag of that operation, shows the failure
    message, and leaves the SEO result, the video prompts and the
    thumbnail ideas as they were.  The outline, SEO and prompt operations
    leave the outline and the script blocks as they were, too.  The
    script operation keeps a stored outline, and leaves as script blocks
    the blocks of the items completed in the failed run, in outline
    order. *)
Theorem failure_frame svc k w e :
  In (ConsoleError k e) (eventsSince w (App.click svc k w)) ->
  let s := store w in
  let s' := store (App.click svc k w) in
  LoadingStates.get k (State.loading s') = false
  /\ State.error s' = Some (failureMessage k e)
  /\ State.seo s' = State.seo s
  /\ State.videoPrompts s' = State.videoPrompts s
  /\ State.thumbTextIdeas s' = State.thumbTextIdeas s
  /\ (k <> Key.script -> results s' = results s)
  /\ (k = Key.script ->
      (State.outline s <> [] -> State.outline s' = State.outline s)
      /\ Forall2 blockOf
           (firstn (List.length (State.scriptBlocks s')) (State.outline s'))
           (State.scriptBlocks s')).
Proof.
  intros Hin s s'. subst s s'.
  destruct (isEmpty (State.bookTitle (store w))) eqn:Htitle.
  { exfalso. rewrite click_blocked in Hin by assumption.
    rewrite (eventsSince_app w _ [Wrote Cell.error
               (State.setError (fun _ => Some titleMissing) (store w))])
      in Hin by reflexivity.
    destruct Hin as [Hin|[]]. discriminate. }
  destruct (Key.eqb k Key.script) eqn:Hk.
  - assert (k = Key.script) as -> by (destruct k; (reflexivity || discriminate)).
    destruct (script_click svc w Htitle)
      as (cur & blocks & pre & sPre & tail & Hev & Hpre & Hnil & Hrel & Hcur
          & Hstored & Hblocks & Hseo & Hvp & Hth & Hload & Htail).
    rewrite Hev in Hin.
    assert (Hintail : In (ConsoleError Key.script e) tail).
    { cbn [app In] in Hin.
      destruct Hin as [Hin|[Hin|[Hin|Hin]]]; try discriminate.
      apply in_app_or in Hin as [Hin|Hin].
      { destruct Hpre as [->|[->| ->]]; cbn [In] in Hin; intuition discriminate. }
      apply in_app_or in Hin as [Hin|Hin]; [|assumption].
      now apply growthEvents_no_console in Hin. }
    assert (Herr : State.error (store (App.click svc Key.script w))
                   = Some (failureMessage Key.script e)).
    { destruct Htail as [[-> _]|(e' & sE & Herr & _ & [->|(it & _ & ->)])];
        cbn [In] in Hintail.
      - intuition discriminate.
      - destruct Hintail as [H|[H|[H|[]]]]; try discriminate.
        injection H as <-. exact Herr.
      - destruct Hintail as [H|[H|[H|[H|[]]]]]; try discriminate.
        injection H as <-. exact Herr. }
    repeat (split; [assumption|]). split; [congruence|].
    intros _. rewrite Hcur, Hblocks. split; [|assumption].
    intro Hne. now rewrite (Hstored Hne).
  - assert (Hne : k <> Key.script) by (intros ->; discriminate).
    destruct (other_click svc k w Hne Htitle)
      as (body & tail & Hev & Hbody & Hsame & Hload & Htail).
    rewrite Hev in Hin.
    assert (Hintail : In (ConsoleError k e) tail).
    { cbn [app In] in Hin.
      destruct Hin as [Hin|[Hin|Hin]]; try discriminate.
      apply in_app_or in Hin as [Hin|Hin]; [|assumption].
      now apply plainEvent_no_console in Hin. }
    destruct Htail as [[-> _]|(e' & sE & -> & Herr & Hres)]; cbn [In] in Hintail.
    { intuition discriminate. }
    destruct Hintail as [H|[H|[H|[]]]]; try discriminate.
    injection H as <-.
    pose proof Hres as Hres'. unfold results in Hres'.
    injection Hres' as _ Hseo _ Hvp Hth.
    repeat (split; [assumption|]). split; [intros _; assumption|].
    intro Heq. congruence.
Qed.

Lemma failure_frame_witness :
  let s := worked in
  let s' := store (App.click flakyService Key.script (mkWorld worked [])) in
  LoadingStates.get Key.script (State.loading s') = false
  /\ State.error s' = Some (failureMessage Key.script (ErrorObject (lit "503")))
  /\ State.seo s' = State.seo s
  /\ State.videoPrompts s' = State.videoPrompts s
  /\ State.thumbTextIdeas s' = State.thumbTextIdeas s
  /\ (Key.script <> Key.script -> results s' = results s)
  /\ (Key.script = Key.script ->
      (State.outline s <> [] -> State.outline s' = State.outline s)
      /\ Forall2 blockOf
           (firstn (List.length (State.scriptBlocks s')) (State.outline s'))
           (State.scriptBlocks s')).
Proof.
  apply (failure_frame flakyService Key.script (mkWorld worked [])
           (ErrorObject (lit "503"))).
  vm_compute. auto 10.
Defined.

(** ** The two parallel requests of the prompt handler *)




(** ** The precondition gate of the revision with the key manager *)








Lemma keyed_handler_body svc c k :
  AppWithKeys.handler svc c k
  = AppWithKeys.withErrorHandling c (AppWithKeys.body svc c k) k.
Proof. destruct k; reflexivity. Qed.

Lemma keyed_wrapper_blocked c fn k w :
  gateFails c = true ->
  AppWithKeys.withErrorHandling c fn k w
  = (inr None,
     wrote Cell.error
       (State.setError (fun _ => Some (if isEmpty (State.bookTitle c)
                                       then titleMissing else openAIKeyMissing))) w).
Proof.
  unfold gateFails, AppWithKeys.withErrorHandling.
  destruct (isEmpty (State.bookTitle c)); [reflexivity|].
  cbn [orb]. intros ->. reflexivity.
Qed.

Lemma keyed_wrapper_passes c fn k w :
  gateFails c = false ->
  AppWithKeys.withErrorHandling c fn k w
  = match fn (begin k w) with
    | (inr _, w2) => (inr (Some tt), finish k w2)
    | (inl e, w2) => (inr None, finish k (caught k e w2))
    end.
Proof.
  unfold gateFails, AppWithKeys.withErrorHandling.
  destruct (isEmpty (State.bookTitle c)); [discriminate|].
  cbn [orb]. intros ->.
  unfold setError, setLoading. step.
  unfold tryCatchFinally, emit, ret.
  change (wrote Cell.loading (State.setLoading (LoadingStates.set k true))
            (wrote Cell.error (State.setError (fun _ => None)) w))
    with (begin k w).
  destruct (fn (begin k w)) as [[e|[]] w2]; reflexivity.
Qed.




(* ================================================================= *)
(** ** The CSV export *)

Lemma join_separatedBy sep parts : join sep parts = separatedBy sep parts.
Proof.
  induction parts as [|p rest IH]; [reflexivity|].
  destruct rest as [|q rest'].
  - cbn. now rewrite app_nil_r.
  - change (join sep (p :: q :: rest')) with (p ++ sep ++ join sep (q :: rest')).
    rewrite IH. cbn [separatedBy flat_map]. now rewrite <- app_assoc.
Qed.

Lemma doubleQuotes_flat_map v :
  App.doubleQuotes v
  = List.flat_map (fun ch => if ch =? dquote then [dquote; dquote] else [ch]) v.
Proof.
  induction v as [|ch v IH]; [reflexivity|].
  cbn [App.doubleQuotes flat_map]. rewrite IH.
  destruct (ch =? dquote); reflexivity.
Qed.

Lemma quoteField_spec v : App.quoteField v = quotedSpec v.
Proof. unfold App.quoteField, quotedSpec. now rewrite doubleQuotes_flat_map. Qed.

Lemma readQuoted_doubleQuotes v after :
  startsWith after [dquote] = false ->
  readQuoted (App.doubleQuotes v ++ [dquote] ++ after) = Some (v, after).
Proof.
  intro Hafter. induction v as [|ch v IH].
  - cbn [App.doubleQuotes app readQuoted]. rewrite Z.eqb_refl.
    destruct after as [|d after']; [reflexivity|].
    cbn [startsWith] in Hafter.
    replace (startsWith after' []) with true in Hafter
      by (destruct after'; reflexivity).
    rewrite andb_true_r, Z.eqb_sym in Hafter. now rewrite Hafter.
  - cbn [App.doubleQuotes]. destruct (ch =? dquote) eqn:E.
    + apply Z.eqb_eq in E. subst ch.
      cbn [app readQuoted]. rewrite !Z.eqb_refl.
      change (readQuoted (App.doubleQuotes v ++ dquote :: after))
        with (readQuoted (App.doubleQuotes v ++ [dquote] ++ after)).
      now rewrite IH.
    + cbn [app readQuoted]. rewrite E.
      change (readQuoted (App.doubleQuotes v ++ dquote :: after))
        with (readQuoted (App.doubleQuotes v ++ [dquote] ++ after)).
      now rewrite IH.
Qed.

Lemma utf8_encode_BOM rest :
  utf8_encode (BOM :: rest) = [239; 187; 191] ++ utf8_encode rest.
Proof. destruct rest; reflexivity. Qed.

(** C8.  The file handed to the browser has the given name and holds the
    UTF-8 encoding of the text: the three bytes of the byte-order mark,
    then the rows.  The text is the byte-order mark followed by the rows
    separated by CR LF, each row being its fields separated by commas,
    each field between double quotes with its double quotes doubled; a
    field can be read back from its rendering.  For the two rows of the
    example (a and b; then c,d and an e, a double quote, an f) the second
    row is rendered with the comma kept inside the quotes of its first
    field and the double quote of its second field doubled (code units
    34 99 44 100 34 44 34 101 34 34 102 34). *)
Theorem downloadCSV_format :
  (forall name rows,
     filename (App.downloadCSV name rows) = name
     /\ content (App.downloadCSV name rows)
        = [239; 187; 191]
          ++ utf8_encode (join [CR; LF] (List.map App.processRow rows)))
  /\ (forall rows, App.csvContent rows = csvSpec rows)
  /\ (forall v after,
        startsWith after [dquote] = false ->
        readField (App.quoteField v ++ after) = Some (v, after))
  /\ List.map App.processRow
       [[lit "a"; lit "b"]; [lit "c,d"; [101; 34; 102]]]
     = [ [34; 97; 34; 44; 34; 98; 34];
         [34; 99; 44; 100; 34; 44; 34; 101; 34; 34; 102; 34] ]
  /\ App.csvContent [[lit "a"; lit "b"]; [lit "c,d"; [101; 34; 102]]]
     = [65279; 34; 97; 34; 44; 34; 98; 34; 13; 10;
        34; 99; 44; 100; 34; 44; 34; 101; 34; 34; 102; 34].
Proof.
  split; [|split; [|split; [|split]]].
  - intros name rows. split; [reflexivity|].
    unfold App.downloadCSV, App.csvContent. cbn [content app].
    apply utf8_encode_BOM.
  - intro rows. unfold App.csvContent, csvSpec. cbn [app].
    rewrite join_separatedBy. do 2 f_equal.
    apply map_ext. intro row. unfold App.processRow.
    rewrite join_separatedBy. f_equal.
    apply map_ext. exact quoteField_spec.
  - intros v after Hafter. unfold App.quoteField, readField.
    cbn [app]. rewrite Z.eqb_refl.
    rewrite <- app_assoc. now apply readQuoted_doubleQuotes.
  - reflexivity.
  - reflexivity.
Qed.

Lemma downloadCSV_format_witness :
  readField (App.quoteField [101; 34; 102] ++ [comma])
  = Some ([101; 34; 102], [comma]).
Proof.
  apply (proj1 (proj2 (proj2 downloadCSV_format)) [101; 34; 102] [comma]).
  reflexivity.
Defined.

(* ================================================================= *)
(** * Further properties of the component *)

(** ** What the handlers leave alone *)

Lemma keeps_ret {A X} (f : State.t -> X) (a : A) : keeps f (ret a).
Proof. intro w. reflexivity. Qed.

Lemma keeps_bind {A B X} (f : State.t -> X) (m : Async A) (k : A -> Async B) :
  keeps f m -> (forall a, keeps f (k a)) -> keeps f (bind m k).
Proof.
  intros Hm Hk w. rewrite bind_run. specialize (Hm w).
  destruct (m w) as [[e|a] w1]; cbn [snd] in *; [assumption|].
  now rewrite (Hk a w1).
Qed.

Lemma keeps_update {X} (f : State.t -> X) cell g :
  (forall s, f (g s) = f s) -> keeps f (update cell g).
Proof. intros H w. cbn. apply H. Qed.

Lemma keeps_emit {X} (f : State.t -> X) e : keeps f (emit e).
Proof. intro w. reflexivity. Qed.

Lemma keeps_invoke {A X} (f : State.t -> X)
    (reply : list Request -> Request -> Promise A) r :
  keeps f (invoke reply r).
Proof. intro w. reflexivity. Qed.

Lemma keeps_await {A X} (f : State.t -> X) (p : Promise A) : keeps f (await p).
Proof. intro w. reflexivity. Qed.

Lemma keeps_forOf {A X} (f : State.t -> X) (l : list A) (body : A -> Async unit) :
  (forall x, keeps f (body x)) -> keeps f (forOf l body).
Proof.
  intro H. induction l as [|x l IH]; cbn [forOf].
  - apply keeps_ret.
  - apply keeps_bind; auto.
Qed.

Lemma keeps_tryCatchFinally {A X} (f : State.t -> X) (body : Async A)
    (handler : Exn -> Async unit) (final : Async unit) :
  keeps f body -> (forall e, keeps f (handler e)) -> keeps f final ->
  keeps f (tryCatchFinally body handler final).
Proof.
  intros Hb Hh Hf w. unfold tryCatchFinally, bind, ret. specialize (Hb w).
  destruct (body w) as [[e|a] w1]; cbn [snd] in Hb.
  - specialize (Hh e w1). destruct (handler e w1) as [[e'|u] w2];
      cbn [snd] in Hh; specialize (Hf w2);
      destruct (final w2) as [[e''|u'] w3]; cbn [snd] in *; congruence.
  - specialize (Hf w1).
    destruct (final w1) as [[e''|u'] w3]; cbn [snd] in *; congruence.
Qed.

Ltac keeps_step :=
  first
    [ apply keeps_ret
    | apply keeps_invoke
    | apply keeps_await
    | apply keeps_emit
    | apply keeps_update; intro; reflexivity
    | apply keeps_bind; [|intro]
    | apply keeps_forOf; intro
    | apply keeps_tryCatchFinally; [|intro|]
    | match goal with
      | |- keeps _ (if ?b then _ else _) => destruct b
      | |- keeps _ (let '(_, _) := ?p in _) => destruct p
      | |- keeps _ (fun w => await _ w) => intro; reflexivity
      end ].

Ltac unfold_setters :=
  unfold setOutline, setSeo, setScriptBlocks, setVideoPrompts,
    setThumbTextIdeas, setLoading, setError.

(** The wrappers add nothing to what their body touches, but the message
    and the busy flags. *)
Lemma keeps_wrapper {X} (f : State.t -> X) c fn k :
  (forall g s, f (State.setError g s) = f s) ->
  (forall g s, f (State.setLoading g s) = f s) ->
  keeps f fn -> keeps f (App.withErrorHandling c fn k).
Proof.
  intros He Hl Hfn. unfold App.withErrorHandling. unfold_setters.
  destruct (isEmpty (State.bookTitle c));
    repeat first [ assumption
                 | apply keeps_update; intro; (apply He || apply Hl)
                 | keeps_step ].
Qed.

Lemma keeps_keyed_wrapper {X} (f : State.t -> X) c fn k :
  (forall g s, f (State.setError g s) = f s) ->
  (forall g s, f (State.setLoading g s) = f s) ->
  keeps f fn -> keeps f (AppWithKeys.withErrorHandling c fn k).
Proof.
  intros He Hl Hfn. unfold AppWithKeys.withErrorHandling. unfold_setters.
  destruct (isEmpty (State.bookTitle c));
    [|destruct (startsWith (State.selectedModel c) (lit "gpt")
                && isEmpty (State.apiKeyOpenAI c))];
    repeat first [ assumption
                 | apply keeps_update; intro; (apply He || apply Hl)
                 | keeps_step ].
Qed.

Lemma body_keeps_inputs svc c k : keeps inputs (App.body svc c k).
Proof.
  destruct k; cbn [App.body];
    unfold App.outlineBody, App.seoBody, App.scriptBody, App.promptsBody,
      App.writeBlock; unfold_setters; repeat keeps_step.
Qed.

Lemma keyed_body_keeps_inputs svc c k : keeps inputs (AppWithKeys.body svc c k).
Proof.
  destruct k; cbn [AppWithKeys.body];
    unfold AppWithKeys.outlineBody, AppWithKeys.seoBody, AppWithKeys.scriptBody,
      AppWithKeys.promptsBody, AppWithKeys.writeBlock; unfold_setters;
    repeat keeps_step.
Qed.

(** X1.  No handler, in either revision, whatever the service answers,
    changes the title, the frame ratio, the duration, the chapter count,
    the selected model or a key. *)
Theorem handlers_keep_inputs svc k w :
  inputs (store (App.click svc k w)) = inputs (store w)
  /\ inputs (store (AppWithKeys.click svc k w)) = inputs (store w).
Proof.
  split.
  - unfold App.click. rewrite handler_body.
    apply (keeps_wrapper inputs); [reflexivity | reflexivity |].
    apply body_keeps_inputs.
  - unfold AppWithKeys.click. rewrite keyed_handler_body.
    apply (keeps_keyed_wrapper inputs); [reflexivity | reflexivity |].
    apply keyed_body_keeps_inputs.
Qed.

Ltac unfold_bodies :=
  unfold App.outlineBody, App.seoBody, App.scriptBody, App.promptsBody,
    App.writeBlock, AppWithKeys.outlineBody, AppWithKeys.seoBody,
    AppWithKeys.scriptBody, AppWithKeys.promptsBody, AppWithKeys.writeBlock;
  unfold_setters.

Ltac keeps_bodies k :=
  destruct k; try congruence; cbn [App.body AppWithKeys.body];
  unfold_bodies; repeat keeps_step.

Lemma click_keeps {X} (f : State.t -> X) svc k w :
  (forall g s, f (State.setError g s) = f s) ->
  (forall g s, f (State.setLoading g s) = f s) ->
  keeps f (App.body svc (store w) k) ->
  keeps f (AppWithKeys.body svc (store w) k) ->
  f (store (App.click svc k w)) = f (store w)
  /\ f (store (AppWithKeys.click svc k w)) = f (store w).
Proof.
  intros He Hl Hb Hkb. split.
  - unfold App.click. rewrite handler_body. now apply (keeps_wrapper f).
  - unfold AppWithKeys.click. rewrite keyed_handler_body.
    now apply (keeps_keyed_wrapper f).
Qed.

(** X2.  Which operation writes which result, in both revisions and
    whatever happens: the outline is written by the outline and script
    operations only, the SEO result by the SEO operation only, the script
    blocks by the script operation only, the video prompts and thumbnail
    ideas by the prompt operation only. *)
Theorem results_have_owners svc k w :
  (k <> Key.outline -> k <> Key.script ->
   State.outline (store (App.click svc k w)) = State.outline (store w)
   /\ State.outline (store (AppWithKeys.click svc k w)) = State.outline (store w))
  /\ (k <> Key.seo ->
      State.seo (store (App.click svc k w)) = State.seo (store w)
      /\ State.seo (store (AppWithKeys.click svc k w)) = State.seo (store w))
  /\ (k <> Key.script ->
      State.scriptBlocks (store (App.click svc k w)) = State.scriptBlocks (store w)
      /\ State.scriptBlocks (store (AppWithKeys.click svc k w))
         = State.scriptBlocks (store w))
  /\ (k <> Key.prompts ->
      (State.videoPrompts (store (App.click svc k w)) = State.videoPrompts (store w)
       /\ State.videoPrompts (store (AppWithKeys.click svc k w))
          = State.videoPrompts (store w))
      /\ (State.thumbTextIdeas (store (App.click svc k w))
          = State.thumbTextIdeas (store w)
          /\ State.thumbTextIdeas (store (AppWithKeys.click svc k w))
             = State.thumbTextIdeas (store w))).
Proof.
  split; [|split; [|split]].
  - intros H1 H2. apply click_keeps; try reflexivity; keeps_bodies k.
  - intros H. apply click_keeps; try reflexivity; keeps_bodies k.
  - intros H. apply click_keeps; try reflexivity; keeps_bodies k.
  - intros H. split; apply click_keeps; try reflexivity; keeps_bodies k.
Qed.

Lemma results_have_owners_witness :
  State.seo (store (App.click flakyService Key.script (mkWorld worked [])))
  = Some demoSEO
  /\ State.seo (store (AppWithKeys.click flakyService Key.script (mkWorld worked [])))
     = Some demoSEO.
Proof.
  apply (proj1 (proj2 (results_have_owners flakyService Key.script
                         (mkWorld worked [])))).
  discriminate.
Defined.

(** ** The busy flags *)

Lemma set_set k a b l :
  LoadingStates.set k a (LoadingStates.set k b l) = LoadingStates.set k a l.
Proof. destruct k; reflexivity. Qed.

Lemma set_false_initial k :
  LoadingStates.set k false INITIAL_LOADING_STATES = INITIAL_LOADING_STATES.
Proof. destruct k; reflexivity. Qed.

Lemma body_keeps_loading svc c k : keeps State.loading (App.body svc c k).
Proof. keeps_bodies k. Qed.

Lemma keyed_body_keeps_loading svc c k :
  keeps State.loading (AppWithKeys.body svc c k).
Proof. keeps_bodies k. Qed.

Lemma click_loading svc k w :
  State.loading (store (App.click svc k w))
  = if isEmpty (State.bookTitle (store w)) then State.loading (store w)
    else LoadingStates.set k false (State.loading (store w)).
Proof.
  destruct (isEmpty (State.bookTitle (store w))) eqn:Htitle.
  - now rewrite click_blocked.
  - rewrite click_passes by assumption.
    pose proof (body_keeps_loading svc (store w) k (begin k w)) as H.
    destruct (App.body svc (store w) k (begin k w)) as [[e|u] w2];
      cbn [snd] in H;
      cbn [finish caught logged wrote store State.setLoading State.setError
           State.loading];
      rewrite H; cbn [begin wrote store State.setLoading State.setError
                      State.loading]; apply set_set.
Qed.

(** X3.  The busy flags after a click, whatever the service answers: a
    blocked operation leaves them as they were; an operation that went
    through leaves its own flag off and the flags of the other operations
    as they were.  So in a session in which every handler has returned,
    no flag is left on. *)
Theorem busy_flags svc k w :
  State.loading (store (App.click svc k w))
  = (if isEmpty (State.bookTitle (store w)) then State.loading (store w)
     else LoadingStates.set k false (State.loading (store w)))
  /\ State.loading (store (AppWithKeys.click svc k w))
     = (if gateFails (store w) then State.loading (store w)
        else LoadingStates.set k false (State.loading (store w)))
  /\ (forall w0, reachable w0 -> State.loading (store w0) = INITIAL_LOADING_STATES).
Proof.
  split; [apply click_loading|]. split.
  - unfold AppWithKeys.click. rewrite keyed_handler_body.
    destruct (gateFails (store w)) eqn:Hgate.
    + now rewrite keyed_wrapper_blocked.
    + rewrite keyed_wrapper_passes by assumption.
      pose proof (keyed_body_keeps_loading svc (store w) k (begin k w)) as H.
      destruct (AppWithKeys.body svc (store w) k (begin k w)) as [[e|u] w2];
        cbn [snd] in H |- *;
        cbn [finish caught logged wrote store State.setLoading State.setError
             State.loading];
        rewrite H; cbn [begin wrote store State.setLoading State.setError
                        State.loading]; apply set_set.
  - intros w0 Hw. induction Hw as [|svc' k' w' _ IH|w' s _ IH _ Hl _].
    + reflexivity.
    + rewrite click_loading, IH.
      destruct (isEmpty _); [reflexivity | apply set_false_initial].
    + cbn [store]. now rewrite Hl.
Qed.

Lemma busy_flags_witness :
  State.loading (store (App.click flakyService Key.script (mkWorld titled [])))
  = INITIAL_LOADING_STATES.
Proof.
  apply (proj2 (proj2 (busy_flags demoService Key.seo (mkWorld titled [])))).
  apply reach_click.
  apply (reach_edit (mkWorld State.initial []) titled reach_initial);
    reflexivity.
Defined.

(** ** What the handlers ask of the service *)

Lemma emits_weaken {A} (P Q : Event -> Prop) (m : Async A) :
  (forall e, P e -> Q e) -> emits P m -> emits Q m.
Proof.
  intros H Hm w. destruct (Hm w) as (evs & Hlog & Hall).
  exists evs. split; [assumption|]. revert Hall. now apply Forall_impl.
Qed.

Lemma emits_ret {A} P (a : A) : emits P (ret a).
Proof. intro w. exists []. cbn. now rewrite app_nil_r. Qed.

Lemma emits_bind {A B} P (m : Async A) (k : A -> Async B) :
  emits P m -> (forall a, emits P (k a)) -> emits P (bind m k).
Proof.
  intros Hm Hk w. rewrite bind_run.
  destruct (Hm w) as (evs & Hevs & Hall).
  destruct (m w) as [[e|a] w1]; cbn [snd] in *.
  - now exists evs.
  - destruct (Hk a w1) as (evs' & Hevs' & Hall'). exists (evs ++ evs').
    split; [now rewrite Hevs', Hevs, <- app_assoc|].
    apply Forall_app. now split.
Qed.

Lemma emits_update (P : Event -> Prop) cell g :
  (forall s, P (Wrote cell s)) -> emits P (update cell g).
Proof. intros H w. eexists. split; [reflexivity|]. constructor; auto. Qed.

Lemma emits_emit (P : Event -> Prop) e : P e -> emits P (emit e).
Proof. intros H w. eexists. split; [reflexivity|]. constructor; auto. Qed.

Lemma emits_invoke {A} (P : Event -> Prop)
    (reply : list Request -> Request -> Promise A) r :
  P (Called r) -> emits P (invoke reply r).
Proof. intros H w. eexists. split; [reflexivity|]. constructor; auto. Qed.

Lemma emits_await {A} P (p : Promise A) : emits P (await p).
Proof. intro w. exists []. cbn. now rewrite app_nil_r. Qed.

Lemma emits_forOf {A} P (l : list A) (body : A -> Async unit) :
  (forall x, emits P (body x)) -> emits P (forOf l body).
Proof.
  intro H. induction l as [|x l IH]; cbn [forOf].
  - apply emits_ret.
  - apply emits_bind; auto.
Qed.

Ltac emits_step :=
  first
    [ apply emits_ret
    | apply emits_await
    | apply emits_invoke; cbn; auto
    | apply emits_update; intro; exact I
    | apply emits_bind; [|intro]
    | apply emits_forOf; intro
    | match goal with
      | |- emits _ (if ?b then _ else _) => destruct b
      | |- emits _ (let '(_, _) := ?p in _) => destruct p
      | |- emits _ (fun w => await _ w) =>
          let w := fresh "w" in
          intro w; exists []; cbn; rewrite app_nil_r; split; [reflexivity|constructor]
      end ].

Lemma body_emits svc c k :
  emits (requestFor (State.bookTitle c) []) (App.body svc c k).
Proof.
  destruct k; cbn [App.body]; unfold_bodies; repeat emits_step.
Qed.

Lemma keyed_body_emits svc c k :
  emits (requestFor (State.bookTitle c) [State.selectedModel c; State.apiKeyGemini c])
        (AppWithKeys.body svc c k).
Proof.
  destruct k; cbn [AppWithKeys.body]; unfold_bodies; unfold AppWithKeys.extra;
    repeat emits_step.
Qed.

Lemma body_keeps_error svc c k : keeps State.error (App.body svc c k).
Proof. keeps_bodies k. Qed.

Lemma keyed_body_keeps_error svc c k :
  keeps State.error (AppWithKeys.body svc c k).
Proof. keeps_bodies k. Qed.

(** The events and the message of an operation that went through the
    gate, for any body that logs requests and writes only and leaves the
    message alone. *)
Lemma run_shape (P : Event -> Prop) (fn : Async unit) k w :
  emits P fn -> keeps State.error fn ->
  exists body tail,
    eventsSince w
      match fn (begin k w) with
      | (inr _, w2) => finish k w2
      | (inl e, w2) => finish k (caught k e w2)
      end
    = [Wrote Cell.error (State.setError (fun _ => None) (store w));
       Wrote Cell.loading (store (begin k w))] ++ body ++ tail
    /\ Forall P body
    /\ ((exists sF, tail = [Wrote Cell.loading sF]
         /\ State.error (store
              match fn (begin k w) with
              | (inr _, w2) => finish k w2
              | (inl e, w2) => finish k (caught k e w2)
              end) = None)
        \/ exists e sE sF,
             tail = [ConsoleError k e; Wrote Cell.error sE; Wrote Cell.loading sF]
             /\ State.error (store
                  match fn (begin k w) with
                  | (inr _, w2) => finish k w2
                  | (inl e, w2) => finish k (caught k e w2)
                  end) = Some (failureMessage k e)).
Proof.
  intros Hem Hkeep.
  destruct (Hem (begin k w)) as (body & Hlog & Hall).
  specialize (Hkeep (begin k w)).
  assert (Hlogb : log (begin k w) = log w ++
            [Wrote Cell.error (State.setError (fun _ => None) (store w));
             Wrote Cell.loading (store (begin k w))]).
  { unfold begin, wrote. cbn [log store]. now rewrite <- !app_assoc. }
  destruct (fn (begin k w)) as [[e|u] w2]; cbn [snd] in *.
  - exists body. eexists. split.
    { apply eventsSince_app. cbn [finish caught logged wrote log store].
      rewrite Hlog, Hlogb. rewrite <- !app_assoc. reflexivity. }
    split; [assumption|]. right. do 3 eexists. split; reflexivity.
  - exists body. eexists. split.
    { apply eventsSince_app. cbn [finish wrote log store].
      rewrite Hlog, Hlogb. rewrite <- !app_assoc. reflexivity. }
    split; [assumption|]. left. eexists. split; [reflexivity|].
    cbn [finish wrote store State.setLoading State.error]. rewrite Hkeep.
    reflexivity.
Qed.

Lemma keyed_click_passes svc k w :
  gateFails (store w) = false ->
  AppWithKeys.click svc k w
  = match AppWithKeys.body svc (store w) k (begin k w) with
    | (inr _, w2) => finish k w2
    | (inl e, w2) => finish k (caught k e w2)
    end.
Proof.
  intro H. unfold AppWithKeys.click.
  rewrite keyed_handler_body, keyed_wrapper_passes by assumption.
  destruct (AppWithKeys.body svc (store w) k (begin k w)) as [[e|u] w2];
    reflexivity.
Qed.

Lemma keyed_click_blocked svc k w :
  gateFails (store w) = true ->
  AppWithKeys.click svc k w
  = wrote Cell.error
      (State.setError (fun _ => Some (if isEmpty (State.bookTitle (store w))
                                      then titleMissing else openAIKeyMissing))) w.
Proof.
  intro H. unfold AppWithKeys.click.
  now rewrite keyed_handler_body, keyed_wrapper_blocked.
Qed.

Lemma requestFor_called t x body r :
  Forall (requestFor t x) body -> In (Called r) body ->
  titleOf r = t /\ extraOf r = x.
Proof. intros H Hin. rewrite Forall_forall in H. exact (H _ Hin). Qed.

Lemma requestFor_no_console t x body k e :
  Forall (requestFor t x) body -> ~ In (ConsoleError k e) body.
Proof. intros H Hin. rewrite Forall_forall in H. exact (H _ Hin). Qed.

(** X4.  Every request that a handler makes is made for the title of the
    render in which the button was clicked.  The plain revision passes no
    further argument; the revision with the key manager passes the selected
    model and the Gemini key, for every model: the OpenAI key is an
    argument of no request. *)
Theorem requests_carry svc k w r :
  (In (Called r) (eventsSince w (App.click svc k w)) ->
   titleOf r = State.bookTitle (store w) /\ extraOf r = [])
  /\ (In (Called r) (eventsSince w (AppWithKeys.click svc k w)) ->
      titleOf r = State.bookTitle (store w)
      /\ extraOf r = [State.selectedModel (store w); State.apiKeyGemini (store w)]).
Proof.
  split; intro Hin.
  - destruct (isEmpty (State.bookTitle (store w))) eqn:Htitle.
    { exfalso. rewrite click_blocked in Hin by assumption.
      rewrite (eventsSince_app w _ [Wrote Cell.error
                 (State.setError (fun _ => Some titleMissing) (store w))])
        in Hin by reflexivity.
      destruct Hin as [Hin|[]]. discriminate. }
    rewrite click_passes in Hin by assumption.
    destruct (run_shape _ _ k w (body_emits svc (store w) k)
                (body_keeps_error svc (store w) k))
      as (body & tail & Hev & Hall & Htail).
    rewrite Hev in Hin. cbn [app In] in Hin.
    destruct Hin as [Hin|[Hin|Hin]]; try discriminate.
    apply in_app_or in Hin as [Hin|Hin];
      [exact (requestFor_called _ _ _ _ Hall Hin)|].
    exfalso.
    destruct Htail as [(sF & -> & _)|(e & sE & sF & -> & _)]; cbn [In] in Hin;
      intuition discriminate.
  - destruct (gateFails (store w)) eqn:Hgate.
    { exfalso. rewrite keyed_click_blocked in Hin by assumption.
      rewrite (eventsSince_app w _ [Wrote Cell.error
                 (State.setError (fun _ => Some
                    (if isEmpty (State.bookTitle (store w))
                     then titleMissing else openAIKeyMissing)) (store w))])
        in Hin by reflexivity.
      destruct Hin as [Hin|[]]. discriminate. }
    rewrite keyed_click_passes in Hin by assumption.
    destruct (run_shape _ _ k w (keyed_body_emits svc (store w) k)
                (keyed_body_keeps_error svc (store w) k))
      as (body & tail & Hev & Hall & Htail).
    rewrite Hev in Hin. cbn [app In] in Hin.
    destruct Hin as [Hin|[Hin|Hin]]; try discriminate.
    apply in_app_or in Hin as [Hin|Hin];
      [exact (requestFor_called _ _ _ _ Hall Hin)|].
    exfalso.
    destruct Htail as [(sF & -> & _)|(e & sE & sF & -> & _)]; cbn [In] in Hin;
      intuition discriminate.
Qed.

Lemma requests_carry_witness :
  titleOf (generateSEO (lit "Sapiens") 240 [lit "gpt-5.2-pro"; lit "gemini-key"])
  = lit "Sapiens"
  /\ extraOf (generateSEO (lit "Sapiens") 240 [lit "gpt-5.2-pro"; lit "gemini-key"])
     = [lit "gpt-5.2-pro"; lit "gemini-key"].
Proof.
  apply (proj2 (requests_carry demoService Key.seo (mkWorld withOpenAI [])
                  (generateSEO (lit "Sapiens") 240
                     [lit "gpt-5.2-pro"; lit "gemini-key"]))).
  vm_compute. auto 10.
Defined.

(** X5.  The message after a click in the revision with the key manager.
    An empty title gives the title message, whatever the model and the
    keys; a title with a ChatGPT model and no OpenAI key gives the key
    message.  An operation that went through the gate ends with no
    message when nothing was caught, also when a message was shown
    before, and with the failure message of what was caught otherwise. *)
Theorem message_after_click svc k w :
  let s := store w in
  let w' := AppWithKeys.click svc k w in
  (isEmpty (State.bookTitle s) = true -> State.error (store w') = Some titleMissing)
  /\ (isEmpty (State.bookTitle s) = false ->
      startsWith (State.selectedModel s) (lit "gpt") = true ->
      isEmpty (State.apiKeyOpenAI s) = true ->
      State.error (store w') = Some openAIKeyMissing)
  /\ (gateFails s = false ->
      (forall e, ~ In (ConsoleError k e) (eventsSince w w')) ->
      State.error (store w') = None)
  /\ (gateFails s = false ->
      forall e, In (ConsoleError k e) (eventsSince w w') ->
      State.error (store w') = Some (failureMessage k e)).
Proof.
  intros s w'. subst s w'.
  split; [|split; [|split]].
  - intro Ht. rewrite keyed_click_blocked
      by (unfold gateFails; now rewrite Ht).
    cbn [wrote store State.setError State.error]. now rewrite Ht.
  - intros Ht Hm Hk. rewrite keyed_click_blocked
      by (unfold gateFails; now rewrite Ht, Hm, Hk).
    cbn [wrote store State.setError State.error]. now rewrite Ht.
  - intros Hgate Hnone.
    rewrite keyed_click_passes in * by assumption.
    destruct (run_shape _ _ k w (keyed_body_emits svc (store w) k)
                (keyed_body_keeps_error svc (store w) k))
      as (body & tail & Hev & Hall & [(sF & _ & Herr)|(e & sE & sF & -> & _)]);
      [assumption|].
    exfalso. apply (Hnone e). rewrite Hev.
    apply in_or_app; right. apply in_or_app; right. now left.
  - intros Hgate e Hin.
    rewrite keyed_click_passes in * by assumption.
    destruct (run_shape _ _ k w (keyed_body_emits svc (store w) k)
                (keyed_body_keeps_error svc (store w) k))
      as (body & tail & Hev & Hall & Htail).
    rewrite Hev in Hin. cbn [app In] in Hin.
    destruct Hin as [Hin|[Hin|Hin]]; try discriminate.
    apply in_app_or in Hin as [Hin|Hin];
      [now apply (requestFor_no_console _ _ _ _ _ Hall) in Hin|].
    destruct Htail as [(sF & -> & _)|(e' & sE & sF & -> & Herr)];
      cbn [In] in Hin.
    + intuition discriminate.
    + destruct Hin as [H|[H|[H|[]]]]; try discriminate.
      injection H as <-. exact Herr.
Qed.

Lemma message_after_click_witness :
  State.error (store (AppWithKeys.click demoService Key.seo
                        (mkWorld State.initial []))) = Some titleMissing
  /\ State.error (store (AppWithKeys.click demoService Key.seo
                           (mkWorld (State.setError (fun _ => None)
                              (State.make (lit "Sapiens") (lit "9:16") 240 12
                                 (lit "gpt-5.2-pro") (lit "gemini-key") []
                                 [] None [] [] [] INITIAL_LOADING_STATES None))
                              []))) = Some openAIKeyMissing
  /\ State.error (store (AppWithKeys.click demoService Key.seo
                           (mkWorld afterFailure []))) = None
  /\ State.error (store (AppWithKeys.click flakyService Key.script
                           (mkWorld worked [])))
     = Some (failureMessage Key.script (ErrorObject (lit "503"))).
Proof.
  split; [|split; [|split]].
  - apply (proj1 (message_after_click demoService Key.seo
                    (mkWorld State.initial []))).
    reflexivity.
  - apply (proj1 (proj2 (message_after_click demoService Key.seo _)));
      reflexivity.
  - apply (proj1 (proj2 (proj2 (message_after_click demoService Key.seo
                                  (mkWorld afterFailure []))))).
    + reflexivity.
    + intros e. vm_compute. intuition discriminate.
  - apply (proj2 (proj2 (proj2 (message_after_click flakyService Key.script
                                  (mkWorld worked []))))).
    + reflexivity.
    + vm_compute. auto 10.
Defined.

(** ** Script generation over a stored outline, and without an outline *)



(** X7.  A script generation that finds no outline and whose outline
    request is rejected makes that one request and no other.  It ends with
    no outline, no script block (the earlier blocks are gone), the failure
    message of the rejection and its busy flag off. *)
Theorem script_without_outline svc w e :
  isEmpty (State.bookTitle (store w)) = false ->
  State.outline (store w) = [] ->
  replyOutline svc (calls (log w)) (outlineRequest (store w)) = inl e ->
  let w' := App.click svc Key.script w in
  calls (eventsSince w w') = [outlineRequest (store w)]
  /\ State.outline (store w') = []
  /\ State.scriptBlocks (store w') = []
  /\ State.error (store w') = Some (failureMessage Key.script e)
  /\ LoadingStates.get Key.script (State.loading (store w')) = false.
Proof.
  intros Htitle Hempty Hreply w'. subst w'.
  rewrite click_passes by assumption. cbn [App.body].
  rewrite (scriptBody_rejected svc (store w) (begin Key.script w) e Hempty)
    by (now rewrite calls_cleared, calls_begin).
  split.
  - rewrite (eventsSince_app w _
      [Wrote Cell.error (State.setError (fun _ => None) (store w));
       Wrote Cell.loading (store (begin Key.script w));
       Wrote Cell.scriptBlocks (store (cleared (begin Key.script w)));
       Called (outlineRequest (store w));
       ConsoleError Key.script e;
       Wrote Cell.error (store (caught Key.script e
         (logged (Called (outlineRequest (store w))) (cleared (begin Key.script w)))));
       Wrote Cell.loading (store (finish Key.script (caught Key.script e
         (logged (Called (outlineRequest (store w)))
            (cleared (begin Key.script w))))))]).
    + reflexivity.
    + cbn [finish caught logged wrote cleared begin log store].
      now rewrite <- !app_assoc.
  - cbn [finish caught logged wrote cleared begin store State.setLoading
         State.setError State.setScriptBlocks State.outline State.scriptBlocks
         State.error State.loading].
    repeat split; try reflexivity; assumption.
Qed.

Lemma script_without_outline_witness :
  let w := mkWorld titled [] in
  let w' := App.click
              {| replyOutline := fun _ _ => inl (Thrown (lit "offline"));
                 replySEO := replySEO demoService;
                 replyScriptBlock := replyScriptBlock demoService;
                 replyVideoPrompts := replyVideoPrompts demoService;
                 replyThumbIdeas := replyThumbIdeas demoService;
                 thumbsRejectFirst := thumbsRejectFirst demoService |}
              Key.script w in
  calls (eventsSince w w') = [outlineRequest titled]
  /\ State.outline (store w') = []
  /\ State.scriptBlocks (store w') = []
  /\ State.error (store w')
     = Some (failureMessage Key.script (Thrown (lit "offline")))
  /\ LoadingStates.get Key.script (State.loading (store w')) = false.
Proof.
  apply (script_without_outline _ (mkWorld titled []) (Thrown (lit "offline")));
    reflexivity.
Defined.

(* ================================================================= *)
(** * Further properties of the export *)

(** ** Numbers in decimal *)

Lemma fold_decimal_digitsOf fuel : forall n acc,
  0 <= n < 2 ^ Z.of_nat fuel ->
  fold_left (fun a c => 10 * a + (c - 48)) (digitsOf fuel n acc) 0
  = fold_left (fun a c => 10 * a + (c - 48)) acc n.
Proof.
  induction fuel as [|fuel IH]; intros n acc Hn.
  - cbn in Hn. assert (n = 0) by lia. subst n. reflexivity.
  - cbn [digitsOf]. destruct (n <? 10) eqn:E.
    + cbn [fold_left]. f_equal.
      apply Z.ltb_lt in E. rewrite Z.mod_small by lia. lia.
    + apply Z.ltb_ge in E. rewrite IH.
      * cbn [fold_left]. f_equal.
        pose proof (Z.div_mod n 10). lia.
      * rewrite Nat2Z.inj_succ, Z.pow_succ_r in Hn by lia.
        split; [apply Z.div_pos; lia|].
        apply Z.div_lt_upper_bound; lia.
Qed.

Lemma digitsOf_digits fuel : forall n acc,
  0 <= n -> forallb isDigit acc = true ->
  forallb isDigit (digitsOf fuel n acc) = true.
Proof.
  induction fuel as [|fuel IH]; intros n acc Hn Hacc; [exact Hacc|].
  cbn [digitsOf].
  assert (Hd : forallb isDigit ((48 + n mod 10) :: acc) = true).
  { cbn [forallb]. rewrite Hacc, andb_true_r.
    pose proof (Z.mod_pos_bound n 10). unfold isDigit, inRange. lia. }
  destruct (n <? 10); [exact Hd|].
  apply IH; [apply Z.div_pos; lia | exact Hd].
Qed.

Lemma fuel_enough n : 0 <= n -> 0 <= n < 2 ^ Z.of_nat (Z.to_nat (Z.log2 n + 1)).
Proof.
  intro Hn. pose proof (Z.log2_nonneg n).
  rewrite Z2Nat.id by lia. split; [assumption|].
  destruct (Z.eq_dec n 0) as [->|Hne]; [reflexivity|].
  replace (Z.log2 n + 1) with (Z.succ (Z.log2 n)) by lia.
  apply Z.log2_spec. lia.
Qed.

(** [String(n)] writes [n] in decimal. *)
Lemma ofInt_decimal n :
  readInt (ofInt n) = n
  /\ (0 <= n -> forallb isDigit (ofInt n) = true /\ ofInt n <> []).
Proof.
  unfold ofInt. destruct (n <? 0) eqn:E.
  - apply Z.ltb_lt in E. split; [|lia].
    cbn [readInt]. rewrite Z.eqb_refl. unfold decimalValue.
    rewrite fold_decimal_digitsOf by (apply fuel_enough; lia).
    cbn. lia.
  - apply Z.ltb_ge in E.
    assert (Hdig : forallb isDigit
              (digitsOf (Z.to_nat (Z.log2 n + 1)) n []) = true)
      by (now apply digitsOf_digits).
    assert (Hval : decimalValue (digitsOf (Z.to_nat (Z.log2 n + 1)) n []) = n).
    { unfold decimalValue.
      now rewrite fold_decimal_digitsOf by (now apply fuel_enough). }
    assert (Hne : digitsOf (Z.to_nat (Z.log2 n + 1)) n [] <> []).
    { pose proof (Z.log2_nonneg n).
      replace (Z.to_nat (Z.log2 n + 1)) with (S (Z.to_nat (Z.log2 n)))
        by (rewrite Z2Nat.inj_add by lia; cbn; lia).
      cbn [digitsOf]. destruct (n <? 10); [discriminate|].
      generalize (Z.to_nat (Z.log2 n)) (n / 10). intros f m.
      assert (Hgrow : forall f m acc, acc <> [] -> digitsOf f m acc <> []).
      { clear. induction f as [|f IH]; intros m acc Hacc; [exact Hacc|].
        cbn [digitsOf]. destruct (m <? 10); [discriminate|].
        apply IH. discriminate. }
      apply Hgrow. discriminate. }
    split; [|intros _; now split].
    destruct (digitsOf (Z.to_nat (Z.log2 n + 1)) n []) as [|c rest] eqn:Hd;
      [congruence|].
    cbn [readInt]. cbn [forallb] in Hdig. apply andb_prop in Hdig as [Hc _].
    assert (Hc' : (c =? hyphen) = false)
      by (unfold isDigit, inRange, hyphen in *; lia).
    now rewrite Hc'.
Qed.

(** ** Reading the exported text back *)

Lemma parse_field R r f v rest :
  parseFrom InQuotes R r f (App.doubleQuotes v ++ dquote :: rest)
  = parseFrom AfterQuote R r (rev v ++ f) rest.
Proof.
  revert f; induction v as [|c v IH]; intro f.
  - cbn [App.doubleQuotes app parseFrom rev]. now rewrite Z.eqb_refl.
  - cbn [App.doubleQuotes]. destruct (c =? dquote) eqn:E.
    + apply Z.eqb_eq in E. subst c.
      cbn [app parseFrom]. rewrite !Z.eqb_refl. rewrite IH.
      cbn [rev]. now rewrite <- app_assoc.
    + cbn [app parseFrom]. rewrite E, IH.
      cbn [rev]. now rewrite <- app_assoc.
Qed.

Lemma parse_quoted R r f0 v rest :
  parseFrom AtField R r f0 (App.quoteField v ++ rest)
  = parseFrom AfterQuote R r (rev v) rest.
Proof.
  unfold App.quoteField. cbn [app parseFrom]. rewrite Z.eqb_refl.
  rewrite <- app_assoc. cbn [app]. rewrite parse_field. now rewrite app_nil_r.
Qed.

Lemma processRow_cons v v2 vs :
  App.processRow (v :: v2 :: vs)
  = App.quoteField v ++ [comma] ++ App.processRow (v2 :: vs).
Proof. reflexivity. Qed.

Lemma parse_row vs : forall v R r f0 rest,
  parseFrom AtField R r f0 (App.processRow (v :: vs) ++ rest)
  = parseFrom AfterQuote R (rev (removelast (v :: vs)) ++ r)
      (rev (last (v :: vs) [])) rest.
Proof.
  induction vs as [|v2 vs IH]; intros v R r f0 rest.
  - change (App.processRow [v]) with (App.quoteField v).
    now rewrite parse_quoted.
  - rewrite processRow_cons, <- !app_assoc, parse_quoted.
    cbn [app parseFrom]. change (comma =? dquote) with false.
    rewrite Z.eqb_refl. cbv iota. rewrite rev_involutive, IH.
    change (removelast (v :: v2 :: vs)) with (v :: removelast (v2 :: vs)).
    change (last (v :: v2 :: vs) []) with (last (v2 :: vs) []).
    cbn [rev]. now rewrite <- app_assoc.
Qed.

Lemma commit_row (row : list jsstring) :
  row <> [] -> rev (rev (rev (last row [])) :: rev (removelast row) ++ []) = row.
Proof.
  intro Hne. rewrite app_nil_r, rev_involutive. cbn [rev].
  rewrite rev_involutive. symmetry. now apply app_removelast_last.
Qed.

Lemma parse_rows rows : forall row R,
  row <> [] -> Forall (fun r => r <> []) rows ->
  parseFrom AtField R [] []
    (join [CR; LF] (List.map App.processRow (row :: rows)))
  = Some (rev R ++ row :: rows).
Proof.
  induction rows as [|row2 rows IH]; intros row R Hrow Hrows.
  - cbn [List.map join]. destruct row as [|v vs]; [congruence|].
    rewrite <- (app_nil_r (App.processRow (v :: vs))), parse_row.
    cbn [parseFrom]. rewrite (commit_row (v :: vs)) by discriminate.
    cbn [rev]. reflexivity.
  - inversion Hrows as [|? ? Hrow2 Hrows']; subst.
    change (join [CR; LF] (List.map App.processRow (row :: row2 :: rows)))
      with (App.processRow row ++ [CR; LF]
            ++ join [CR; LF] (List.map App.processRow (row2 :: rows))).
    destruct row as [|v vs]; [congruence|].
    rewrite parse_row. cbn [app parseFrom].
    change (CR =? dquote) with false. change (CR =? comma) with false.
    rewrite !Z.eqb_refl. cbv iota.
    rewrite (commit_row (v :: vs)) by discriminate.
    rewrite IH by assumption. cbn [rev]. now rewrite <- app_assoc.
Qed.


(** X8.  The text of the CSV file can be read back: whatever the fields
    hold (commas, double quotes, line breaks), the rows and the fields
    come back as they were given, provided no row is without fields. *)
Theorem csv_reads_back rows :
  Forall (fun row => row <> []) rows ->
  parseCSV (App.csvContent rows) = Some rows.
Proof.
  intro H. unfold App.csvContent, parseCSV. cbn [app]. rewrite Z.eqb_refl.
  destruct rows as [|row rows]; [reflexivity|].
  inversion H; subst. now rewrite parse_rows.
Qed.

Lemma csv_reads_back_witness :
  parseCSV (App.csvContent [[lit "a"; lit "b"]; [lit "c,d"; [101; 34; 13; 10; 102]]])
  = Some [[lit "a"; lit "b"]; [lit "c,d"; [101; 34; 13; 10; 102]]].
Proof.
  apply (csv_reads_back [[lit "a"; lit "b"]; [lit "c,d"; [101; 34; 13; 10; 102]]]).
  repeat constructor; discriminate.
Defined.

(** ** The two exports *)






(* ================================================================= *)
(** * Further properties of the service and of the inputs *)

(** ** The duration in the thumbnail prompt *)

Lemma fuel_succ n : 0 <= n -> exists f, Z.to_nat (Z.log2 n + 1) = S f.
Proof.
  intro Hn. pose proof (Z.log2_nonneg n).
  exists (Z.to_nat (Z.log2 n)). rewrite Z2Nat.inj_add by lia. cbn. lia.
Qed.

Lemma ofInt_one_digit h : 0 <= h < 10 -> ofInt h = [48 + h].
Proof.
  intro Hh. unfold ofInt.
  replace (h <? 0) with false by lia.
  destruct (fuel_succ h) as [f ->]; [lia|].
  cbn [digitsOf]. replace (h <? 10) with true by lia.
  now rewrite Z.mod_small by lia.
Qed.

Lemma ofInt_two_digits m :
  10 <= m < 100 -> ofInt m = [48 + m / 10; 48 + m mod 10].
Proof.
  intro Hm. unfold ofInt.
  replace (m <? 0) with false by lia.
  assert (Hlog : 3 <= Z.log2 m).
  { change 3 with (Z.log2 10). apply Z.log2_le_mono. lia. }
  assert (Hfuel : exists f, Z.to_nat (Z.log2 m + 1) = S (S f)).
  { exists (Z.to_nat (Z.log2 m - 1)). lia. }
  destruct Hfuel as [f ->].
  cbn [digitsOf]. replace (m <? 10) with false by lia.
  assert (Hq : 0 <= m / 10 < 10).
  { split; [apply Z.div_pos; lia | apply Z.div_lt_upper_bound; lia]. }
  replace (m / 10 <? 10) with true by lia.
  now rewrite (Z.mod_small (m / 10)) by lia.
Qed.

Lemma minutes_two_digits m :
  0 <= m < 100 -> padStart 2 48 (ofInt m) = [48 + m / 10; 48 + m mod 10].
Proof.
  intro Hm. destruct (Z_lt_le_dec m 10) as [Hlt|Hge].
  - rewrite ofInt_one_digit by lia. unfold padStart. cbn.
    rewrite Z.div_small, Z.mod_small by lia. reflexivity.
  - rewrite ofInt_two_digits by lia. reflexivity.
Qed.

(** X11.  For a duration of [d] minutes, an integer from 0 to below
    [2^53] (where JavaScript computes exactly and writes plain digits), the
    text put into the thumbnail prompt is the number of whole hours in
    decimal, an H, the remaining minutes on exactly two digits, and an M;
    hours and minutes read back give [d].  For the durations that the
    number field allows (5 to 240) the text has five characters.  For the
    duration [NaN], which the field stores for a text that does not parse,
    the text is [NaNHNaNM]. *)
Theorem durationStr_reads d :
  0 <= d < 2 ^ 53 ->
  durationStr d
  = ofInt (d / 60) ++ [72; 48 + (d mod 60) / 10; 48 + (d mod 60) mod 10; 77]
  /\ 0 <= d mod 60 < 60
  /\ readInt (ofInt (d / 60)) * 60 + ((d mod 60) / 10 * 10 + (d mod 60) mod 10) = d
  /\ (5 <= d <= 240 -> List.length (durationStr d) = 5%nat)
  /\ durationStr NaN = lit "NaNHNaNM"
  /\ durationStr (Infinity false) = lit "InfinityHNaNM".
Proof.
  intros [Hd _].
  pose proof (Z.mod_pos_bound d 60) as Hm.
  assert (Hstr : durationStr d
            = ofInt (d / 60)
              ++ [72; 48 + (d mod 60) / 10; 48 + (d mod 60) mod 10; 77]).
  { unfold durationStr. cbn [floorDiv remainder toString].
    rewrite Z.rem_mod_nonneg by lia.
    rewrite minutes_two_digits by lia. reflexivity. }
  split; [exact Hstr|]. split; [lia|]. split; [|split; [|split; reflexivity]].
  - rewrite (proj1 (ofInt_decimal (d / 60))).
    pose proof (Z.div_mod d 60). pose proof (Z.div_mod (d mod 60) 10). lia.
  - intro Hr. rewrite Hstr, ofInt_one_digit; [reflexivity|].
    split; [apply Z.div_pos; lia | apply Z.div_lt_upper_bound; lia].
Qed.

Lemma durationStr_reads_witness :
  durationStr 240
  = ofInt (240 / 60) ++ [72; 48 + (240 mod 60) / 10; 48 + (240 mod 60) mod 10; 77]
  /\ 0 <= 240 mod 60 < 60
  /\ readInt (ofInt (240 / 60)) * 60
     + ((240 mod 60) / 10 * 10 + (240 mod 60) mod 10) = 240
  /\ (5 <= 240 <= 240 -> List.length (durationStr 240) = 5%nat)
  /\ durationStr NaN = lit "NaNHNaNM"
  /\ durationStr (Infinity false) = lit "InfinityHNaNM".
Proof. apply (durationStr_reads 240). lia. Defined.

(** ** The data URL of an uploaded file *)

Lemma split_no_sep sep s :
  forallb (fun c => negb (c =? sep)) s = true -> split sep s = [s].
Proof.
  induction s as [|c s IH]; [reflexivity|].
  cbn [forallb split]. intro H. apply andb_prop in H as [Hc Hs].
  apply negb_true_iff in Hc. rewrite Hc, IH by assumption. reflexivity.
Qed.

Lemma split_app sep a b :
  forallb (fun c => negb (c =? sep)) a = true ->
  split sep (a ++ sep :: b) = a :: split sep b.
Proof.
  induction a as [|c a IH]; cbn [forallb app split]; intro H.
  - now rewrite Z.eqb_refl.
  - apply andb_prop in H as [Hc Ha].
    apply negb_true_iff in Hc. rewrite Hc, IH by assumption. reflexivity.
Qed.

(** X12.  [fileToBase64] gives what stands between the first comma of the
    data URL and the next comma or the end: for a header without comma
    followed by a comma and a payload without comma (base64 text has
    none) it gives the payload, also when the payload is empty; for a
    text without any comma it gives [undefined]. *)
Theorem fileToBase64_payload :
  (forall header payload,
     forallb (fun c => negb (c =? comma)) header = true ->
     forallb (fun c => negb (c =? comma)) payload = true ->
     fileToBase64 (header ++ comma :: payload) = Some payload)
  /\ (forall header payload more,
        forallb (fun c => negb (c =? comma)) header = true ->
        forallb (fun c => negb (c =? comma)) payload = true ->
        fileToBase64 (header ++ comma :: payload ++ comma :: more) = Some payload)
  /\ (forall result,
        forallb (fun c => negb (c =? comma)) result = true ->
        fileToBase64 result = None).
Proof.
  unfold fileToBase64. split; [|split].
  - intros header payload Hh Hp.
    now rewrite split_app, split_no_sep.
  - intros header payload more Hh Hp.
    now rewrite !split_app.
  - intros result Hr. now rewrite split_no_sep.
Qed.

Lemma fileToBase64_payload_witness :
  fileToBase64 (lit "data:image/png;base64" ++ comma :: lit "iVBORw0KGgo=")
  = Some (lit "iVBORw0KGgo=").
Proof.
  apply (proj1 fileToBase64_payload (lit "data:image/png;base64")
           (lit "iVBORw0KGgo=")); reflexivity.
Defined.

(** ** The number fields *)

(** X13.  What a change of a number field stores: [NaN] when [parseInt]
    gives [NaN] (nothing clamps it), and otherwise the parsed number
    brought into the range of the field, 5 to 240 minutes and 6 to 24
    chapters.  An emptied field counts as 0 and so stores the lower
    bound. *)
Theorem number_fields (parseInt : jsstring -> jsnum) value :
  let n := parseInt (if isEmpty value then lit "0" else value) in
  (n = None ->
   onDurationChange parseInt value = None
   /\ onChaptersChange parseInt value = None)
  /\ (forall z, n = Some z ->
      onDurationChange parseInt value = Some (Z.max 5 (Z.min 240 z))
      /\ onChaptersChange parseInt value = Some (Z.max 6 (Z.min 24 z))
      /\ 5 <= Z.max 5 (Z.min 240 z) <= 240
      /\ 6 <= Z.max 6 (Z.min 24 z) <= 24
      /\ (5 <= z <= 240 -> Z.max 5 (Z.min 240 z) = z)
      /\ (6 <= z <= 24 -> Z.max 6 (Z.min 24 z) = z))
  /\ (parseInt (lit "0") = Some 0 ->
      onDurationChange parseInt [] = Some 5
      /\ onChaptersChange parseInt [] = Some 6).
Proof.
  intro n. subst n. unfold onDurationChange, onChaptersChange, clamp.
  split; [|split].
  - intros ->. split; reflexivity.
  - intros z ->. cbn [mathMin mathMax]. repeat split; lia.
  - cbn [isEmpty]. intros ->. split; reflexivity.
Qed.

Lemma number_fields_witness :
  (onDurationChange digitsOnly (lit ".5") = None
   /\ onChaptersChange digitsOnly (lit ".5") = None)
  /\ (onDurationChange digitsOnly (lit "999") = Some (Z.max 5 (Z.min 240 999))
      /\ onChaptersChange digitsOnly (lit "999") = Some (Z.max 6 (Z.min 24 999))
      /\ 5 <= Z.max 5 (Z.min 240 999) <= 240
      /\ 6 <= Z.max 6 (Z.min 24 999) <= 24
      /\ (5 <= 999 <= 240 -> Z.max 5 (Z.min 240 999) = 999)
      /\ (6 <= 999 <= 24 -> Z.max 6 (Z.min 24 999) = 999))
  /\ (onDurationChange digitsOnly [] = Some 5
      /\ onChaptersChange digitsOnly [] = Some 6).
Proof.
  split; [|split].
  - apply (proj1 (number_fields digitsOnly (lit ".5"))). reflexivity.
  - apply (proj1 (proj2 (number_fields digitsOnly (lit "999"))) 999).
    reflexivity.
  - apply (proj2 (proj2 (number_fields digitsOnly []))). reflexivity.
Defined.

(** ** The keys in the storage of the browser *)

Lemma eqbString_refl a : eqbString a a = true.
Proof. induction a as [|x a IH]; cbn; [reflexivity|]. now rewrite Z.eqb_refl. Qed.

Lemma eqbString_eq a b : eqbString a b = true -> a = b.
Proof.
  revert b; induction a as [|x a IH]; intros [|y b] H; cbn in H;
    try discriminate; [reflexivity|].
  apply andb_prop in H as [Hx Ha]. apply Z.eqb_eq in Hx.
  now rewrite Hx, (IH b Ha).
Qed.

Lemma getItem_setItem_same key v st : getItem key (setItem key v st) = Some v.
Proof.
  induction st as [|[k u] st IH]; cbn [setItem getItem].
  - now rewrite eqbString_refl.
  - destruct (eqbString key k) eqn:E; cbn [getItem]; now rewrite E.
Qed.

Lemma getItem_setItem_other key key' v st :
  key' <> key -> getItem key' (setItem key v st) = getItem key' st.
Proof.
  intro Hne. induction st as [|[k u] st IH]; cbn [setItem getItem].
  - destruct (eqbString key' key) eqn:E; [|reflexivity].
    now apply eqbString_eq in E.
  - destruct (eqbString key k) eqn:E; cbn [getItem].
    + apply eqbString_eq in E. subst k.
      destruct (eqbString key' key) eqn:E'; [|reflexivity].
      now apply eqbString_eq in E'.
    + now rewrite IH.
Qed.

(** X14.  Saving the keys and mounting the component again.  After
    [handleSaveKeys] the storage holds both keys of the state under their
    two names, every other entry is as before, and the key manager is
    closed.  The mount effect then replaces a key of the state by the
    stored one when the stored one is not empty, and changes nothing
    else; so a component mounted afresh gets back exactly the keys that
    were saved, and with an empty storage the effect changes nothing. *)
Theorem keys_survive_reload c st s0 :
  let saved := handleSaveKeys c st in
  let s1 := loadKeys (storage saved) s0 in
  getItem geminiKeyName (storage saved) = Some (State.apiKeyGemini c)
  /\ getItem openAIKeyName (storage saved) = Some (State.apiKeyOpenAI c)
  /\ (forall key, key <> geminiKeyName -> key <> openAIKeyName ->
      getItem key (storage saved) = getItem key st)
  /\ showApiManager saved = false
  /\ State.apiKeyGemini s1
     = (if isEmpty (State.apiKeyGemini c) then State.apiKeyGemini s0
        else State.apiKeyGemini c)
  /\ State.apiKeyOpenAI s1
     = (if isEmpty (State.apiKeyOpenAI c) then State.apiKeyOpenAI s0
        else State.apiKeyOpenAI c)
  /\ (State.bookTitle s1, State.frameRatio s1, State.durationMin s1,
      State.chaptersCount s1, State.selectedModel s1)
     = (State.bookTitle s0, State.frameRatio s0, State.durationMin s0,
        State.chaptersCount s0, State.selectedModel s0)
  /\ results s1 = results s0
  /\ State.loading s1 = State.loading s0
  /\ State.error s1 = State.error s0
  /\ State.apiKeyGemini (loadKeys (storage saved) State.initial)
     = State.apiKeyGemini c
  /\ State.apiKeyOpenAI (loadKeys (storage saved) State.initial)
     = State.apiKeyOpenAI c
  /\ loadKeys [] s0 = s0.
Proof.
  intros saved s1.
  assert (Hg : getItem geminiKeyName (storage saved) = Some (State.apiKeyGemini c)).
  { unfold saved, handleSaveKeys. cbn [storage].
    rewrite getItem_setItem_other by discriminate.
    apply getItem_setItem_same. }
  assert (Ho : getItem openAIKeyName (storage saved) = Some (State.apiKeyOpenAI c)).
  { unfold saved, handleSaveKeys. cbn [storage]. apply getItem_setItem_same. }
  assert (Hload : forall s,
    loadKeys (storage saved) s
    = match State.apiKeyOpenAI c with
      | _ :: _ => setApiKeyOpenAI (State.apiKeyOpenAI c)
      | [] => fun s' => s'
      end (match State.apiKeyGemini c with
           | _ :: _ => setApiKeyGemini (State.apiKeyGemini c) s
           | [] => s
           end)).
  { intro s. unfold loadKeys. rewrite Hg, Ho.
    destruct (State.apiKeyGemini c), (State.apiKeyOpenAI c); reflexivity. }
  split; [exact Hg|]. split; [exact Ho|]. split.
  { intros key H1 H2. unfold saved, handleSaveKeys. cbn [storage].
    now rewrite !getItem_setItem_other. }
  split; [reflexivity|].
  unfold s1. rewrite !Hload.
  destruct (State.apiKeyGemini c), (State.apiKeyOpenAI c); repeat split.
Qed.

Lemma keys_survive_reload_witness :
  getItem (lit "theme")
    (storage (handleSaveKeys withOpenAI [(lit "theme", lit "dark")]))
  = getItem (lit "theme") [(lit "theme", lit "dark")].
Proof.
  apply (proj1 (proj2 (proj2 (keys_survive_reload withOpenAI
                                [(lit "theme", lit "dark")] State.initial)))
           (lit "theme")); discriminate.
Defined.

(** ** The total under the script blocks *)

Lemma totalChars_from blocks : forall a,
  fold_left (fun s x => s + ScriptBlock.chars x) blocks a
  = a + fold_left (fun s x => s + ScriptBlock.chars x) blocks 0.
Proof.
  induction blocks as [|b blocks IH]; intro a; cbn [fold_left]; [lia|].
  rewrite IH, (IH (0 + _)). lia.
Qed.

Lemma totalChars_texts blocks :
  Forall (fun b => ScriptBlock.chars b = lengthOf (ScriptBlock.text b)) blocks ->
  totalChars blocks = lengthOf (List.concat (List.map ScriptBlock.text blocks)).
Proof.
  unfold totalChars.
  induction 1 as [|b blocks Hb _ IH]; [reflexivity|].
  cbn [fold_left List.map List.concat]. rewrite totalChars_from, IH, Hb.
  unfold lengthOf. rewrite length_app. lia.
Qed.

(** X15.  In every state that a session reaches, the total shown under
    the script blocks, the sum of their [chars], is the number of
    characters of their texts put together. *)
Theorem total_is_text_length w :
  reachable w ->
  totalChars (State.scriptBlocks (store w))
  = lengthOf (List.concat (List.map ScriptBlock.text (State.scriptBlocks (store w)))).
Proof.
  intro Hw. apply totalChars_texts.
  induction Hw as [|svc k w _ IH|w s _ IH Hres _ _].
  - constructor.
  - now apply click_blocksOk.
  - unfold results in Hres. injection Hres as _ _ Hb _ _.
    cbn [store]. now rewrite Hb.
Qed.

Lemma total_is_text_length_witness :
  let w := App.click demoService Key.script (mkWorld titled []) in
  List.length (State.scriptBlocks (store w)) = 2%nat
  /\ totalChars (State.scriptBlocks (store w)) = 16
  /\ totalChars (State.scriptBlocks (store w))
     = lengthOf (List.concat (List.map ScriptBlock.text
                                (State.scriptBlocks (store w)))).
Proof.
  cbv zeta. split; [reflexivity|]. split; [reflexivity|].
  apply (total_is_text_length
           (App.click demoService Key.script (mkWorld titled []))).
  apply reach_click.
  apply (reach_edit (mkWorld State.initial []) titled reach_initial);
    reflexivity.
Defined.

(** ** The SEO operation *)

(** X16.  An SEO generation that goes through the gate makes one request,
    for the title and the duration of the render.  When it is fulfilled
    the answer replaces the SEO result and no message is left; when it is
    rejected the SEO result stays and the failure message is shown.  The
    busy flag of the operation is off in the end. *)
Theorem seo_replaced svc w :
  isEmpty (State.bookTitle (store w)) = false ->
  let s := store w in
  let r := generateSEO (State.bookTitle s) (State.durationMin s) [] in
  let w' := App.click svc Key.seo w in
  calls (eventsSince w w') = [r]
  /\ LoadingStates.get Key.seo (State.loading (store w')) = false
  /\ match replySEO svc (calls (log w)) r with
     | inr result =>
         State.seo (store w') = Some result /\ State.error (store w') = None
     | inl e =>
         State.seo (store w') = State.seo s
         /\ State.error (store w') = Some (failureMessage Key.seo e)
     end.
Proof.
  intros Htitle s r w'. subst w'.
  rewrite click_passes by assumption. cbn [App.body].
  rewrite seoBody_run. cbv zeta. rewrite calls_begin. fold s r.
  assert (Hlogb : log (begin Key.seo w) = log w ++
            [Wrote Cell.error (State.setError (fun _ => None) s);
             Wrote Cell.loading (store (begin Key.seo w))]).
  { unfold begin, wrote. cbn [log store]. now rewrite <- !app_assoc. }
  destruct (replySEO svc (calls (log w)) r) as [e|result].
  - split; [|split; [reflexivity | split; reflexivity]].
    rewrite (eventsSince_app w _
      [Wrote Cell.error (State.setError (fun _ => None) s);
       Wrote Cell.loading (store (begin Key.seo w));
       Called r; ConsoleError Key.seo e;
       Wrote Cell.error (store (caught Key.seo e
                                  (logged (Called r) (begin Key.seo w))));
       Wrote Cell.loading (store (finish Key.seo (caught Key.seo e
                                  (logged (Called r) (begin Key.seo w)))))]).
    + reflexivity.
    + cbn [finish caught logged wrote log store]. rewrite Hlogb.
      now rewrite <- !app_assoc.
  - split; [|split; [reflexivity | split; reflexivity]].
    rewrite (eventsSince_app w _
      [Wrote Cell.error (State.setError (fun _ => None) s);
       Wrote Cell.loading (store (begin Key.seo w));
       Called r;
       Wrote Cell.seo (State.setSeo (fun _ => Some result)
                         (store (begin Key.seo w)));
       Wrote Cell.loading (store (finish Key.seo
          (wrote Cell.seo (State.setSeo (fun _ => Some result))
             (logged (Called r) (begin Key.seo w)))))]).
    + reflexivity.
    + cbn [finish logged wrote log store]. rewrite Hlogb.
      now rewrite <- !app_assoc.
Qed.

Lemma seo_replaced_witness :
  let w := mkWorld afterFailure [] in
  let w' := App.click demoService Key.seo w in
  calls (eventsSince w w') = [generateSEO (lit "Sapiens") 240 []]
  /\ LoadingStates.get Key.seo (State.loading (store w')) = false
  /\ State.seo (store w') = Some demoSEO /\ State.error (store w') = None.
Proof.
  apply (seo_replaced demoService (mkWorld afterFailure [])). reflexivity.
Defined.

(* ================================================================= *)
(** * The two revisions agree *)

Section Agreement.

Variable x : list jsstring.
Variable h0 : list Request.

Lemma together_wrote cell f wp wk :
  together x h0 wp wk -> together x h0 (wrote cell f wp) (wrote cell f wk).
Proof.
  intros [Hs Hc]. split; cbn [wrote store log].
  - now rewrite Hs.
  - rewrite !calls_app. cbn [calls]. now rewrite !app_nil_r.
Qed.

Lemma together_console k e wp wk :
  together x h0 wp wk ->
  together x h0 (logged (ConsoleError k e) wp) (logged (ConsoleError k e) wk).
Proof.
  intros [Hs Hc]. split; cbn [logged store log]; [assumption|].
  rewrite !calls_app. cbn [calls]. now rewrite !app_nil_r.
Qed.

Lemma together_called r wp wk :
  together x h0 wp wk ->
  together x h0 (logged (Called r) wp) (logged (Called (withExtra x r)) wk).
Proof.
  intros [Hs Hc]. split; cbn [logged store log]; [assumption|].
  rewrite !calls_app. cbn [calls]. rewrite Hc, map_app, <- app_assoc.
  reflexivity.
Qed.

Lemma sim_ret {A} (a : A) : sim x h0 (ret a) (ret a).
Proof. intros wp wk H. now split. Qed.

Lemma sim_bind {A B} (mp mk : Async A) (kp kk : A -> Async B) :
  sim x h0 mp mk -> (forall a, sim x h0 (kp a) (kk a)) ->
  sim x h0 (bind mp kp) (bind mk kk).
Proof.
  intros Hm Hk wp wk H. rewrite !bind_run.
  destruct (Hm wp wk H) as [Hfst Hsnd].
  destruct (mp wp) as [[e|a] wp1], (mk wk) as [[e'|a'] wk1];
    cbn [fst snd] in *; try discriminate.
  - injection Hfst as <-. split; [reflexivity | exact Hsnd].
  - injection Hfst as <-. exact (Hk a wp1 wk1 Hsnd).
Qed.

Lemma sim_update cell f : sim x h0 (update cell f) (update cell f).
Proof.
  intros wp wk H. rewrite !update_run. cbn [fst snd].
  split; [reflexivity | now apply together_wrote].
Qed.

Lemma sim_await {A} (p : Promise A) : sim x h0 (await p) (await p).
Proof. intros wp wk H. now split. Qed.

Lemma sim_invoke {A} (replyP replyK : list Request -> Request -> Promise A) r :
  (forall h q, replyP h q = replyK (h0 ++ List.map (withExtra x) h) (withExtra x q)) ->
  sim x h0 (invoke replyP r) (invoke replyK (withExtra x r)).
Proof.
  intros Hreply wp wk H. rewrite !invoke_run. cbn [fst snd].
  split; [|now apply together_called].
  destruct H as [_ Hc]. now rewrite Hreply, Hc.
Qed.

Lemma sim_forOf {A} (l : list A) (bp bk : A -> Async unit) :
  (forall a, sim x h0 (bp a) (bk a)) -> sim x h0 (forOf l bp) (forOf l bk).
Proof.
  intro H. induction l as [|a l IH]; cbn [forOf].
  - apply sim_ret.
  - apply sim_bind; auto.
Qed.

End Agreement.

Ltac sim_step :=
  first
    [ apply sim_ret
    | apply sim_await
    | apply sim_update
    | apply sim_bind; [|intro]
    | apply sim_forOf; intro
    | match goal with
      | |- sim _ _ (if ?b then _ else _) (if ?b then _ else _) => destruct b
      | |- sim _ _ (let '(_, _) := ?p in _) _ => destruct p
      end ].

Lemma sim_body svc c h0 k :
  sim (AppWithKeys.extra c) h0
      (App.body (seenWith (AppWithKeys.extra c) h0 svc) c k)
      (AppWithKeys.body svc c k).
Proof.
  destruct k; cbn [App.body AppWithKeys.body]; unfold_bodies.
  - apply sim_bind; [|intro; repeat sim_step].
    apply (sim_invoke (AppWithKeys.extra c) h0 _ _
             (generateOutline (State.bookTitle c) (State.chaptersCount c)
                (State.durationMin c) [])).
    reflexivity.
  - apply sim_bind; [|intro; repeat sim_step].
    apply (sim_invoke (AppWithKeys.extra c) h0 _ _
             (generateSEO (State.bookTitle c) (State.durationMin c) [])).
    reflexivity.
  - apply sim_bind; [apply sim_update|intros _].
    apply sim_bind.
    + destruct (List.length (State.outline c) =? 0)%nat; [|apply sim_ret].
      apply sim_bind; [|intro; repeat sim_step].
      apply (sim_invoke (AppWithKeys.extra c) h0 _ _
               (generateOutline (State.bookTitle c) (State.chaptersCount c)
                  (State.durationMin c) [])).
      reflexivity.
    + intro cur. apply sim_forOf. intro item.
      apply sim_bind; [|intro; repeat sim_step].
      apply (sim_invoke (AppWithKeys.extra c) h0 _ _
               (generateScriptBlock item (State.bookTitle c)
                  (roundDiv (App.totalCharsTarget c)
                     (Z.of_nat (List.length cur))) [])).
      reflexivity.
  - apply sim_bind.
    { apply (sim_invoke (AppWithKeys.extra c) h0 _ _
               (generateVideoPrompts (State.bookTitle c) (State.frameRatio c) [])).
      reflexivity. }
    intro pa. apply sim_bind.
    { apply (sim_invoke (AppWithKeys.extra c) h0 _ _
               (generateThumbIdeas (State.bookTitle c) (State.durationMin c) [])).
      reflexivity. }
    intro pb. apply sim_bind.
    + intros wp wk H. rewrite !await_run. cbn [fst snd].
      split; [|assumption]. destruct H as [_ Hc].
      cbn [seenWith thumbsRejectFirst]. now rewrite Hc.
    + intros [prompts thumbs]. repeat sim_step.
Qed.

(** X17.  The two revisions agree.  When the gate of the revision with
    the key manager lets an operation through, the operation ends in the
    state in which the plain revision ends when it starts from the same
    state and meets the same answers, and the requests it adds are those
    of the plain revision with the selected model and the Gemini key as
    trailing arguments, in the same order. *)
Theorem revisions_agree svc k w :
  gateFails (store w) = false ->
  let x := [State.selectedModel (store w); State.apiKeyGemini (store w)] in
  let wp := App.click (seenWith x (calls (log w)) svc) k (mkWorld (store w) []) in
  let wk := AppWithKeys.click svc k w in
  store wk = store wp
  /\ calls (log wk) = calls (log w) ++ List.map (withExtra x) (calls (log wp)).
Proof.
  intros Hgate x wp wk. subst wp wk.
  assert (Htitle : isEmpty (State.bookTitle (store w)) = false).
  { unfold gateFails in Hgate. now apply orb_false_elim in Hgate as [? _]. }
  rewrite keyed_click_passes by assumption.
  rewrite click_passes by assumption. cbn [store].
  assert (H0 : together x (calls (log w))
                 (begin k (mkWorld (store w) [])) (begin k w)).
  { unfold begin. apply together_wrote, together_wrote.
    split; cbn [store log calls map]; [reflexivity | now rewrite app_nil_r]. }
  pose proof (sim_body svc (store w) (calls (log w)) k) as Hsim.
  change (AppWithKeys.extra (store w)) with x in Hsim.
  destruct (Hsim _ _ H0) as [Hfst Hsnd].
  destruct (App.body (seenWith x (calls (log w)) svc) (store w) k
              (begin k (mkWorld (store w) []))) as [[e|u] wp2],
           (AppWithKeys.body svc (store w) k (begin k w)) as [[e'|u'] wk2];
    cbn [fst snd] in *; try discriminate.
  - injection Hfst as <-.
    assert (H : together x (calls (log w))
                  (finish k (caught k e wp2)) (finish k (caught k e wk2))).
    { unfold finish, caught. now apply together_wrote, together_wrote,
        together_console. }
    destruct H as [Hs Hc]. split; [symmetry; exact Hs | exact Hc].
  - assert (H : together x (calls (log w)) (finish k wp2) (finish k wk2))
      by (now apply together_wrote).
    destruct H as [Hs Hc]. split; [symmetry; exact Hs | exact Hc].
Qed.

Lemma revisions_agree_witness :
  let x := [State.selectedModel withOpenAI; State.apiKeyGemini withOpenAI] in
  let wp := App.click (seenWith x (calls []) demoService) Key.script
              (mkWorld withOpenAI []) in
  let wk := AppWithKeys.click demoService Key.script (mkWorld withOpenAI []) in
  store wk = store wp
  /\ calls (log wk) = calls [] ++ List.map (withExtra x) (calls (log wp)).
Proof.
  apply (revisions_agree demoService Key.script (mkWorld withOpenAI [])).
  reflexivity.
Defined.

(* ================================================================= *)
(** * Further properties of the slug and of the numbering *)

(** ** A slug is its own slug *)

Lemma wordsOf_cons c rest :
  wordsOf (c :: rest)
  = if isSlugChar c then
      match rest with
      | d :: _ =>
          if isSlugChar d then
            match wordsOf rest with
            | w :: ws => (c :: w) :: ws
            | [] => [[c]]
            end
          else [c] :: wordsOf rest
      | [] => [[c]]
      end
    else wordsOf rest.
Proof. reflexivity. Qed.

Lemma wordsOf_word_app w rest :
  wordOk w -> wordsOf (w ++ hyphen :: rest) = w :: wordsOf rest.
Proof.
  intros [Hne Hall]. induction w as [|c w IH]; [congruence|].
  cbn [forallb] in Hall. apply andb_prop in Hall as [Hc Hw].
  cbn [app]. rewrite wordsOf_cons, Hc.
  destruct w as [|c2 w].
  - cbn [app]. change (isSlugChar hyphen) with false. cbv iota.
    now rewrite wordsOf_cons.
  - assert (Hc2 : isSlugChar c2 = true)
      by (cbn [forallb] in Hw; now apply andb_prop in Hw as [? _]).
    cbn [app]. rewrite Hc2.
    change (c2 :: (w ++ hyphen :: rest)) with ((c2 :: w) ++ hyphen :: rest).
    rewrite IH by (discriminate || assumption). reflexivity.
Qed.

Lemma wordsOf_word w : wordOk w -> wordsOf w = [w].
Proof.
  intros [Hne Hall]. induction w as [|c w IH]; [congruence|].
  cbn [forallb] in Hall. apply andb_prop in Hall as [Hc Hw].
  rewrite wordsOf_cons, Hc.
  destruct w as [|c2 w]; [reflexivity|].
  assert (Hc2 : isSlugChar c2 = true)
    by (cbn [forallb] in Hw; now apply andb_prop in Hw as [? _]).
  rewrite Hc2, IH by (discriminate || assumption). reflexivity.
Qed.

Lemma wordsOf_join ws :
  Forall wordOk ws -> wordsOf (join [hyphen] ws) = ws.
Proof.
  induction 1 as [|w ws Hw Hws IH]; [reflexivity|].
  destruct ws as [|w2 ws].
  - now apply wordsOf_word.
  - change (join [hyphen] (w :: w2 :: ws))
      with (w ++ hyphen :: join [hyphen] (w2 :: ws)).
    rewrite wordsOf_word_app by assumption. now rewrite IH.
Qed.

Lemma asciiLower_slugText s :
  forallb (fun c => isSlugChar c || (c =? hyphen)) s = true ->
  forallb isAscii s = true /\ List.map asciiLower s = s.
Proof.
  induction s as [|c s IH]; [now split|].
  cbn [forallb List.map]. intro H. apply andb_prop in H as [Hc Hs].
  destruct (IH Hs) as [Ha Hm]. rewrite Ha, Hm.
  unfold isSlugChar, isAscii, asciiLower, isUpperAZ, inRange, hyphen in *.
  split; [lia|].
  replace ((65 <=? c) && (c <=? 90)) with false by lia. reflexivity.
Qed.

(** X18.  Taking the slug of a slug changes nothing, as long as the slug
    is not empty; the slug of the empty slug is the default. *)
Theorem slugify_idempotent (U : UnicodeData) s :
  (geminiService.slugify U s <> [] ->
   geminiService.slugify U (geminiService.slugify U s) = geminiService.slugify U s)
  /\ (geminiService.slugify U s = [] ->
      geminiService.slugify U (geminiService.slugify U s) = lit "ndgroup").
Proof.
  split.
  - intro Hne.
    pose proof (wordsOf_ok (geminiService.prepared U s)) as Hws.
    pose proof (join_words_chars _ Hws) as Hchars.
    rewrite <- slugify_words in Hchars.
    destruct (asciiLower_slugText _ Hchars) as [Hascii Hlow].
    rewrite (slugify_words U (geminiService.slugify U s)).
    rewrite prepared_ascii, Hlow by assumption.
    assert (Hfilter : filter (fun c => negb (isDiacritic U c))
                        (geminiService.slugify U s)
                      = geminiService.slugify U s).
    { apply forallb_filter_id. rewrite forallb_forall in *.
      intros c Hc. specialize (Hchars c Hc). specialize (Hascii c Hc).
      rewrite isDiacritic_ascii by assumption.
      unfold isSlugChar, inRange, hyphen in Hchars. lia. }
    rewrite Hfilter. rewrite (slugify_words U s) at 1.
    rewrite wordsOf_join by assumption. symmetry. apply slugify_words.
  - intros ->. apply slugify_default.
Qed.

Lemma slugify_idempotent_witness :
  geminiService.slugify vietnameseData
    (geminiService.slugify vietnameseData (lit "Nhà Giả Kim"))
  = geminiService.slugify vietnameseData (lit "Nhà Giả Kim")
  /\ geminiService.slugify vietnameseData
       (geminiService.slugify vietnameseData (lit "!!!"))
     = lit "ndgroup".
Proof.
  split.
  - apply (proj1 (slugify_idempotent vietnameseData (lit "Nhà Giả Kim"))).
    discriminate.
  - apply (proj2 (slugify_idempotent vietnameseData (lit "!!!"))).
    reflexivity.
Defined.

(** ** The numbers of the outline items and of the script blocks *)

Lemma click_outline svc k w :
  State.outline (store (App.click svc k w)) = State.outline (store w)
  \/ exists raw, State.outline (store (App.click svc k w)) = indexFrom 0 raw.
Proof.
  destruct (isEmpty (State.bookTitle (store w))) eqn:Htitle.
  { rewrite click_blocked by assumption. now left. }
  rewrite click_passes by assumption.
  destruct k; cbn [App.body].
  - rewrite outlineBody_run. cbv zeta.
    destruct (replyOutline svc _ _) as [e|raw]; [now left|].
    right. now exists raw.
  - rewrite seoBody_run. cbv zeta.
    destruct (replySEO svc _ _); now left.
  - assert (Hcases : State.outline (store w) = [] \/ State.outline (store w) <> [])
      by (destruct (State.outline (store w)); [now left | now right]).
    destruct Hcases as [Hempty|Hstored].
    + destruct (replyOutline svc (calls (log (cleared (begin Key.script w))))
                  (outlineRequest (store w))) as [e|raw] eqn:Hreply.
      * rewrite (scriptBody_rejected svc (store w) (begin Key.script w) e
                   Hempty Hreply).
        now left.
      * rewrite (scriptBody_generated svc (store w) (begin Key.script w) raw
                   Hempty Hreply).
        right. exists raw.
        destruct (scriptLoop_cases svc (store w)
                    (targetFor (store w) (indexFrom 0 raw)) (indexFrom 0 raw)
                    (wrote Cell.outline (State.setOutline (fun _ => indexFrom 0 raw))
                       (logged (Called (outlineRequest (store w)))
                          (cleared (begin Key.script w)))))
          as [(w2 & blocks & Hrun & _ & Hstore & _)
             |(e & w2 & blocks & item & Hrun & _ & _ & _ & Hstore & _)];
          rewrite Hrun;
          cbn [finish caught logged wrote store State.setLoading State.setError
               State.outline];
          now rewrite Hstore.
    + rewrite scriptBody_stored by assumption. left.
      destruct (scriptLoop_cases svc (store w)
                  (targetFor (store w) (State.outline (store w)))
                  (State.outline (store w)) (cleared (begin Key.script w)))
        as [(w2 & blocks & Hrun & _ & Hstore & _)
           |(e & w2 & blocks & item & Hrun & _ & _ & _ & Hstore & _)];
        rewrite Hrun;
        cbn [finish caught logged wrote store State.setLoading State.setError
             State.outline];
        now rewrite Hstore.
  - rewrite promptsBody_run. cbv zeta.
    destruct (promiseAll _ _ _) as [e|[prompts thumbs]]; now left.
Qed.

Lemma numbered_blocks cur blocks :
  List.map OutlineItem.index cur
  = List.map Z.of_nat (seq 0 (List.length cur)) ->
  Forall2 blockOf (firstn (List.length blocks) cur) blocks ->
  List.map ScriptBlock.index blocks
  = List.map Z.of_nat (seq 1 (List.length blocks)).
Proof.
  intros Hcur Hrel.
  destruct (Forall2_blockOf_index _ _ Hrel) as (Hidx & _ & _).
  pose proof (Forall2_length Hrel) as Hlen. rewrite length_firstn in Hlen.
  rewrite Hidx, <- (map_map OutlineItem.index (fun i => i + 1)).
  rewrite <- firstn_map, Hcur, firstn_map, firstn_seq, Hlen.
  rewrite !map_map, <- seq_shift, map_map.
  apply map_ext. intro k. lia.
Qed.

Lemma click_numbered svc k w :
  outlineNumbered (store w) /\ blocksNumbered (store w) ->
  outlineNumbered (store (App.click svc k w))
  /\ blocksNumbered (store (App.click svc k w)).
Proof.
  intros [Ho Hb].
  assert (Ho' : outlineNumbered (store (App.click svc k w))).
  { unfold outlineNumbered in *.
    destruct (click_outline svc k w) as [->|[raw ->]]; [exact Ho|].
    rewrite indexFrom_index, indexFrom_length. apply map_ext. intro n. lia. }
  split; [exact Ho'|].
  destruct (isEmpty (State.bookTitle (store w))) eqn:Htitle.
  { rewrite click_blocked by assumption. exact Hb. }
  destruct (Key.eqb k Key.script) eqn:Hk.
  - assert (k = Key.script) as -> by (destruct k; (reflexivity || discriminate)).
    destruct (script_click svc w Htitle)
      as (cur & blocks & pre & sPre & tail & _ & _ & _ & Hrel & Hcur & _
          & Hblocks & _).
    unfold blocksNumbered, outlineNumbered in *.
    rewrite Hblocks. rewrite Hcur in Ho'. now apply (numbered_blocks cur).
  - assert (Hne : k <> Key.script) by (intros ->; discriminate).
    destruct (other_click svc k w Hne Htitle) as (body & tail & _ & _ & Hsame & _).
    unfold blocksNumbered in *. now rewrite Hsame.
Qed.

Lemma NoDup_numbers a n : NoDup (List.map Z.of_nat (seq a n)).
Proof.
  revert a; induction n as [|n IH]; intro a; cbn [seq List.map]; constructor.
  - rewrite in_map_iff. intros (m & Hm & Hin). apply in_seq in Hin. lia.
  - apply IH.
Qed.

(** X19.  In every state that a session reaches, the outline items are
    numbered 0, 1, 2, ... in the order of the list and the script blocks
    1, 2, 3, ... in the order of the list.  So no two items of the rendered
    outline have the same React key, and no two rendered blocks have. *)
Theorem numbers_in_order w :
  reachable w ->
  List.map OutlineItem.index (State.outline (store w))
  = List.map Z.of_nat (seq 0 (List.length (State.outline (store w))))
  /\ List.map ScriptBlock.index (State.scriptBlocks (store w))
     = List.map Z.of_nat (seq 1 (List.length (State.scriptBlocks (store w))))
  /\ NoDup (List.map OutlineItem.index (State.outline (store w)))
  /\ NoDup (List.map ScriptBlock.index (State.scriptBlocks (store w))).
Proof.
  intro Hw.
  assert (H : outlineNumbered (store w) /\ blocksNumbered (store w)).
  { induction Hw as [|svc k w _ IH|w s _ IH Hres _ _].
    - split; reflexivity.
    - now apply click_numbered.
    - unfold results in Hres. injection Hres as Ho _ Hb _ _.
      unfold outlineNumbered, blocksNumbered in *. cbn [store].
      now rewrite Ho, Hb. }
  destruct H as [Ho Hb]. unfold outlineNumbered, blocksNumbered in *.
  split; [exact Ho|]. split; [exact Hb|].
  split; [rewrite Ho | rewrite Hb]; apply NoDup_numbers.
Qed.

Lemma numbers_in_order_witness :
  let w := App.click flakyService Key.outline
             (App.click demoService Key.script (mkWorld titled [])) in
  List.map OutlineItem.index (State.outline (store w)) = [0; 1]
  /\ List.map ScriptBlock.index (State.scriptBlocks (store w)) = [1; 2]
  /\ NoDup (List.map OutlineItem.index (State.outline (store w)))
  /\ NoDup (List.map ScriptBlock.index (State.scriptBlocks (store w))).
Proof.
  apply (numbers_in_order
           (App.click flakyService Key.outline
              (App.click demoService Key.script (mkWorld titled [])))).
  do 2 apply reach_click.
  apply (reach_edit (mkWorld State.initial []) titled reach_initial);
    reflexivity.
Defined.

(** * Further properties of the export and of the character budget *)

(** ** The names of the exported files *)

Lemma slugify_chars (U : UnicodeData) s :
  forallb isFileNameChar (geminiService.slugify U s) = true.
Proof.
  rewrite slugify_words.
  pose proof (join_words_chars _ (wordsOf_ok (geminiService.prepared U s))) as H.
  rewrite forallb_forall in *. intros x Hx. specialize (H x Hx).
  unfold isFileNameChar. now rewrite H.
Qed.

(** X20.  Whatever the title, the name of an exported file is made of
    lowercase ASCII letters, digits, hyphens, underscores and dots only. *)
Theorem export_names (U : UnicodeData) c d :
  App.exportScriptCSV U c = Some d \/ App.exportPromptCSV U c = Some d ->
  forallb isFileNameChar (filename d) = true.
Proof.
  unfold App.exportScriptCSV, App.exportPromptCSV, App.downloadCSV.
  intros [H|H];
    [destruct (List.length (State.scriptBlocks c) =? 0)%nat
    |destruct (List.length (State.videoPrompts c) =? 0)%nat];
    try discriminate; injection H as <-; cbn [filename];
    cbn [forallb]; rewrite forallb_app, slugify_chars; reflexivity.
Qed.

Lemma export_names_witness :
  exists d,
    App.exportScriptCSV vietnameseData worked = Some d
    /\ forallb isFileNameChar (filename d) = true.
Proof.
  eexists. split; [reflexivity|].
  apply (export_names vietnameseData worked). left. reflexivity.
Defined.

(** ** The character budget *)

(** X21.  The targets of the blocks add up to the total target, up to the
    rounding: when the duration is an integer [d], small enough for the
    arithmetic of JavaScript to be exact, [N] times the target of a block
    over an outline of [N >= 1] items differs from the total target, 1000
    characters a minute, by at most [N / 2].  When the duration is [NaN]
    the target of a block is [NaN]. *)
Theorem targets_add_up c (items : list OutlineItem.t) :
  items <> [] ->
  let n := Z.of_nat (List.length items) in
  (forall d, State.durationMin c = Int d -> Z.abs (d * 1000) < 2 ^ 52 ->
     exists q,
       targetFor c items = Int q /\ 2 * Z.abs (n * q - d * 1000) <= n)
  /\ (State.durationMin c = NaN -> targetFor c items = NaN).
Proof.
  intros Hne n. subst n. unfold targetFor, App.totalCharsTarget.
  destruct items as [|item items]; [congruence|].
  set (n := Z.of_nat (List.length (item :: items))).
  assert (Hn : 0 < n) by (subst n; cbn [List.length]; lia).
  split.
  - intros d -> _. cbn [times].
    destruct (roundDiv_nearest (d * 1000) n Hn) as (q & Hq & Hnear).
    exists q. split; [exact Hq | lia].
  - intros ->. reflexivity.
Qed.

Lemma targets_add_up_witness :
  (exists q,
     targetFor titled (indexFrom 0 demoRaw) = Int q
     /\ 2 * Z.abs (2 * q - 240 * 1000) <= 2)
  /\ targetFor unparsed (indexFrom 0 demoRaw) = NaN.
Proof.
  split.
  - apply (proj1 (targets_add_up titled (indexFrom 0 demoRaw)
                    ltac:(discriminate)) 240); [reflexivity | reflexivity].
  - apply (proj2 (targets_add_up unparsed (indexFrom 0 demoRaw)
                    ltac:(discriminate))).
    reflexivity.
Defined.
